(** * polymer-modulizer: the document converter

    A shallow embedding of [src/document-converter.ts] and the properties
    of its namespace-to-module rewriting that the specification states.

    Layout of the development:
    - JavaScript strings and the few string primitives the converter uses;
    - the ESTree syntax trees the converter inspects and builds, with the
      jscodeshift builders;
    - the free functions of the file ([getMemberPath], [getExport],
      [getImportDeclarations], [getNamespaceExports], ...);
    - the ast-types visitors the converter runs ([getNode] and the two
      [this]-rewriting passes);
    - the converter's state (registries, module records, the statement
      cursor) and its methods, in a state-and-exception monad;
    - the vocabulary of the statements, then the lemmas and theorems. *)

From Stdlib Require Import ZArith String Ascii List Lia.
From stdpp Require Import base strings gmap list.

Open Scope string_scope.
Open Scope Z_scope.

Set Warnings "-register-all".

(** ** Syntax trees

    Every ESTree node carries [loc]; nodes made by the jscodeshift builders
    have [loc = null], nodes that come from a parser have a location. *)

Record SourceLocation := {
  start_line : Z; start_column : Z;
  end_line : Z; end_column : Z
}.

Definition Loc := option SourceLocation.

Inductive LiteralValue :=
| LString (s : string)
| LNumber (n : Z)
| LBoolean (b : bool)
| LNull.

Record TemplateElement := {
  element_loc : Loc;
  cooked : string;
  raw : string;
  tail : bool
}.

(** An object literal's member: the converter reads [key] and [value].
    Members and template elements are nodes of their own in ESTree; here
    they are records inside the node that holds them. *)
Record Property (N : Type) := mkProperty {
  prop_loc : Loc;
  key : N;
  value : N
}.
Arguments mkProperty {N} _ _ _.
Arguments prop_loc {N} _.
Arguments key {N} _.
Arguments value {N} _.

Inductive Node :=
(* programs and statements *)
| Program (loc : Loc) (body : list Node)
| ExpressionStatement (loc : Loc) (expression : Node)
| BlockStatement (loc : Loc) (body : list Node)
| ReturnStatement (loc : Loc) (argument : option Node)
| VariableDeclaration (loc : Loc) (kind : string) (declarations : list Node)
| VariableDeclarator (loc : Loc) (id : Node) (init : option Node)
| FunctionDeclaration (loc : Loc) (id : Node) (params : list Node)
    (body : Node) (generator : bool)
| ClassDeclaration (loc : Loc) (id : Node) (superClass : option Node)
    (body : Node)
| ClassBody (loc : Loc) (body : list Node)
| MethodDefinition (loc : Loc) (kind : string) (key : Node) (value : Node)
(* module declarations *)
| ImportDeclaration (loc : Loc) (specifiers : list Node) (source : Node)
| ImportSpecifier (loc : Loc) (imported : Node) (local : Node)
| ImportNamespaceSpecifier (loc : Loc) (local : Node)
| ExportNamedDeclaration (loc : Loc) (declaration : option Node)
    (specifiers : list Node) (source : option Node)
| ExportSpecifier (loc : Loc) (local : Node) (exported : Node)
| ExportDefaultDeclaration (loc : Loc) (declaration : Node)
| ExportDeclaration (loc : Loc) (default : bool) (declaration : Node)
(* expressions *)
| ThisExpression (loc : Loc)
| Identifier (loc : Loc) (name : string)
| Literal (loc : Loc) (val : LiteralValue)
| TemplateLiteral (loc : Loc) (quasis : list TemplateElement)
    (expressions : list Node)
| ArrayExpression (loc : Loc) (elements : list Node)
| ObjectExpression (loc : Loc) (properties : list (Property Node))
| FunctionExpression (loc : Loc) (id : option Node) (params : list Node)
    (body : Node) (generator : bool)
| ArrowFunctionExpression (loc : Loc) (params : list Node) (body : Node)
| MemberExpression (loc : Loc) (object : Node) (property : Node)
    (computed : bool)
| CallExpression (loc : Loc) (callee : Node) (arguments : list Node)
| AssignmentExpression (loc : Loc) (operator : string) (left : Node)
    (right : Node)
| BinaryExpression (loc : Loc) (operator : string) (left : Node)
    (right : Node).

(** [node.type] *)
Definition type (n : Node) : string :=
  match n with
  | Program _ _ => "Program"
  | ExpressionStatement _ _ => "ExpressionStatement"
  | BlockStatement _ _ => "BlockStatement"
  | ReturnStatement _ _ => "ReturnStatement"
  | VariableDeclaration _ _ _ => "VariableDeclaration"
  | VariableDeclarator _ _ _ => "VariableDeclarator"
  | FunctionDeclaration _ _ _ _ _ => "FunctionDeclaration"
  | ClassDeclaration _ _ _ _ => "ClassDeclaration"
  | ClassBody _ _ => "ClassBody"
  | MethodDefinition _ _ _ _ => "MethodDefinition"
  | ImportDeclaration _ _ _ => "ImportDeclaration"
  | ImportSpecifier _ _ _ => "ImportSpecifier"
  | ImportNamespaceSpecifier _ _ => "ImportNamespaceSpecifier"
  | ExportNamedDeclaration _ _ _ _ => "ExportNamedDeclaration"
  | ExportSpecifier _ _ _ => "ExportSpecifier"
  | ExportDefaultDeclaration _ _ => "ExportDefaultDeclaration"
  | ExportDeclaration _ _ _ => "ExportDeclaration"
  | ThisExpression _ => "ThisExpression"
  | Identifier _ _ => "Identifier"
  | Literal _ _ => "Literal"
  | TemplateLiteral _ _ _ => "TemplateLiteral"
  | ArrayExpression _ _ => "ArrayExpression"
  | ObjectExpression _ _ => "ObjectExpression"
  | FunctionExpression _ _ _ _ _ => "FunctionExpression"
  | ArrowFunctionExpression _ _ _ => "ArrowFunctionExpression"
  | MemberExpression _ _ _ _ => "MemberExpression"
  | CallExpression _ _ _ => "CallExpression"
  | AssignmentExpression _ _ _ _ => "AssignmentExpression"
  | BinaryExpression _ _ _ _ => "BinaryExpression"
  end.

(** [node.loc] *)
Definition loc_of (n : Node) : Loc :=
  match n with
  | Program l _ | ExpressionStatement l _ | BlockStatement l _
  | ReturnStatement l _ | VariableDeclaration l _ _
  | VariableDeclarator l _ _ | FunctionDeclaration l _ _ _ _
  | ClassDeclaration l _ _ _ | ClassBody l _ | MethodDefinition l _ _ _
  | ImportDeclaration l _ _ | ImportSpecifier l _ _
  | ImportNamespaceSpecifier l _ | ExportNamedDeclaration l _ _ _
  | ExportSpecifier l _ _ | ExportDefaultDeclaration l _
  | ExportDeclaration l _ _ | ThisExpression l | Identifier l _
  | Literal l _ | TemplateLiteral l _ _ | ArrayExpression l _
  | ObjectExpression l _ | FunctionExpression l _ _ _ _
  | ArrowFunctionExpression l _ _ | MemberExpression l _ _ _
  | CallExpression l _ _ | AssignmentExpression l _ _ _
  | BinaryExpression l _ _ _ => l
  end.

(** Structural induction that reaches the nodes held in lists, options and
    object members. *)
Section NodeInduction.
Variable P : Node -> Prop.

Definition OptP (o : option Node) : Prop :=
  match o with Some n => P n | None => True end.
Definition PropP (p : Property Node) : Prop := P (key p) /\ P (value p).

Hypothesis HProgram : forall l b, Forall P b -> P (Program l b).
Hypothesis HExpressionStatement :
  forall l e, P e -> P (ExpressionStatement l e).
Hypothesis HBlockStatement : forall l b, Forall P b -> P (BlockStatement l b).
Hypothesis HReturnStatement : forall l a, OptP a -> P (ReturnStatement l a).
Hypothesis HVariableDeclaration :
  forall l k ds, Forall P ds -> P (VariableDeclaration l k ds).
Hypothesis HVariableDeclarator :
  forall l i o, P i -> OptP o -> P (VariableDeclarator l i o).
Hypothesis HFunctionDeclaration :
  forall l i ps b g, P i -> Forall P ps -> P b ->
    P (FunctionDeclaration l i ps b g).
Hypothesis HClassDeclaration :
  forall l i s b, P i -> OptP s -> P b -> P (ClassDeclaration l i s b).
Hypothesis HClassBody : forall l b, Forall P b -> P (ClassBody l b).
Hypothesis HMethodDefinition :
  forall l k ke v, P ke -> P v -> P (MethodDefinition l k ke v).
Hypothesis HImportDeclaration :
  forall l ss s, Forall P ss -> P s -> P (ImportDeclaration l ss s).
Hypothesis HImportSpecifier :
  forall l i lo, P i -> P lo -> P (ImportSpecifier l i lo).
Hypothesis HImportNamespaceSpecifier :
  forall l lo, P lo -> P (ImportNamespaceSpecifier l lo).
Hypothesis HExportNamedDeclaration :
  forall l d ss s, OptP d -> Forall P ss -> OptP s ->
    P (ExportNamedDeclaration l d ss s).
Hypothesis HExportSpecifier :
  forall l lo e, P lo -> P e -> P (ExportSpecifier l lo e).
Hypothesis HExportDefaultDeclaration :
  forall l d, P d -> P (ExportDefaultDeclaration l d).
Hypothesis HExportDeclaration :
  forall l df d, P d -> P (ExportDeclaration l df d).
Hypothesis HThisExpression : forall l, P (ThisExpression l).
Hypothesis HIdentifier : forall l n, P (Identifier l n).
Hypothesis HLiteral : forall l v, P (Literal l v).
Hypothesis HTemplateLiteral :
  forall l qs es, Forall P es -> P (TemplateLiteral l qs es).
Hypothesis HArrayExpression :
  forall l es, Forall P es -> P (ArrayExpression l es).
Hypothesis HObjectExpression :
  forall l ps, Forall PropP ps -> P (ObjectExpression l ps).
Hypothesis HFunctionExpression :
  forall l i ps b g, OptP i -> Forall P ps -> P b ->
    P (FunctionExpression l i ps b g).
Hypothesis HArrowFunctionExpression :
  forall l ps b, Forall P ps -> P b -> P (ArrowFunctionExpression l ps b).
Hypothesis HMemberExpression :
  forall l o p c, P o -> P p -> P (MemberExpression l o p c).
Hypothesis HCallExpression :
  forall l c args, P c -> Forall P args -> P (CallExpression l c args).
Hypothesis HAssignmentExpression :
  forall l op a b, P a -> P b -> P (AssignmentExpression l op a b).
Hypothesis HBinaryExpression :
  forall l op a b, P a -> P b -> P (BinaryExpression l op a b).

Fixpoint Node_nested_ind (n : Node) : P n :=
  let many :=
    fix many (ns : list Node) : Forall P ns :=
      match ns with
      | [] => @List.Forall_nil _ P
      | x :: r => @List.Forall_cons _ P x r (Node_nested_ind x) (many r)
      end in
  let opt := fun (o : option Node) =>
    match o return OptP o with
    | Some x => Node_nested_ind x
    | None => I
    end in
  let members :=
    fix members (ps : list (Property Node)) : Forall PropP ps :=
      match ps with
      | [] => @List.Forall_nil _ PropP
      | p :: r =>
          @List.Forall_cons _ PropP p r
            (match p return PropP p with
             | mkProperty _ k v =>
                 conj (Node_nested_ind k) (Node_nested_ind v)
             end)
            (members r)
      end in
  match n with
  | Program l b => HProgram l b (many b)
  | ExpressionStatement l e => HExpressionStatement l e (Node_nested_ind e)
  | BlockStatement l b => HBlockStatement l b (many b)
  | ReturnStatement l a => HReturnStatement l a (opt a)
  | VariableDeclaration l k ds => HVariableDeclaration l k ds (many ds)
  | VariableDeclarator l i o =>
      HVariableDeclarator l i o (Node_nested_ind i) (opt o)
  | FunctionDeclaration l i ps b g =>
      HFunctionDeclaration l i ps b g (Node_nested_ind i) (many ps)
        (Node_nested_ind b)
  | ClassDeclaration l i s b =>
      HClassDeclaration l i s b (Node_nested_ind i) (opt s)
        (Node_nested_ind b)
  | ClassBody l b => HClassBody l b (many b)
  | MethodDefinition l k ke v =>
      HMethodDefinition l k ke v (Node_nested_ind ke) (Node_nested_ind v)
  | ImportDeclaration l ss s =>
      HImportDeclaration l ss s (many ss) (Node_nested_ind s)
  | ImportSpecifier l i lo =>
      HImportSpecifier l i lo (Node_nested_ind i) (Node_nested_ind lo)
  | ImportNamespaceSpecifier l lo =>
      HImportNamespaceSpecifier l lo (Node_nested_ind lo)
  | ExportNamedDeclaration l d ss s =>
      HExportNamedDeclaration l d ss s (opt d) (many ss) (opt s)
  | ExportSpecifier l lo e =>
      HExportSpecifier l lo e (Node_nested_ind lo) (Node_nested_ind e)
  | ExportDefaultDeclaration l d =>
      HExportDefaultDeclaration l d (Node_nested_ind d)
  | ExportDeclaration l df d =>
      HExportDeclaration l df d (Node_nested_ind d)
  | ThisExpression l => HThisExpression l
  | Identifier l s => HIdentifier l s
  | Literal l v => HLiteral l v
  | TemplateLiteral l qs es => HTemplateLiteral l qs es (many es)
  | ArrayExpression l es => HArrayExpression l es (many es)
  | ObjectExpression l ps => HObjectExpression l ps (members ps)
  | FunctionExpression l i ps b g =>
      HFunctionExpression l i ps b g (opt i) (many ps) (Node_nested_ind b)
  | ArrowFunctionExpression l ps b =>
      HArrowFunctionExpression l ps b (many ps) (Node_nested_ind b)
  | MemberExpression l o p c =>
      HMemberExpression l o p c (Node_nested_ind o) (Node_nested_ind p)
  | CallExpression l c args =>
      HCallExpression l c args (Node_nested_ind c) (many args)
  | AssignmentExpression l op a b =>
      HAssignmentExpression l op a b (Node_nested_ind a) (Node_nested_ind b)
  | BinaryExpression l op a b =>
      HBinaryExpression l op a b (Node_nested_ind a) (Node_nested_ind b)
  end.
End NodeInduction.

(** ** JavaScript strings

    A string is its sequence of code units; the model keeps the code units
    below 256, one [ascii] each. *)

Definition chr (n : nat) : ascii := ascii_of_nat n.

Definition LF : ascii := chr 10.
Definition newline : string := String LF "".

(** [Array.prototype.join] *)
Definition join (sep : string) (parts : list string) : string :=
  String.concat sep parts.

(** [s.split(c)] for a one-character separator: never the empty array. *)
Fixpoint split (c : ascii) (s : string) : list string :=
  match s with
  | EmptyString => [""]
  | String a rest =>
      if Ascii.eqb a c then "" :: split c rest
      else match split c rest with
           | first :: others => String a first :: others
           | [] => [String a ""]
           end
  end.

(** [s.replace(/c/g, by)] for a one-character pattern [c] and a replacement
    [by] without replacement patterns. *)
Fixpoint replace_all (c : ascii) (by_ : string) (s : string) : string :=
  match s with
  | EmptyString => ""
  | String a rest =>
      if Ascii.eqb a c then by_ +:+ replace_all c by_ rest
      else String a (replace_all c by_ rest)
  end.

(** The class [\s] of a JavaScript regular expression, on code units below
    256: tab, line feed, vertical tab, form feed, carriage return, space and
    no-break space. *)
Definition is_regexp_space (a : ascii) : bool :=
  let n := nat_of_ascii a in
  ((9 <=? n) && (n <=? 13) || (n =? 32) || (n =? 160))%nat.

(** [/^\s*$/.test(s)] *)
Fixpoint is_blank (s : string) : bool :=
  match s with
  | EmptyString => true
  | String a rest => is_regexp_space a && is_blank rest
  end.

(** [/^\s*$/.test(lines[i])]: an index out of range reads [undefined], which
    the test turns into the text "undefined", not blank. *)
Definition test_blank (line : option string) : bool :=
  match line with
  | Some s => is_blank s
  | None => is_blank "undefined"
  end.

(** [s.lastIndexOf(c)], -1 when [c] does not occur. *)
Fixpoint lastIndexOf_from (c : ascii) (s : string) (i : Z) (found : Z) : Z :=
  match s with
  | EmptyString => found
  | String a rest =>
      lastIndexOf_from c rest (i + 1) (if Ascii.eqb a c then i else found)
  end.

Definition lastIndexOf (c : ascii) (s : string) : Z :=
  lastIndexOf_from c s 0 (-1).

(** [s.substring(0, e)]: a negative end counts as 0, a large one as the
    length. *)
Definition substring_to (e : Z) (s : string) : string :=
  String.substring 0 (Z.to_nat e) s.

Definition is_lower (a : ascii) : bool :=
  let n := nat_of_ascii a in ((97 <=? n) && (n <=? 122))%nat.

(** [c.toUpperCase()] on a lower-case letter. *)
Definition toUpperCase (a : ascii) : ascii :=
  if is_lower a then chr (nat_of_ascii a - 32) else a.

(** Node's [path.basename] (POSIX): trailing slashes are ignored, the result
    is what follows the last remaining slash. *)
Definition is_slash (a : ascii) : bool := Ascii.eqb a "/"%char.

Fixpoint drop_while {A} (f : A -> bool) (l : list A) : list A :=
  match l with
  | [] => []
  | x :: r => if f x then drop_while f r else l
  end.

Fixpoint take_while {A} (f : A -> bool) (l : list A) : list A :=
  match l with
  | [] => []
  | x :: r => if f x then x :: take_while f r else []
  end.

Definition basename (p : string) : string :=
  let backwards := rev (list_ascii_of_string p) in
  let trimmed := drop_while is_slash backwards in
  string_of_list_ascii
    (rev (take_while (fun a => negb (is_slash a)) trimmed)).

(** ** The result of code that may throw *)

Inductive Error :=
| TypeError (what : string)
| JsError (message : string).

Inductive result (A : Type) :=
| Ok (a : A)
| Throw (e : Error).
Arguments Ok {A} _.
Arguments Throw {A} _.

(** What the converter writes to the console. *)
Inductive ConsoleEntry :=
| ConsoleLog (message : string)
| ConsoleWarn (message : string) (details : list Node).

(** ** jscodeshift builders: new nodes, without a location *)

Module jsc.
Definition program (body : list Node) : Node := Program None body.
Definition identifier (name : string) : Node := Identifier None name.
Definition literal (v : LiteralValue) : Node := Literal None v.
Definition importSpecifier (imported local : Node) : Node :=
  ImportSpecifier None imported local.
Definition importNamespaceSpecifier (local : Node) : Node :=
  ImportNamespaceSpecifier None local.
Definition importDeclaration (specifiers : list Node) (source : Node)
  : Node := ImportDeclaration None specifiers source.
Definition exportNamedDeclaration (declaration : option Node)
  (specifiers : list Node) : Node :=
  ExportNamedDeclaration None declaration specifiers None.
Definition exportSpecifier (local exported : Node) : Node :=
  ExportSpecifier None local exported.
Definition exportDeclaration (default : bool) (declaration : Node)
  : Node := ExportDeclaration None default declaration.
Definition variableDeclaration (kind : string) (declarations : list Node)
  : Node := VariableDeclaration None kind declarations.
Definition variableDeclarator (id : Node) (init : Node) : Node :=
  VariableDeclarator None id (Some init).
Definition functionDeclaration (id : Node) (params : list Node)
  (body : Node) (generator : bool) : Node :=
  FunctionDeclaration None id params body generator.
Definition templateElement (cooked raw : string) (tail : bool)
  : TemplateElement :=
{| element_loc := None; cooked := cooked; raw := raw; tail := tail |}.
Definition templateLiteral (quasis : list TemplateElement)
  (expressions : list Node) : Node :=
  TemplateLiteral None quasis expressions.
End jsc.

(** ** Free functions of the file *)

(** Get the import alias for an imported member. *)
Definition getImportAlias (importId : string) : string := "$" +:+ importId.

Fixpoint dashToCamelCase (s : string) : string :=
  match s with
  | EmptyString => ""
  | String a rest =>
      match rest with
      | String b rest' =>
          if Ascii.eqb a "-"%char && is_lower b
          then String (toUpperCase b) (dashToCamelCase rest')
          else String a (dashToCamelCase rest)
      | EmptyString => String a ""
      end
  end.

(** Get the import name for an imported module object. *)
Definition getModuleId (url : string) : string :=
  let baseName := basename url in
  let lastDotIndex := lastIndexOf "."%char baseName in
  let mainName := substring_to lastDotIndex baseName in
  "$$" +:+ dashToCamelCase mainName.

(** A [Set<string>], in insertion order. *)
Definition StringSet := list string.

Definition set_has (s : StringSet) (x : string) : bool :=
  bool_decide (x ∈ s).

Definition set_add (s : StringSet) (x : string) : StringSet :=
  if set_has s x then s else (s ++ [x])%list.

(** Convert a module specifier and an optional set of named exports (or '*'
    to import the entire namespace) to a list of import declarations. *)
Definition getImportDeclarations (specifierUrl : string)
    (namedExports : option StringSet) : list Node :=
  let namedExportsArray := default [] namedExports in
  let hasNamespaceReference :=
    existsb (fun s => String.eqb s "*") namedExportsArray in
  let namedSpecifiers :=
    map (fun s =>
           jsc.importSpecifier (jsc.identifier s)
             (jsc.identifier (getImportAlias s)))
      (List.filter (fun s => negb (String.eqb s "*")) namedExportsArray) in
  let namespaceImport :=
    if hasNamespaceReference
    then [jsc.importDeclaration
            [jsc.importNamespaceSpecifier
               (jsc.identifier (getModuleId specifierUrl))]
            (jsc.literal (LString specifierUrl))]
    else [] in
  let namedImport :=
    if (0 <? Z.of_nat (length namedSpecifiers)) || negb hasNamespaceReference
    then [jsc.importDeclaration namedSpecifiers
            (jsc.literal (LString specifierUrl))]
    else [] in
  (namespaceImport ++ namedImport)%list.

(** Returns the dotted path of an expression that is a chain of property
    accesses, as used in namespace-style exports. *)
Fixpoint getMemberPath (expression : Node) : option (list string) :=
  match expression with
  | MemberExpression _ object (Identifier _ property) _ =>
      match object with
      | ThisExpression _ => Some ["this"; property]
      | Identifier _ name =>
          if String.eqb name "window" then Some [property]
          else Some [name; property]
      | MemberExpression _ _ _ _ =>
          match getMemberPath object with
          | Some prefixPath => Some (prefixPath ++ [property])%list
          | None => None
          end
      | _ => None
      end
  | _ => None
  end.

Record Export := {
  namespace : list string;
  exported_value : Node
}.

(** If a statement appears to be an export, returns the exported
    declaration: an assignment to a dotted path rooted in [namespaces]. *)
Definition getExport (statement : Node) (namespaces : gset string)
    : option Export :=
  match statement with
  | ExpressionStatement _ (AssignmentExpression _ _ left_ right_) =>
      match left_ with
      | MemberExpression _ _ _ _ =>
          match getMemberPath left_ with
          | Some path =>
              match head path with
              | Some root =>
                  if bool_decide (root ∈ namespaces)
                  then Some {| namespace := path; exported_value := right_ |}
                  else None
              | None => None
              end
          | None => None
          end
      | _ => None
      end
  | _ => None
  end.

(** Returns true if a statement is the literal "use strict". *)
Definition isUseStrict (statement : Node) : bool :=
  match statement with
  | ExpressionStatement _ (Literal _ (LString s)) => String.eqb s "use strict"
  | _ => false
  end.

(** Returns true if a node is a class declaration. *)
Definition isDeclaration (node : Node) : bool :=
  String.eqb (type node) "ClassDeclaration".

Definition locationsEqual (a b : SourceLocation) : bool :=
  (start_column a =? start_column b) && (start_line a =? start_line b) &&
  (end_column a =? end_column b) && (end_line a =? end_line b).

(** [sourceLocationsEqual(a, b)], for a node [a] of the program and a node
    [b] reported by the analyzer. The analyzer parses the script on its own,
    so [a === b] never holds and is left out; the locations decide. [loc]
    is [null] or a location, as the parser and the builders leave it: a
    node from which the property [loc] is missing is not a value of
    [Node]. *)
Definition sameLocation (aLoc bLoc : Loc) : bool :=
  match aLoc, bLoc with
  | None, None => true
  | Some aLoc, Some bLoc => locationsEqual aLoc bLoc
  | _, _ => false
  end.

Definition sourceLocationsEqual (a b : Node) : bool :=
  sameLocation (loc_of a) (loc_of b).

Record NamespaceExport := {
  export_name : string;
  export_node : Node
}.

(** One turn of the loop of [getNamespaceExports]: the export pushed for a
    member, or the warning written instead. *)
Definition namespaceMemberExport (p : Property Node)
    (mutableExports : option (list string))
    : ConsoleEntry + NamespaceExport :=
  match key p with
  | Identifier _ name =>
      match value p with
      | ObjectExpression _ _ | ArrayExpression _ _ | Literal _ _ =>
          let isMutable :=
            match mutableExports with
            | Some names => bool_decide (name ∈ names)
            | None => false
            end in
          inr {| export_name := name;
                 export_node :=
                   jsc.exportNamedDeclaration
                     (Some (jsc.variableDeclaration
                              (if isMutable then "let" else "const")
                              [jsc.variableDeclarator (key p) (value p)]))
                     [] |}
      | FunctionExpression _ _ params body generator =>
          inr {| export_name := name;
                 export_node :=
                   jsc.exportNamedDeclaration
                     (Some (jsc.functionDeclaration (key p) params body
                              generator))
                     [] |}
      | ArrowFunctionExpression _ _ _ =>
          inr {| export_name := name;
                 export_node :=
                   jsc.exportNamedDeclaration
                     (Some (jsc.variableDeclaration "const"
                              [jsc.variableDeclarator (key p) (value p)]))
                     [] |}
      | Identifier _ _ =>
          inr {| export_name := name;
                 export_node :=
                   jsc.exportNamedDeclaration None
                     [jsc.exportSpecifier (jsc.identifier name)
                        (jsc.identifier name)] |}
      | _ =>
          inl (ConsoleWarn "Namespace property not handled:"
                 [key p; value p])
      end
  | _ =>
      inl (ConsoleWarn
             ("unsupported namespace property type " +:+ type (key p)) [])
  end.

Fixpoint rights {A B} (l : list (A + B)) : list B :=
  match l with
  | [] => []
  | inr b :: r => b :: rights r
  | inl _ :: r => rights r
  end.

Fixpoint lefts {A B} (l : list (A + B)) : list A :=
  match l with
  | [] => []
  | inl a :: r => a :: lefts r
  | inr _ :: r => lefts r
  end.

(** Returns export declarations for each of a namespace object's members,
    with the warnings written on the way. Reading [properties] of a node
    that has none is a [TypeError]. *)
Definition getNamespaceExports (namespace : Node)
    (mutableExports : option (list string))
    : result (list NamespaceExport * list ConsoleEntry) :=
  match namespace with
  | ObjectExpression _ properties =>
      let turns :=
        map (fun p => namespaceMemberExport p mutableExports) properties in
      Ok (rights turns, lefts turns)
  | _ => Throw (TypeError "namespace.properties is not iterable")
  end.

(** ** Markup literals *)

(** [while (/^\s*$/.test(lines[0])) lines.shift()]; on the empty array the
    test reads [undefined] and fails, see [test_blank]. *)
Fixpoint shift_blank_lines (lines : list string) : list string :=
  match lines with
  | [] => []
  | line :: rest =>
      if test_blank (Some line) then shift_blank_lines rest else lines
  end.

(** [while (/^\s*$/.test(lines[lines.length - 1])) lines.pop()] *)
Definition pop_blank_lines (lines : list string) : list string :=
  rev (shift_blank_lines (rev lines)).

Definition backslash : ascii := chr 92.
Definition backtick : ascii := chr 96.
Definition dollar : ascii := chr 36.

(** [cooked.replace(/\\/g, '\\\\').replace(/`/g, '\\`').replace(/\$/g, '\\$')] *)
Definition rawOfCooked (cooked : string) : string :=
  replace_all dollar (String backslash (String dollar ""))
    (replace_all backtick (String backslash (String backtick ""))
       (replace_all backslash (String backslash (String backslash ""))
          cooked)).

Section Markup.
(** parse5's trees and its serializer are taken as given. *)
Variable ASTNode : Type.
Variable parse5_serialize : ASTNode -> string.

Definition cookedOfNode (node : ASTNode) (addNewlines : bool) : string :=
  let lines := split LF (parse5_serialize node) in
  let lines := shift_blank_lines lines in
  let lines := pop_blank_lines lines in
  let cooked := join newline lines in
  if addNewlines then newline +:+ cooked +:+ newline else cooked.

Definition nodeToTemplateLiteral (node : ASTNode) (addNewlines : bool)
    : Node :=
  let cooked := cookedOfNode node addNewlines in
  let raw := rawOfCooked cooked in
  jsc.templateLiteral [jsc.templateElement cooked raw true] [].
End Markup.

(** ** ast-types traversal

    A visitor without a method for a node's type visits the node's children,
    field by field. *)

Definition opt_list {A} (o : option A) : list A :=
  match o with Some a => [a] | None => [] end.

(** The child nodes, in the order the traversal reaches them. *)
Definition children (n : Node) : list Node :=
  (match n with
   | Program _ b | BlockStatement _ b | ClassBody _ b => b
   | ExpressionStatement _ e => [e]
   | ReturnStatement _ a => opt_list a
   | VariableDeclaration _ _ ds => ds
   | VariableDeclarator _ i o => i :: opt_list o
   | FunctionDeclaration _ i ps b _ => i :: ps ++ [b]
   | ClassDeclaration _ i s b => i :: b :: opt_list s
   | MethodDefinition _ _ k v => [k; v]
   | ImportDeclaration _ ss s => ss ++ [s]
   | ImportSpecifier _ i lo => [i; lo]
   | ImportNamespaceSpecifier _ lo => [lo]
   | ExportNamedDeclaration _ d ss s => opt_list d ++ ss ++ opt_list s
   | ExportSpecifier _ lo e => [lo; e]
   | ExportDefaultDeclaration _ d | ExportDeclaration _ _ d => [d]
   | ThisExpression _ | Identifier _ _ | Literal _ _ => []
   | TemplateLiteral _ _ es | ArrayExpression _ es => es
   | ObjectExpression _ ps => flat_map (fun p => [key p; value p]) ps
   | FunctionExpression _ i ps b _ => opt_list i ++ ps ++ [b]
   | ArrowFunctionExpression _ ps b => ps ++ [b]
   | MemberExpression _ o p _ => [o; p]
   | CallExpression _ c args => c :: args
   | AssignmentExpression _ _ a b | BinaryExpression _ _ a b => [a; b]
   end)%list.

(** [this.traverse(path)] of a visitor that rewrites: each child is replaced
    by what the visitor makes of it. *)
Definition mapChildren (f : Node -> Node) (n : Node) : Node :=
  match n with
  | Program l b => Program l (map f b)
  | ExpressionStatement l e => ExpressionStatement l (f e)
  | BlockStatement l b => BlockStatement l (map f b)
  | ReturnStatement l a => ReturnStatement l (option_map f a)
  | VariableDeclaration l k ds => VariableDeclaration l k (map f ds)
  | VariableDeclarator l i o => VariableDeclarator l (f i) (option_map f o)
  | FunctionDeclaration l i ps b g =>
      FunctionDeclaration l (f i) (map f ps) (f b) g
  | ClassDeclaration l i s b =>
      ClassDeclaration l (f i) (option_map f s) (f b)
  | ClassBody l b => ClassBody l (map f b)
  | MethodDefinition l k ke v => MethodDefinition l k (f ke) (f v)
  | ImportDeclaration l ss s => ImportDeclaration l (map f ss) (f s)
  | ImportSpecifier l i lo => ImportSpecifier l (f i) (f lo)
  | ImportNamespaceSpecifier l lo => ImportNamespaceSpecifier l (f lo)
  | ExportNamedDeclaration l d ss s =>
      ExportNamedDeclaration l (option_map f d) (map f ss) (option_map f s)
  | ExportSpecifier l lo e => ExportSpecifier l (f lo) (f e)
  | ExportDefaultDeclaration l d => ExportDefaultDeclaration l (f d)
  | ExportDeclaration l df d => ExportDeclaration l df (f d)
  | ThisExpression _ | Identifier _ _ | Literal _ _ => n
  | TemplateLiteral l qs es => TemplateLiteral l qs (map f es)
  | ArrayExpression l es => ArrayExpression l (map f es)
  | ObjectExpression l ps =>
      ObjectExpression l
        (map (fun p => mkProperty (prop_loc p) (f (key p)) (f (value p))) ps)
  | FunctionExpression l i ps b g =>
      FunctionExpression l (option_map f i) (map f ps) (f b) g
  | ArrowFunctionExpression l ps b =>
      ArrowFunctionExpression l (map f ps) (f b)
  | MemberExpression l o p c => MemberExpression l (f o) (f p) c
  | CallExpression l c args => CallExpression l (f c) (map f args)
  | AssignmentExpression l op a b => AssignmentExpression l op (f a) (f b)
  | BinaryExpression l op a b => BinaryExpression l op (f a) (f b)
  end.

(** [this.traverse(path)] of a visitor that collects: the children are
    visited in order, threading what has been found. *)
Definition foldChildren {A} (f : A -> Node -> A) (a : A) (n : Node) : A :=
  let opt := fun a o => match o with Some x => f a x | None => a end in
  match n with
  | Program _ b | BlockStatement _ b | ClassBody _ b => fold_left f b a
  | ExpressionStatement _ e => f a e
  | ReturnStatement _ o => opt a o
  | VariableDeclaration _ _ ds => fold_left f ds a
  | VariableDeclarator _ i o => opt (f a i) o
  | FunctionDeclaration _ i ps b _ => f (fold_left f ps (f a i)) b
  | ClassDeclaration _ i s b => opt (f (f a i) b) s
  | MethodDefinition _ _ k v => f (f a k) v
  | ImportDeclaration _ ss s => f (fold_left f ss a) s
  | ImportSpecifier _ i lo => f (f a i) lo
  | ImportNamespaceSpecifier _ lo => f a lo
  | ExportNamedDeclaration _ d ss s => opt (fold_left f ss (opt a d)) s
  | ExportSpecifier _ lo e => f (f a lo) e
  | ExportDefaultDeclaration _ d | ExportDeclaration _ _ d => f a d
  | ThisExpression _ | Identifier _ _ | Literal _ _ => a
  | TemplateLiteral _ _ es | ArrayExpression _ es => fold_left f es a
  | ObjectExpression _ ps =>
      fold_left (fun a p => f (f a (key p)) (value p)) ps a
  | FunctionExpression _ i ps b _ => f (fold_left f ps (opt a i)) b
  | ArrowFunctionExpression _ ps b => f (fold_left f ps a) b
  | MemberExpression _ o p _ => f (f a o) p
  | CallExpression _ c args => fold_left f args (f a c)
  | AssignmentExpression _ _ x y | BinaryExpression _ _ x y => f (f a x) y
  end.

(** Rewrite [this] references to the explicit [namespaceReference]
    identifier within a single block. The visitor has methods for
    [FunctionExpression] and [FunctionDeclaration], which stop the traversal,
    and for [ThisExpression], which replaces the node; every other type,
    [ArrowFunctionExpression] included, is traversed. *)
Fixpoint rewriteSingleScopeThisReferences (namespaceReference : string)
    (node : Node) : Node :=
  match node with
  | FunctionExpression _ _ _ _ _ => node
  | FunctionDeclaration _ _ _ _ _ => node
  | ThisExpression _ => jsc.identifier namespaceReference
  | _ => mapChildren (rewriteSingleScopeThisReferences namespaceReference) node
  end.

(** The visitor of [rewriteNamespaceThisReferences]: an export declaration
    of a function declaration has the function's body rewritten; an export
    declaration is never traversed further. *)
Fixpoint visitExportDeclarations (namespaceName : string) (node : Node)
    : Node :=
  match node with
  | ExportNamedDeclaration l (Some (FunctionDeclaration fl i ps b g)) ss s =>
      ExportNamedDeclaration l
        (Some (FunctionDeclaration fl i ps
                 (rewriteSingleScopeThisReferences namespaceName b) g))
        ss s
  | ExportNamedDeclaration _ _ _ _ => node
  | ExportDefaultDeclaration l (FunctionDeclaration fl i ps b g) =>
      ExportDefaultDeclaration l
        (FunctionDeclaration fl i ps
           (rewriteSingleScopeThisReferences namespaceName b) g)
  | ExportDefaultDeclaration _ _ => node
  | _ => mapChildren (visitExportDeclarations namespaceName) node
  end.

(** What [getNode] finds: a node, or one of the nodes that are kept as
    records. *)
Inductive Located :=
| LocatedNode (node : Node)
| LocatedProperty (p : Property Node)
| LocatedElement (q : TemplateElement).

(** The visitor of [getNode]: a node at the wanted location is recorded and
    not traversed; the last one recorded is the answer. *)
Fixpoint visitNode (wanted : Node) (associatedNode : option Located)
    (node : Node) : option Located :=
  if sourceLocationsEqual node wanted then Some (LocatedNode node)
  else
    match node with
    | ObjectExpression _ properties =>
        fold_left
          (fun found p =>
             if sameLocation (prop_loc p) (loc_of wanted)
             then Some (LocatedProperty p)
             else visitNode wanted (visitNode wanted found (key p)) (value p))
          properties associatedNode
    | TemplateLiteral _ quasis expressions =>
        fold_left (visitNode wanted) expressions
          (fold_left
             (fun found q =>
                if sameLocation (element_loc q) (loc_of wanted)
                then Some (LocatedElement q)
                else found)
             quasis associatedNode)
    | _ => foldChildren (visitNode wanted) associatedNode node
    end.

(** ** Arrays of statements *)

Definition list_eqb {A} (eqb : A -> A -> bool) : list A -> list A -> bool :=
  fix go (l1 l2 : list A) : bool :=
    match l1, l2 with
    | [], [] => true
    | x :: r1, y :: r2 => eqb x y && go r1 r2
    | _, _ => false
    end.

Definition option_eqb {A} (eqb : A -> A -> bool) (o1 o2 : option A) : bool :=
  match o1, o2 with
  | None, None => true
  | Some x, Some y => eqb x y
  | _, _ => false
  end.

Definition SourceLocation_eqb (a b : SourceLocation) : bool :=
  (start_line a =? start_line b) && (start_column a =? start_column b) &&
  (end_line a =? end_line b) && (end_column a =? end_column b).

Definition Loc_eqb : Loc -> Loc -> bool := option_eqb SourceLocation_eqb.

Definition LiteralValue_eqb (a b : LiteralValue) : bool :=
  match a, b with
  | LString s, LString t => String.eqb s t
  | LNumber n, LNumber m => n =? m
  | LBoolean x, LBoolean y => Bool.eqb x y
  | LNull, LNull => true
  | _, _ => false
  end.

Definition TemplateElement_eqb (a b : TemplateElement) : bool :=
  Loc_eqb (element_loc a) (element_loc b) &&
  String.eqb (cooked a) (cooked b) && String.eqb (raw a) (raw b) &&
  Bool.eqb (tail a) (tail b).

(** Two nodes of one parsed program are different objects exactly when they
    differ as trees (their locations differ), so the comparison of trees
    stands for [===] on the statements of a program. *)
Fixpoint Node_eqb (a b : Node) : bool :=
  let nodes := list_eqb Node_eqb in
  let opt := option_eqb Node_eqb in
  match a, b with
  | Program l x, Program l' x' => Loc_eqb l l' && nodes x x'
  | ExpressionStatement l e, ExpressionStatement l' e' =>
      Loc_eqb l l' && Node_eqb e e'
  | BlockStatement l x, BlockStatement l' x' => Loc_eqb l l' && nodes x x'
  | ReturnStatement l o, ReturnStatement l' o' => Loc_eqb l l' && opt o o'
  | VariableDeclaration l k ds, VariableDeclaration l' k' ds' =>
      Loc_eqb l l' && String.eqb k k' && nodes ds ds'
  | VariableDeclarator l i o, VariableDeclarator l' i' o' =>
      Loc_eqb l l' && Node_eqb i i' && opt o o'
  | FunctionDeclaration l i ps x g, FunctionDeclaration l' i' ps' x' g' =>
      Loc_eqb l l' && Node_eqb i i' && nodes ps ps' && Node_eqb x x' &&
      Bool.eqb g g'
  | ClassDeclaration l i s x, ClassDeclaration l' i' s' x' =>
      Loc_eqb l l' && Node_eqb i i' && opt s s' && Node_eqb x x'
  | ClassBody l x, ClassBody l' x' => Loc_eqb l l' && nodes x x'
  | MethodDefinition l k ke v, MethodDefinition l' k' ke' v' =>
      Loc_eqb l l' && String.eqb k k' && Node_eqb ke ke' && Node_eqb v v'
  | ImportDeclaration l ss s, ImportDeclaration l' ss' s' =>
      Loc_eqb l l' && nodes ss ss' && Node_eqb s s'
  | ImportSpecifier l i lo, ImportSpecifier l' i' lo' =>
      Loc_eqb l l' && Node_eqb i i' && Node_eqb lo lo'
  | ImportNamespaceSpecifier l lo, ImportNamespaceSpecifier l' lo' =>
      Loc_eqb l l' && Node_eqb lo lo'
  | ExportNamedDeclaration l d ss s, ExportNamedDeclaration l' d' ss' s' =>
      Loc_eqb l l' && opt d d' && nodes ss ss' && opt s s'
  | ExportSpecifier l lo e, ExportSpecifier l' lo' e' =>
      Loc_eqb l l' && Node_eqb lo lo' && Node_eqb e e'
  | ExportDefaultDeclaration l d, ExportDefaultDeclaration l' d' =>
      Loc_eqb l l' && Node_eqb d d'
  | ExportDeclaration l df d, ExportDeclaration l' df' d' =>
      Loc_eqb l l' && Bool.eqb df df' && Node_eqb d d'
  | ThisExpression l, ThisExpression l' => Loc_eqb l l'
  | Identifier l s, Identifier l' s' => Loc_eqb l l' && String.eqb s s'
  | Literal l v, Literal l' v' => Loc_eqb l l' && LiteralValue_eqb v v'
  | TemplateLiteral l qs es, TemplateLiteral l' qs' es' =>
      Loc_eqb l l' && list_eqb TemplateElement_eqb qs qs' && nodes es es'
  | ArrayExpression l es, ArrayExpression l' es' =>
      Loc_eqb l l' && nodes es es'
  | ObjectExpression l ps, ObjectExpression l' ps' =>
      Loc_eqb l l' &&
      list_eqb
        (fun p q =>
           Loc_eqb (prop_loc p) (prop_loc q) && Node_eqb (key p) (key q) &&
           Node_eqb (value p) (value q))
        ps ps'
  | FunctionExpression l i ps x g, FunctionExpression l' i' ps' x' g' =>
      Loc_eqb l l' && opt i i' && nodes ps ps' && Node_eqb x x' &&
      Bool.eqb g g'
  | ArrowFunctionExpression l ps x, ArrowFunctionExpression l' ps' x' =>
      Loc_eqb l l' && nodes ps ps' && Node_eqb x x'
  | MemberExpression l o p c, MemberExpression l' o' p' c' =>
      Loc_eqb l l' && Node_eqb o o' && Node_eqb p p' && Bool.eqb c c'
  | CallExpression l c args, CallExpression l' c' args' =>
      Loc_eqb l l' && Node_eqb c c' && nodes args args'
  | AssignmentExpression l op x y, AssignmentExpression l' op' x' y' =>
      Loc_eqb l l' && String.eqb op op' && Node_eqb x x' && Node_eqb y y'
  | BinaryExpression l op x y, BinaryExpression l' op' x' y' =>
      Loc_eqb l l' && String.eqb op op' && Node_eqb x x' && Node_eqb y y'
  | _, _ => false
  end.

(** [array.indexOf(statement)], -1 when absent. *)
Fixpoint indexOf_from (body : list Node) (statement : Node) (i : Z) : Z :=
  match body with
  | [] => -1
  | s :: rest =>
      if Node_eqb s statement then i else indexOf_from rest statement (i + 1)
  end.

Definition indexOf (body : list Node) (statement : Node) : Z :=
  indexOf_from body statement 0.

(** [array[i]]: [undefined] outside the array. *)
Definition at_index {A} (l : list A) (i : Z) : option A :=
  if i <? 0 then None else l !! Z.to_nat i.

(** [array[i] = x] for an index inside the array. *)
Definition set_index {A} (l : list A) (i : Z) (x : A) : list A :=
  <[Z.to_nat i := x]> l.

(** [array.splice(start, deleteCount, ...items)]: a negative start counts
    from the end; the range is clipped to the array. *)
Definition splice {A} (l : list A) (start deleteCount : Z) (items : list A)
    : list A :=
  let len := Z.of_nat (length l) in
  let actualStart :=
    if start <? 0 then Z.max (len + start) 0 else Z.min start len in
  let actualDeleteCount :=
    Z.min (Z.max deleteCount 0) (len - actualStart) in
  (take (Z.to_nat actualStart) l ++ items ++
   drop (Z.to_nat (actualStart + actualDeleteCount)) l)%list.

(** ** What the analyzer provides *)

Record Feature := {
  identifiers : list string;
  kinds : list string;
  astNode : Node
}.

Record ScriptDocument := {
  contents : string;
  script_features : list Feature
}.

Record Import (D : Type) := mkImport {
  import_url : string;
  import_document : D
}.
Arguments mkImport {D} _ _.
Arguments import_url {D} _.
Arguments import_document {D} _.

Inductive Document := mkDocument {
  doc_url : string;
  scripts : list ScriptDocument;
  htmlImports : list (Import Document);
  features : list Feature
}.

(** [document.getFeatures({id})]: the features known by that identifier. *)
Definition getFeaturesById (fs : list Feature) (id : string) : list Feature :=
  List.filter (fun f => bool_decide (id ∈ identifiers f)) fs.

(** [document.getFeatures({kind})] *)
Definition getFeaturesByKind (fs : list Feature) (kind : string)
    : list Feature :=
  List.filter (fun f => bool_decide (kind ∈ kinds f)) fs.

(** ** Module records and the registries *)

Record JsExport := {
  export_url : string;
  exported_as : string
}.

Record JsModule := {
  url : string;
  source : string;
  exports : StringSet;
  importedReferences : list (string * StringSet)
}.

(** A module record is an object shared by the registry and the converter
    that made it: the registry and the converter hold a reference into
    [moduleObjects]. *)
Abbreviation ModuleRef := nat (only parsing).

Record AnalysisConverter := {
  modules : gmap string ModuleRef;
  namespacedExports : gmap string JsExport;
  namespaces : gset string;
  _excludes : gset string;
  _referenceExcludes : gset string;
  _mutableExports : gmap string (list string)
}.

Record World := {
  analysisConverter : AnalysisConverter;
  moduleObjects : list JsModule;
  console : list ConsoleEntry
}.

Record DocumentConverter := {
  jsUrl : string;
  module : ModuleRef;
  document : Document;
  scriptDocument : option ScriptDocument;
  program : option Node;
  currentStatementIndex : Z;
  this_mutableExports : gmap string (list string)
}.

Record State := {
  this : DocumentConverter;
  world : World
}.

(** A [Map<string, Set<string>>], in insertion order. *)
Fixpoint map_get {V} (m : list (string * V)) (k : string) : option V :=
  match m with
  | [] => None
  | (k', v) :: rest => if String.eqb k' k then Some v else map_get rest k
  end.

Definition map_keys {V} (m : list (string * V)) : list string := map fst m.

(** ** Methods: state and exceptions *)

Definition M (A : Type) : Type := State -> result A * State.

Definition ret {A} (a : A) : M A := fun s => (Ok a, s).

Definition bind {A B} (m : M A) (k : A -> M B) : M B :=
  fun s =>
    match m s with
    | (Ok a, s') => k a s'
    | (Throw e, s') => (Throw e, s')
    end.

Definition throw {A} (e : Error) : M A := fun s => (Throw e, s).

Definition get : M State := fun s => (Ok s, s).

Definition modify (f : State -> State) : M unit := fun s => (Ok tt, f s).

Notation "x <- c1 ;; c2" := (bind c1 (fun x => c2))
  (at level 100, c1 at next level, right associativity).
Notation "c1 ;;; c2" := (bind c1 (fun _ => c2))
  (at level 100, right associativity).

Definition console_write (entries : list ConsoleEntry) (w : World) : World :=
  {| analysisConverter := analysisConverter w;
     moduleObjects := moduleObjects w;
     console := (console w ++ entries)%list |}.

Definition with_analysisConverter (f : AnalysisConverter -> AnalysisConverter)
    (w : World) : World :=
  {| analysisConverter := f (analysisConverter w);
     moduleObjects := moduleObjects w;
     console := console w |}.

Definition with_moduleObject (r : ModuleRef) (f : JsModule -> JsModule)
    (w : World) : World :=
  {| analysisConverter := analysisConverter w;
     moduleObjects := alter f r (moduleObjects w);
     console := console w |}.

Definition with_world (f : World -> World) (s : State) : State :=
  {| this := this s; world := f (world s) |}.

Definition set_program (p : option Node) (t : DocumentConverter)
    : DocumentConverter :=
  {| jsUrl := jsUrl t; module := module t; document := document t;
     scriptDocument := scriptDocument t; program := p;
     currentStatementIndex := currentStatementIndex t;
     this_mutableExports := this_mutableExports t |}.

Definition set_currentStatementIndex (i : Z) (t : DocumentConverter)
    : DocumentConverter :=
  {| jsUrl := jsUrl t; module := module t; document := document t;
     scriptDocument := scriptDocument t; program := program t;
     currentStatementIndex := i;
     this_mutableExports := this_mutableExports t |}.

Definition with_this (f : DocumentConverter -> DocumentConverter)
    (s : State) : State :=
  {| this := f (this s); world := world s |}.

(** [this.program.body]; reading it when [this.program] is undefined is a
    [TypeError]. *)
Definition program_body : M (list Node) :=
  fun s =>
    match program (this s) with
    | Some (Program _ body) => (Ok body, s)
    | _ => (Throw (TypeError "this.program.body"), s)
    end.

(** [this.program.body = body], and the in-place updates of that array. *)
Definition set_program_body (body : list Node) : M unit :=
  fun s =>
    match program (this s) with
    | Some (Program l _) =>
        (Ok tt, with_this (set_program (Some (Program l body))) s)
    | _ => (Throw (TypeError "this.program.body"), s)
    end.

Fixpoint forEach {A} (l : list A) (f : A -> M unit) : M unit :=
  match l with
  | [] => ret tt
  | x :: rest => f x ;;; forEach rest f
  end.

(** [new Set(array)] *)
Definition set_of_list (l : list string) : StringSet :=
  fold_left set_add l [].

(** JavaScript truthiness of an optional string. *)
Definition truthy (o : option string) : option string :=
  match o with
  | Some "" => None
  | _ => o
  end.

(** The loop-carried variables of [rewriteNamespaceExports]. *)
Record Locals := {
  localNamespaceName : option string;
  namespaceName : option string
}.

Definition newModule (jsUrl : string) : JsModule :=
  {| url := jsUrl; source := ""; exports := []; importedReferences := [] |}.

(** ** The document converter *)

Section Converter.
(** From [./url-converter], recast and [./analysis-converter]. *)
Variable htmlUrlToJs : string -> option string -> string.
Variable recast_parse : string -> Node.
Variable recast_print : Node -> string.
Variable convertDocument : Document -> World -> World.

(** Phases of [convert] whose working the properties below do not depend
    on: they are left open, as state transformers that may throw. *)
Variable rewriteNamespacedReferences : M unit.
Variable convertElements : M unit.
Variable inlineTemplates : M unit.
Variable rewriteLocalNamespacedReferences : option string -> M unit.
Variable rewriteExcludedReferences : M unit.

(** [new DocumentConverter(analysisConverter, document)] *)
Definition new_DocumentConverter (document : Document) (w : World)
    : DocumentConverter * World :=
  let jsUrl := htmlUrlToJs (doc_url document) None in
  let module := length (moduleObjects w) in
  let registered :=
    {| analysisConverter :=
         {| modules := <[jsUrl := module]> (modules (analysisConverter w));
            namespacedExports := namespacedExports (analysisConverter w);
            namespaces := namespaces (analysisConverter w);
            _excludes := _excludes (analysisConverter w);
            _referenceExcludes := _referenceExcludes (analysisConverter w);
            _mutableExports := _mutableExports (analysisConverter w) |};
       moduleObjects := (moduleObjects w ++ [newModule jsUrl])%list;
       console := console w |} in
  let made := fun scriptDocument program =>
    {| jsUrl := jsUrl; module := module; document := document;
       scriptDocument := scriptDocument; program := program;
       currentStatementIndex := 0;
       this_mutableExports := _mutableExports (analysisConverter w) |} in
  let size := Z.of_nat (length (scripts document)) in
  if size =? 0 then (made None (Some (jsc.program [])), registered)
  else if 1 <? size then
    (made None None,
     console_write [ConsoleLog "multiple scripts"] registered)
  else
    match head (scripts document) with
    | Some script =>
        (made (Some script) (Some (recast_parse (contents script))),
         registered)
    | None => (made None None, registered)
    end.

(** The HTML imports of the document, except the excluded ones. *)
Definition getHtmlImports (s : State) : list (Import Document) :=
  List.filter
    (fun f =>
       negb (bool_decide
               (import_url f ∈ _excludes (analysisConverter (world s)))))
    (htmlImports (document (this s))).

(** Adds an export to this module's metadata and to the index of
    namespaced exports. *)
Definition addExport (namespaceName name : string) : M unit :=
  modify (fun s =>
    with_world
      (fun w =>
         with_analysisConverter
           (fun ac =>
              {| modules := modules ac;
                 namespacedExports :=
                   <[namespaceName :=
                       {| export_url := jsUrl (this s);
                          exported_as := name |}]> (namespacedExports ac);
                 namespaces := namespaces ac;
                 _excludes := _excludes ac;
                 _referenceExcludes := _referenceExcludes ac;
                 _mutableExports := _mutableExports ac |})
           (with_moduleObject (module (this s))
              (fun m =>
                 {| url := url m; source := source m;
                    exports := set_add (exports m) name;
                    importedReferences := importedReferences m |})
              w))
      s).

(** One turn of the loop of [convertDependencies]. *)
Definition convertDependency (baseUrl : string) (w : World)
    (htmlImport : Import Document) : World :=
  let jsUrl := htmlUrlToJs (import_url htmlImport) (Some baseUrl) in
  if bool_decide (is_Some (modules (analysisConverter w) !! jsUrl)) then w
  else convertDocument (import_document htmlImport) w.

(** Convert dependencies first, so we know what exports they have. *)
Definition convertDependencies : M unit :=
  fun s =>
    let htmlImports := getHtmlImports s in
    (Ok tt,
     with_world
       (fun w =>
          fold_left (convertDependency (doc_url (document (this s))))
            htmlImports w)
       s).

(** The implied module body of a script: the body of a top-level
    immediately-invoked function expression. *)
Definition unwrapModuleBody : M unit :=
  program_body <- program_body ;;
  match program_body with
  | [ExpressionStatement _
       (CallExpression _ (FunctionExpression _ _ _ callee_body _) _)] =>
      match callee_body with
      | BlockStatement _ body =>
          if (1 <? Z.of_nat (length body)) &&
             match head body with
             | Some first => isUseStrict first
             | None => false
             end
          then set_program_body (drop 1 body)
          else set_program_body body
      | _ => throw (TypeError "callee.body.body.length")
      end
  | _ => ret tt
  end.

(** Injects JS imports at the top of the program. *)
Definition addJsImports : M unit :=
  s <- get ;;
  let baseUrl := doc_url (document (this s)) in
  let jsImportUrls :=
    set_of_list
      (map (fun i => htmlUrlToJs (import_url i) (Some baseUrl))
         (getHtmlImports s)) in
  match moduleObjects (world s) !! module (this s) with
  | None => throw (TypeError "this.module.importedReferences")
  | Some m =>
      let declarationsFor := fun jsImportUrl =>
        getImportDeclarations jsImportUrl
          (map_get (importedReferences m) jsImportUrl) in
      let explicit := flat_map declarationsFor jsImportUrls in
      let implicit :=
        flat_map
          (fun jsImplicitImportUrl =>
             if set_has jsImportUrls jsImplicitImportUrl then []
             else declarationsFor jsImplicitImportUrl)
          (map_keys (importedReferences m)) in
      let jsImportDeclarations := (explicit ++ implicit)%list in
      body <- program_body ;;
      set_program_body (splice body 0 0 jsImportDeclarations) ;;;
      modify (with_this (fun t =>
        set_currentStatementIndex
          (currentStatementIndex t +
           Z.of_nat (length jsImportDeclarations)) t))
  end.

(** The names that a plain object inherits from [Object.prototype]. *)
Definition objectPrototypeNames : list string :=
  ["constructor"; "__defineGetter__"; "__defineSetter__"; "hasOwnProperty";
   "__lookupGetter__"; "__lookupSetter__"; "isPrototypeOf";
   "propertyIsEnumerable"; "toString"; "valueOf"; "__proto__";
   "toLocaleString"].

(** What [this._mutableExports[name]] reads. [this._mutableExports] is the
    plain object that [Object.assign({}, ...)] made: a name that is not an
    own property of it is looked up in [Object.prototype], where the value
    is a function, or the prototype itself for [__proto__]. *)
Inductive PlainRead :=
| ReadOwn (names : list string)
| ReadInherited
| ReadUndefined.

Definition readMutableExports (own : gmap string (list string))
    (name : string) : PlainRead :=
  match own !! name with
  | Some names => ReadOwn names
  | None =>
      if bool_decide (name ∈ objectPrototypeNames) then ReadInherited
      else ReadUndefined
  end.

(** The members for which [getNamespaceExports] evaluates
    [mutableExports && mutableExports.includes(name)]. *)
Definition consultsMutableExports (p : Property Node) : bool :=
  match key p with
  | Identifier _ _ =>
      match value p with
      | ObjectExpression _ _ | ArrayExpression _ _ | Literal _ _ => true
      | _ => false
      end
  | _ => false
  end.

(** The warnings that [getNamespaceExports] writes before it comes to the
    first member for which it consults [mutableExports], if there is such a
    member. *)
Fixpoint warningsBeforeConsulting (properties : list (Property Node))
    : option (list ConsoleEntry) :=
  match properties with
  | [] => None
  | p :: rest =>
      if consultsMutableExports p then Some []
      else
        match warningsBeforeConsulting rest with
        | Some warnings =>
            Some (lefts [namespaceMemberExport p None] ++ warnings)%list
        | None => None
        end
  end.

(** What [rewriteNamespaceObject] does with the exports that
    [getNamespaceExports] returned, or with what it threw. *)
Definition lowerNamespace (name : string) (statement : Node)
    (made : result (list NamespaceExport * list ConsoleEntry)) : M unit :=
  match made with
  | Throw e => throw e
  | Ok (exports, warnings) =>
      modify (with_world (console_write warnings)) ;;;
      program_body <- program_body ;;
      let nsIndex := indexOf program_body statement in
      set_program_body
        (splice program_body nsIndex 1 (map export_node exports)) ;;;
      modify (with_this (fun t =>
        set_currentStatementIndex
          (currentStatementIndex t + (Z.of_nat (length exports) - 1)) t)) ;;;
      forEach exports (fun e =>
        addExport (name +:+ "." +:+ export_name e) (export_name e)) ;;;
      addExport name "*"
  end.

(** Rewrites a namespace object as a set of exports. An inherited member
    read for [mutableExports] is truthy and has no [includes]: the call
    throws at the first member that consults it, after the warnings for the
    members before; when no member consults it, it is as good as
    [undefined]. *)
Definition rewriteNamespaceObject (name : string) (body : Node)
    (statement : Node) : M unit :=
  s <- get ;;
  match readMutableExports (this_mutableExports (this s)) name with
  | ReadOwn names =>
      lowerNamespace name statement (getNamespaceExports body (Some names))
  | ReadUndefined =>
      lowerNamespace name statement (getNamespaceExports body None)
  | ReadInherited =>
      match body with
      | ObjectExpression _ properties =>
          match warningsBeforeConsulting properties with
          | Some warnings =>
              modify (with_world (console_write warnings)) ;;;
              throw (TypeError "mutableExports.includes is not a function")
          | None =>
              lowerNamespace name statement (getNamespaceExports body None)
          end
      | _ => lowerNamespace name statement (getNamespaceExports body None)
      end
  end.

Definition isNamespace (t : DocumentConverter) (node : Node) : bool :=
  match scriptDocument t with
  | None => false
  | Some script =>
      existsb (fun ns => sourceLocationsEqual (astNode ns) node)
        (getFeaturesByKind (script_features script) "namespace")
  end.

Definition getNode (t : DocumentConverter) (node : Node)
  : option Located :=
  match program t with
  | Some p => visitNode node None p
  | None => None
  end.

(** The object literal of a namespace statement [nsParent]:
    [nsParent.declarations[0].init] of a variable declaration, otherwise
    [nsParent.expression.right]. The source casts; a missing field ends in
    a [TypeError], here or when the members are read. *)
Definition namespaceObjectOf (nsParent : Node) : result Node :=
  match nsParent with
  | VariableDeclaration _ _ (VariableDeclarator _ _ (Some init) :: _) =>
      Ok init
  | VariableDeclaration _ _ _ =>
      Throw (TypeError "nsParent.declarations[0].init.properties")
  | ExpressionStatement _ (AssignmentExpression _ _ _ right_)
  | ExpressionStatement _ (BinaryExpression _ _ _ right_) => Ok right_
  | _ => Throw (TypeError "nsParent.expression.right")
  end.

(** [this.program.body[this.currentStatementIndex] = statement] *)
Definition replaceCurrentStatement (statement : Node) : M unit :=
  s <- get ;;
  body <- program_body ;;
  set_program_body
    (set_index body (currentStatementIndex (this s)) statement).

Definition exportConst (name : string) (value : Node) : Node :=
  jsc.exportNamedDeclaration
    (Some (jsc.variableDeclaration "const"
             [jsc.variableDeclarator (jsc.identifier name) value]))
    [].

Definition last_segment (path : list string) : string :=
  List.last path "undefined".

(** The body of the loop of [rewriteNamespaceExports], for the statement
    under the cursor, up to and including the cursor's increment. *)
Definition rewriteNamespaceExports_turn (locals : Locals) : M Locals :=
  s <- get ;;
  body <- program_body ;;
  match at_index body (currentStatementIndex (this s)) with
  | None => throw (TypeError "statement.type")
  | Some statement =>
      locals' <-
        match getExport statement (namespaces (analysisConverter (world s)))
        with
        | Some exported =>
            let namespace := namespace exported in
            let value := exported_value exported in
            let namespaceName := join "." namespace in
            if isNamespace (this s) statement &&
               String.eqb (type value) "ObjectExpression"
            then
              rewriteNamespaceObject namespaceName value statement ;;;
              ret {| localNamespaceName := Some namespaceName;
                     namespaceName := Some namespaceName |}
            else if String.eqb (type value) "Identifier" then
              let features :=
                getFeaturesById (features (document (this s)))
                  namespaceName in
              let referencedFeature :=
                List.find
                  (fun f => bool_decide (namespaceName ∈ identifiers f))
                  features in
              match referencedFeature with
              | Some namespaceFeature =>
                  if bool_decide ("namespace" ∈ kinds namespaceFeature)
                  then
                    match getNode (this s) (astNode namespaceFeature) with
                    | None =>
                        throw (JsError
                                 "can't find associated node for namespace")
                    | Some (LocatedProperty _) | Some (LocatedElement _) =>
                        throw (TypeError "nsParent.expression.right")
                    | Some (LocatedNode nsParent) =>
                        match namespaceObjectOf nsParent with
                        | Throw e => throw e
                        | Ok nsNode =>
                            rewriteNamespaceObject namespaceName nsNode
                              nsParent ;;;
                            s' <- get ;;
                            body' <- program_body ;;
                            set_program_body
                              (splice body'
                                 (currentStatementIndex (this s')) 1 []) ;;;
                            modify (with_this (fun t =>
                              set_currentStatementIndex
                                (currentStatementIndex t - 1) t)) ;;;
                            ret {| localNamespaceName :=
                                     localNamespaceName locals;
                                   namespaceName := Some namespaceName |}
                        end
                    end
                  else
                    replaceCurrentStatement
                      (jsc.exportNamedDeclaration None
                         [jsc.exportSpecifier value
                            (jsc.identifier (last_segment namespace))]) ;;;
                    addExport namespaceName (last_segment namespace) ;;;
                    ret {| localNamespaceName := localNamespaceName locals;
                           namespaceName := Some namespaceName |}
              | None =>
                  replaceCurrentStatement
                    (jsc.exportNamedDeclaration None
                       [jsc.exportSpecifier value
                          (jsc.identifier (last_segment namespace))]) ;;;
                  addExport namespaceName (last_segment namespace) ;;;
                  ret {| localNamespaceName := localNamespaceName locals;
                         namespaceName := Some namespaceName |}
              end
            else if isDeclaration value then
              replaceCurrentStatement (jsc.exportDeclaration false value) ;;;
              ret {| localNamespaceName := localNamespaceName locals;
                     namespaceName := Some namespaceName |}
            else
              let special := String.eqb namespaceName "Polymer._polymerFn" in
              let namespaceName :=
                if special then "Polymer" else namespaceName in
              let name :=
                if special then "Polymer" else last_segment namespace in
              replaceCurrentStatement (exportConst name value) ;;;
              addExport namespaceName name ;;;
              ret {| localNamespaceName := localNamespaceName locals;
                     namespaceName := Some namespaceName |}
        | None =>
            if isNamespace (this s) statement &&
               String.eqb (type statement) "VariableDeclaration"
            then
              match statement with
              | VariableDeclaration _ _
                  (VariableDeclarator _ (Identifier _ name) _ :: _) =>
                  ret {| localNamespaceName := Some name;
                         namespaceName := namespaceName locals |}
              | VariableDeclaration _ _ (VariableDeclarator _ _ _ :: _) =>
                  ret locals
              | _ => throw (TypeError "declarator.id.type")
              end
            else
              match truthy (localNamespaceName locals) with
              | Some local =>
                  match getExport statement {[ local ]} with
                  | Some namespaceAssignment =>
                      let namespace := namespace namespaceAssignment in
                      let value := exported_value namespaceAssignment in
                      let name := last_segment namespace in
                      let namespaceName := join "." namespace in
                      replaceCurrentStatement (exportConst name value) ;;;
                      addExport namespaceName name ;;;
                      ret {| localNamespaceName :=
                               localNamespaceName locals;
                             namespaceName := Some namespaceName |}
                  | None => ret locals
                  end
              | None => ret locals
              end
        end ;;
      modify (with_this (fun t =>
        set_currentStatementIndex (currentStatementIndex t + 1) t)) ;;;
      ret locals'
  end.

(** [while (this.currentStatementIndex < this.program.body.length)] *)
Fixpoint rewriteNamespaceExports_loop (fuel : nat) (locals : Locals)
    : M Locals :=
  s <- get ;;
  body <- program_body ;;
  if currentStatementIndex (this s) <? Z.of_nat (length body) then
    match fuel with
    | O => ret locals
    | S fuel' =>
        locals' <- rewriteNamespaceExports_turn locals ;;
        rewriteNamespaceExports_loop fuel' locals'
    end
  else ret locals.

(** Every turn that does not throw brings the cursor one step closer to
    the end of the body, so this many turns are enough. *)
Definition turns_needed (s : State) : nat :=
  match program (this s) with
  | Some (Program _ body) =>
      Z.to_nat (Z.of_nat (length body) - currentStatementIndex (this s) + 1)
  | _ => 0%nat
  end.

Definition rewriteNamespaceExports : M Locals :=
  s <- get ;;
  rewriteNamespaceExports_loop (turns_needed s)
    {| localNamespaceName := None; namespaceName := None |}.

(** Rewrite [this] references that refer to the namespace object. *)
Definition rewriteNamespaceThisReferences (namespaceName : option string)
    : M unit :=
  match namespaceName with
  | None => ret tt
  | Some name =>
      modify (with_this (fun t =>
        set_program
          (option_map (visitExportDeclarations name) (program t)) t))
  end.

Definition printSource : M unit :=
  s <- get ;;
  match program (this s) with
  | None => throw (TypeError "recast.print(this.program)")
  | Some p =>
      modify (with_world
        (with_moduleObject (module (this s))
           (fun m =>
              {| url := url m;
                 source := recast_print p +:+ newline;
                 exports := exports m;
                 importedReferences := importedReferences m |})))
  end.

Definition convert : M unit :=
  convertDependencies ;;;
  unwrapModuleBody ;;;
  rewriteNamespacedReferences ;;;
  addJsImports ;;;
  convertElements ;;;
  inlineTemplates ;;;
  locals <- rewriteNamespaceExports ;;
  rewriteNamespaceThisReferences (namespaceName locals) ;;;
  rewriteLocalNamespacedReferences (localNamespaceName locals) ;;;
  rewriteLocalNamespacedReferences (namespaceName locals) ;;;
  rewriteExcludedReferences ;;;
  printSource.

(** Modelled from the spec: [AnalysisConverter.convertDocument], whose
    file is not among the sources. "Idempotent per URL (checked against
    the Reference Index before doing work)": a document whose record is
    registered is not converted again and the registered record is the
    answer; otherwise a converter is made and run, and a failure stays
    with that document. *)
Definition convertDocument_spec (document : Document) (w : World)
    : ModuleRef * World :=
  let jsUrl := htmlUrlToJs (doc_url document) None in
  match modules (analysisConverter w) !! jsUrl with
  | Some existing => (existing, w)
  | None =>
      let (converter, w') := new_DocumentConverter document w in
      let (_, s) := convert {| this := converter; world := w' |} in
      (module converter, world s)
  end.
End Converter.


(** * The other passes of the converter *)

(** ** Collapsing references to a local namespace *)

(** The visitor of [rewriteLocalNamespacedReferences]: a member expression
    whose path without its last segment is the namespace name is replaced
    by its property and not traversed; every other node is traversed. *)
Fixpoint visitLocalReferences (namespaceName : string) (node : Node)
    : Node :=
  match node with
  | MemberExpression _ _ property _ =>
      let memberName :=
        option_map (fun memberPath => join "." (removelast memberPath))
          (getMemberPath node) in
      match truthy memberName with
      | Some memberName =>
          if String.eqb memberName namespaceName then property
          else mapChildren (visitLocalReferences namespaceName) node
      | None => mapChildren (visitLocalReferences namespaceName) node
      end
  | _ => mapChildren (visitLocalReferences namespaceName) node
  end.

(** Rewrites local references to a namespace member, [NS.foo] to [foo]. *)
Definition rewriteLocalNamespacedReferences (namespaceName : option string)
    : M unit :=
  match namespaceName with
  | None => ret tt
  | Some name =>
      modify (with_this (fun t =>
        set_program (option_map (visitLocalReferences name) (program t)) t))
  end.

(** ** Nulling excluded references *)

(** The visitor of [rewriteExcludedReferences]: a member expression whose
    path is excluded is replaced by the identifier [undefined]; the
    traversal goes on in what stands there afterwards. *)
Fixpoint visitExcludedReferences (referenceExcludes : gset string)
    (node : Node) : Node :=
  match node with
  | MemberExpression _ _ _ _ =>
      match getMemberPath node with
      | Some memberPath =>
          if bool_decide (join "." memberPath ∈ referenceExcludes)
          then jsc.identifier "undefined"
          else mapChildren (visitExcludedReferences referenceExcludes) node
      | None => mapChildren (visitExcludedReferences referenceExcludes) node
      end
  | _ => mapChildren (visitExcludedReferences referenceExcludes) node
  end.

Definition rewriteExcludedReferences : M unit :=
  modify (fun s =>
    with_this
      (fun t =>
         set_program
           (option_map
              (visitExcludedReferences
                 (_referenceExcludes (analysisConverter (world s))))
              (program t))
           t)
      s).

(** ** Rewriting namespaced references to imported names *)

(** [importedReferences.set(key, value)]: a key that is there keeps its
    place. *)
Fixpoint map_set {V} (m : list (string * V)) (k : string) (v : V)
    : list (string * V) :=
  match m with
  | [] => [(k, v)]
  | (k', v') :: rest =>
      if String.eqb k' k then (k, v) :: rest else (k', v') :: map_set rest k v
  end.

(** What the visitor of [rewriteNamespacedReferences] carries along: the
    module's [importedReferences], and the error that stopped it, if any. *)
Record References := {
  imported : list (string * StringSet);
  failure : option Error
}.

(** A traversal that rewrites the children in order and hands on what it
    carries. *)
Definition mapAccum {S} (f : S -> Node -> Node * S)
    : S -> list Node -> list Node * S :=
  fix go (s : S) (l : list Node) : list Node * S :=
    match l with
    | [] => ([], s)
    | x :: rest =>
        let (x', s1) := f s x in
        let (rest', s2) := go s1 rest in
        (x' :: rest', s2)
    end.

Definition optAccum {S} (f : S -> Node -> Node * S) (s : S)
    (o : option Node) : option Node * S :=
  match o with
  | Some x => let (x', s1) := f s x in (Some x', s1)
  | None => (None, s)
  end.

Definition membersAccum {S} (f : S -> Node -> Node * S)
    : S -> list (Property Node) -> list (Property Node) * S :=
  fix go (s : S) (l : list (Property Node)) : list (Property Node) * S :=
    match l with
    | [] => ([], s)
    | p :: rest =>
        let (k', s1) := f s (key p) in
        let (v', s2) := f s1 (value p) in
        let (rest', s3) := go s2 rest in
        (mkProperty (prop_loc p) k' v' :: rest', s3)
    end.

Definition mapChildrenAccum {S} (f : S -> Node -> Node * S) (s : S)
    (n : Node) : Node * S :=
  match n with
  | Program l b => let (b', s1) := mapAccum f s b in (Program l b', s1)
  | ExpressionStatement l e =>
      let (e', s1) := f s e in (ExpressionStatement l e', s1)
  | BlockStatement l b =>
      let (b', s1) := mapAccum f s b in (BlockStatement l b', s1)
  | ReturnStatement l a =>
      let (a', s1) := optAccum f s a in (ReturnStatement l a', s1)
  | VariableDeclaration l k ds =>
      let (ds', s1) := mapAccum f s ds in (VariableDeclaration l k ds', s1)
  | VariableDeclarator l i o =>
      let (i', s1) := f s i in
      let (o', s2) := optAccum f s1 o in
      (VariableDeclarator l i' o', s2)
  | FunctionDeclaration l i ps b g =>
      let (i', s1) := f s i in
      let (ps', s2) := mapAccum f s1 ps in
      let (b', s3) := f s2 b in
      (FunctionDeclaration l i' ps' b' g, s3)
  | ClassDeclaration l i sc b =>
      let (i', s1) := f s i in
      let (b', s2) := f s1 b in
      let (sc', s3) := optAccum f s2 sc in
      (ClassDeclaration l i' sc' b', s3)
  | ClassBody l b => let (b', s1) := mapAccum f s b in (ClassBody l b', s1)
  | MethodDefinition l k ke v =>
      let (ke', s1) := f s ke in
      let (v', s2) := f s1 v in
      (MethodDefinition l k ke' v', s2)
  | ImportDeclaration l ss src =>
      let (ss', s1) := mapAccum f s ss in
      let (src', s2) := f s1 src in
      (ImportDeclaration l ss' src', s2)
  | ImportSpecifier l i lo =>
      let (i', s1) := f s i in
      let (lo', s2) := f s1 lo in
      (ImportSpecifier l i' lo', s2)
  | ImportNamespaceSpecifier l lo =>
      let (lo', s1) := f s lo in (ImportNamespaceSpecifier l lo', s1)
  | ExportNamedDeclaration l d ss src =>
      let (d', s1) := optAccum f s d in
      let (ss', s2) := mapAccum f s1 ss in
      let (src', s3) := optAccum f s2 src in
      (ExportNamedDeclaration l d' ss' src', s3)
  | ExportSpecifier l lo e =>
      let (lo', s1) := f s lo in
      let (e', s2) := f s1 e in
      (ExportSpecifier l lo' e', s2)
  | ExportDefaultDeclaration l d =>
      let (d', s1) := f s d in (ExportDefaultDeclaration l d', s1)
  | ExportDeclaration l df d =>
      let (d', s1) := f s d in (ExportDeclaration l df d', s1)
  | ThisExpression _ | Identifier _ _ | Literal _ _ => (n, s)
  | TemplateLiteral l qs es =>
      let (es', s1) := mapAccum f s es in (TemplateLiteral l qs es', s1)
  | ArrayExpression l es =>
      let (es', s1) := mapAccum f s es in (ArrayExpression l es', s1)
  | ObjectExpression l ps =>
      let (ps', s1) := membersAccum f s ps in (ObjectExpression l ps', s1)
  | FunctionExpression l i ps b g =>
      let (i', s1) := optAccum f s i in
      let (ps', s2) := mapAccum f s1 ps in
      let (b', s3) := f s2 b in
      (FunctionExpression l i' ps' b' g, s3)
  | ArrowFunctionExpression l ps b =>
      let (ps', s1) := mapAccum f s ps in
      let (b', s2) := f s1 b in
      (ArrowFunctionExpression l ps' b', s2)
  | MemberExpression l o p c =>
      let (o', s1) := f s o in
      let (p', s2) := f s1 p in
      (MemberExpression l o' p' c, s2)
  | CallExpression l c args =>
      let (c', s1) := f s c in
      let (args', s2) := mapAccum f s1 args in
      (CallExpression l c' args', s2)
  | AssignmentExpression l op a b =>
      let (a', s1) := f s a in
      let (b', s2) := f s1 b in
      (AssignmentExpression l op a' b', s2)
  | BinaryExpression l op a b =>
      let (a', s1) := f s a in
      let (b', s2) := f s1 b in
      (BinaryExpression l op a' b', s2)
  end.

(** The identifier that stands for an export: the module's identifier for
    a whole namespace, otherwise the alias of the exported name. Reading the
    URL of a module that is not registered is a [TypeError]. *)
Definition replacePathWithExportIdentifier (moduleExport : JsExport)
    (jsModule : option JsModule) : result Node :=
  if String.eqb (exported_as moduleExport) "*" then
    match jsModule with
    | Some m => Ok (jsc.identifier (getModuleId (url m)))
    | None => Throw (TypeError "jsModule.url")
    end
  else Ok (jsc.identifier (getImportAlias (exported_as moduleExport))).

Section References.
Variable htmlUrlToJs : string -> option string -> string.

(** The registries as the pass finds them, and the URL of the document. *)
Variable w : World.
Variable baseUrl : string.

(** Add the given export to the current module's [importedReferences]. *)
Definition addToImportedReferences (moduleExport : JsExport)
    (importedReferences : list (string * StringSet))
    : list (string * StringSet) :=
  let moduleJsUrl := htmlUrlToJs (export_url moduleExport) (Some baseUrl) in
  match map_get importedReferences moduleJsUrl with
  | Some moduleImportedNames =>
      map_set importedReferences moduleJsUrl
        (set_add moduleImportedNames (exported_as moduleExport))
  | None =>
      map_set importedReferences moduleJsUrl
        (set_add [] (exported_as moduleExport))
  end.

(** [analysisConverter.modules.get(url)] *)
Definition moduleAt (moduleUrl : string) : option JsModule :=
  match modules (analysisConverter w) !! moduleUrl with
  | Some r => moduleObjects w !! r
  | None => None
  end.

(** Store the imported reference and rewrite the node. *)
Definition referTo (node : Node) (moduleExport : JsExport)
    (carried : References) : Node * References :=
  let jsModule := moduleAt (export_url moduleExport) in
  let recorded := addToImportedReferences moduleExport (imported carried) in
  match replacePathWithExportIdentifier moduleExport jsModule with
  | Ok replacement =>
      (replacement, {| imported := recorded; failure := None |})
  | Throw e => (node, {| imported := recorded; failure := Some e |})
  end.

(** The visitor of [rewriteNamespacedReferences]. [inMemberPath] says that
    the parent of the node is a member expression with a path. After an
    error nothing more is visited. *)
Fixpoint visitReference (inMemberPath : bool) (carried : References)
    (node : Node) : Node * References :=
  match failure carried with
  | Some _ => (node, carried)
  | None =>
      match node with
      | Identifier _ memberName =>
          let isRootModuleIdentifier :=
            bool_decide (memberName ∈ namespaces (analysisConverter w)) in
          if negb isRootModuleIdentifier || inMemberPath then (node, carried)
          else
            match namespacedExports (analysisConverter w) !! memberName with
            | Some moduleExport => referTo node moduleExport carried
            | None => (node, carried)
            end
      | MemberExpression _ _ _ _ =>
          match getMemberPath node with
          | Some memberPath =>
              match namespacedExports (analysisConverter w)
                      !! join "." memberPath with
              | Some moduleExport => referTo node moduleExport carried
              | None => mapChildrenAccum (visitReference true) carried node
              end
          | None => mapChildrenAccum (visitReference false) carried node
          end
      | _ => mapChildrenAccum (visitReference false) carried node
      end
  end.
End References.

(** Rewrite namespaced references ([Polymer.Element]) to the imported name
    ([$Element]), recording what is imported from which module. *)
Definition rewriteNamespacedReferences
    (htmlUrlToJs : string -> option string -> string) : M unit :=
  fun s =>
    let w := world s in
    match modules (analysisConverter w) !! jsUrl (this s) with
    | None => (Throw (TypeError "module.importedReferences"), s)
    | Some r =>
        match moduleObjects w !! r with
        | None => (Throw (TypeError "module.importedReferences"), s)
        | Some m =>
            match program (this s) with
            | None => (Ok tt, s)
            | Some p =>
                let (p', carried) :=
                  visitReference htmlUrlToJs w
                    (doc_url (document (this s))) false
                    {| imported := importedReferences m; failure := None |}
                    p in
                let s' :=
                  with_world
                    (with_moduleObject r (fun m =>
                       {| url := url m; source := source m;
                          exports := exports m;
                          importedReferences := imported carried |}))
                    (with_this (set_program (Some p')) s) in
                match failure carried with
                | Some e => (Throw e, s')
                | None => (Ok tt, s')
                end
            end
        end
    end.

(** ** Retained markup *)

(** A node of a parse5 tree, as far as the converter reads it. *)
Inductive ASTNode := mkASTNode {
  nodeName : string;
  tagName : option string;
  attrs : list (string * string);
  childNodes : option (list ASTNode)
}.

Definition elementBlacklist : list string :=
  ["base"; "link"; "meta"; "script"; "dom-module"].

(** [nodes.find((n) => n.tagName === tag)] *)
Definition findTag (tag : string) (nodes : list ASTNode) : option ASTNode :=
  List.find
    (fun n => match tagName n with
              | Some t => String.eqb t tag
              | None => false
              end)
    nodes.

(** [nodes.filter((n) => n.tagName !== undefined)] *)
Definition elementsOf (nodes : list ASTNode) : list ASTNode :=
  List.filter (fun n => match tagName n with Some _ => true | None => false end)
    nodes.

(** [elements.filter((e) => !elementBlacklist.has(e.tagName))] *)
Definition genericOf (elements : list ASTNode) : list ASTNode :=
  List.filter
    (fun e => match tagName e with
              | Some t => negb (bool_decide (t ∈ elementBlacklist))
              | None => true
              end)
    elements.

Module jscMore.
Definition memberExpression (object property : Node) : Node :=
  MemberExpression None object property false.
Definition callExpression (callee : Node) (arguments : list Node) : Node :=
  CallExpression None callee arguments.
Definition expressionStatement (expression : Node) : Node :=
  ExpressionStatement None expression.
Definition assignmentExpression (operator : string) (left_ right_ : Node)
  : Node := AssignmentExpression None operator left_ right_.
End jscMore.

(** The four statements that put the retained markup into the document. *)
Definition containerStatements (templateValue : Node) : list Node :=
  let varName := "$_documentContainer" in
  [jsc.variableDeclaration "const"
     [jsc.variableDeclarator (jsc.identifier varName)
        (jscMore.callExpression
           (jscMore.memberExpression (jsc.identifier "document")
              (jsc.identifier "createElement"))
           [jsc.literal (LString "div")])];
   jscMore.expressionStatement
     (jscMore.callExpression
        (jscMore.memberExpression (jsc.identifier varName)
           (jsc.identifier "setAttribute"))
        [jsc.literal (LString "style");
         jsc.literal (LString "display: none;")]);
   jscMore.expressionStatement
     (jscMore.assignmentExpression "="
        (jscMore.memberExpression (jsc.identifier varName)
           (jsc.identifier "innerHTML"))
        templateValue);
   jscMore.expressionStatement
     (jscMore.callExpression
        (jscMore.memberExpression (jsc.identifier "document")
           (jsc.identifier "appendChild"))
        [jsc.identifier varName])].

Section Elements.
Variable parse5_serialize : ASTNode -> string.

(** The elements of the head and of the body that are kept, and what is
    thrown when the tree has no [html], [head] or [body] element to read
    them from. *)
Definition genericElements (top : list ASTNode)
    : result (list ASTNode) :=
  match findTag "html" top with
  | None => Throw (TypeError "htmlElement.childNodes")
  | Some htmlElement =>
      match childNodes htmlElement with
      | None => Throw (TypeError "htmlElement.childNodes.find")
      | Some inHtml =>
          let head := findTag "head" inHtml in
          let body := findTag "body" inHtml in
          match head with
          | None => Throw (TypeError "head.childNodes")
          | Some head =>
              match childNodes head with
              | None => Throw (TypeError "head.childNodes.filter")
              | Some inHead =>
                  match body with
                  | None => Throw (TypeError "body.childNodes")
                  | Some body =>
                      match childNodes body with
                      | None => Throw (TypeError "body.childNodes.filter")
                      | Some inBody =>
                          Ok (genericOf
                                (elementsOf inHead ++ elementsOf inBody))
                      end
                  end
              end
          end
      end
  end.

(** [convertElements], for the parsed markup [ast] of the document. *)
Definition convertElements (ast : ASTNode) : M unit :=
  match childNodes ast with
  | None => ret tt
  | Some top =>
      match genericElements top with
      | Throw e => throw e
      | Ok [] => ret tt
      | Ok generic =>
          let fragment :=
            {| nodeName := "#document-fragment"; tagName := None;
               attrs := []; childNodes := Some generic |} in
          let templateValue :=
            nodeToTemplateLiteral ASTNode parse5_serialize fragment false in
          let statements := containerStatements templateValue in
          s <- get ;;
          body <- program_body ;;
          set_program_body
            (splice body (currentStatementIndex (this s)) 0 statements) ;;;
          modify (with_this (fun t =>
            set_currentStatementIndex
              (currentStatementIndex t + Z.of_nat (length statements)) t))
      end
  end.
End Elements.
(** * Vocabulary of the statements *)

(** ** Member-access chains *)

(** One property access of a chain [root.a.b.c]. *)
Record Access := {
  access_loc : Loc;
  property_loc : Loc;
  property_name : string;
  access_computed : bool
}.

Definition accessOn (object : Node) (a : Access) : Node :=
  MemberExpression (access_loc a) object
    (Identifier (property_loc a) (property_name a)) (access_computed a).

(** The member-access chain from [root] through [accesses], left to right. *)
Definition memberChain (root : Node) (accesses : list Access) : Node :=
  fold_left accessOn accesses root.

Definition assignmentStatement (sl al : Loc) (operator : string)
    (target value : Node) : Node :=
  ExpressionStatement sl (AssignmentExpression al operator target value).

Definition access (name : string) : Access :=
  {| access_loc := None; property_loc := None; property_name := name;
     access_computed := false |}.


(** ** Import declarations *)

(** [import * as $$module from 'url'] *)
Definition namespaceImportOf (specifierUrl : string) : Node :=
  jsc.importDeclaration
    [jsc.importNamespaceSpecifier (jsc.identifier (getModuleId specifierUrl))]
    (jsc.literal (LString specifierUrl)).

(** [import {a as $a, b as $b} from 'url']; with no names, the bare
    [import 'url']. *)
Definition namedImportOf (specifierUrl : string) (names : list string)
    : Node :=
  jsc.importDeclaration
    (map (fun s =>
            jsc.importSpecifier (jsc.identifier s)
              (jsc.identifier (getImportAlias s)))
       names)
    (jsc.literal (LString specifierUrl)).

(** The recorded names other than ['*'], in the order they were recorded. *)
Definition otherNames (recorded : option StringSet) : list string :=
  List.filter (fun s => negb (String.eqb s "*")) (default [] recorded).

(** ** Module bodies *)

(** [(function id(params) { inner })(args);] *)
Definition iife (sl cl fl : Loc) (id : option Node) (params : list Node)
    (bl : Loc) (inner : list Node) (generator : bool) (args : list Node)
    : Node :=
  ExpressionStatement sl
    (CallExpression cl
       (FunctionExpression fl id params (BlockStatement bl inner) generator)
       args).

(** The statements of a function body without a leading ["use strict"]
    directive that has a statement after it. *)
Definition withoutLeadingDirective (inner : list Node) : list Node :=
  match inner with
  | first :: (_ :: _) as others => if isUseStrict first then others else inner
  | _ => inner
  end.

(** ** Concrete states, for the examples *)

Definition emptyAnalysisConverter : AnalysisConverter :=
  {| modules := ∅; namespacedExports := ∅; namespaces := ∅;
     _excludes := ∅; _referenceExcludes := ∅; _mutableExports := ∅ |}.

Definition emptyWorld : World :=
  {| analysisConverter := emptyAnalysisConverter;
     moduleObjects := []; console := [] |}.

Definition documentAt (url : string) : Document :=
  {| doc_url := url; scripts := []; htmlImports := []; features := [] |}.

(** A converter at the start of its program, with its record registered. *)
Definition converterOf (d : Document) (p : option Node) : DocumentConverter :=
  {| jsUrl := doc_url d; module := 0%nat; document := d;
     scriptDocument := None; program := p; currentStatementIndex := 0;
     this_mutableExports := ∅ |}.

Definition stateOf (d : Document) (namespaces : gset string)
    (p : option Node) : State :=
  {| this := converterOf d p;
     world :=
       {| analysisConverter :=
            {| modules := {[ doc_url d := 0%nat ]};
               namespacedExports := ∅; namespaces := namespaces;
               _excludes := ∅; _referenceExcludes := ∅;
               _mutableExports := ∅ |};
          moduleObjects := [newModule (doc_url d)];
          console := [] |} |}.

Definition useStrictDirective : Node :=
  ExpressionStatement None (Literal None (LString "use strict")).

Definition emptyReturn : Node := ReturnStatement None None.

(** [(function() { inner })();] as a whole program. *)
Definition wrapped (inner : list Node) : Node :=
  iife None None None None [] None inner false [].

Definition wrappedState (inner : list Node) : State :=
  stateOf (documentAt "a.html") ∅ (Some (Program None [wrapped inner])).

(** ** Namespace members *)

(** [export kind key = value;] *)
Definition exportVariable (kind : string) (key value : Node) : Node :=
  jsc.exportNamedDeclaration
    (Some (jsc.variableDeclaration kind [jsc.variableDeclarator key value]))
    [].

(** [export function key(params) body] *)
Definition exportFunction (key : Node) (params : list Node) (body : Node)
    (generator : bool) : Node :=
  jsc.exportNamedDeclaration
    (Some (jsc.functionDeclaration key params body generator)) [].

(** [export {name as name};] *)
Definition exportSpecifierOf (name : string) : Node :=
  jsc.exportNamedDeclaration None
    [jsc.exportSpecifier (jsc.identifier name) (jsc.identifier name)].

(** The member name is in the list configured for the namespace. *)
Definition listed (mutableExports : option (list string)) (name : string)
    : bool :=
  match mutableExports with
  | Some names => bool_decide (name ∈ names)
  | None => false
  end.

(** The statement that the member [name: value] of a namespace object is
    lowered to, by the kind of its value; [None] for a value without an
    export. *)
Definition memberStatement (mutableExports : option (list string))
    (name : string) (key value : Node) : option Node :=
  match value with
  | ObjectExpression _ _ | ArrayExpression _ _ | Literal _ _ =>
      Some (exportVariable
              (if listed mutableExports name then "let" else "const")
              key value)
  | ArrowFunctionExpression _ _ _ => Some (exportVariable "const" key value)
  | FunctionExpression _ _ params body generator =>
      Some (exportFunction key params body generator)
  | Identifier _ _ => Some (exportSpecifierOf name)
  | _ => None
  end.

Definition member (name : string) (value : Node) : Property Node :=
  mkProperty None (Identifier None name) value.

Definition arrowReturning (value : Node) : Node :=
  ArrowFunctionExpression None [] value.

Definition one : Node := Literal None (LNumber 1).

(** The value is an object literal, an array literal or a literal. *)
Definition dataValued (value : Node) : bool :=
  match value with
  | ObjectExpression _ _ | ArrayExpression _ _ | Literal _ _ => true
  | _ => false
  end.

(** The configuration holds a list of names for the namespace [name], or
    nothing: either the list is there, or [name] is none of the names that
    the configuration object inherits and the configuration has no own
    [__proto__], which [Object.assign] would have made the prototype of the
    converter's copy. *)
Definition configuredPlainly (own : gmap string (list string))
    (name : string) : Prop :=
  is_Some (own !! name)
  \/ ((name ∉ objectPrototypeNames) /\ (own !! "__proto__" = None)).

(** The namespace is not configured and its name is one that every plain
    object inherits, as [constructor] or [toString]. *)
Definition configuredByInheritance (own : gmap string (list string))
    (name : string) : Prop :=
  (own !! name = None) /\ (name ∈ objectPrototypeNames).

(** [export const name = value;], node by node. *)
Definition constExport (name : string) (value : Node) : Node :=
  ExportNamedDeclaration None
    (Some
       (VariableDeclaration None "const"
          [VariableDeclarator None (Identifier None name) (Some value)]))
    [] None.

(** [Foo = {rootPath: 1, version: 1};] with [rootPath] configured as a
    mutable export of [Foo]. *)
Definition settingsObject : Node :=
  ObjectExpression None [member "rootPath" one; member "version" one].

Definition settingsStatement : Node :=
  assignmentStatement None None "=" (Identifier None "Foo") settingsObject.

Definition settingsState : State :=
  with_this
    (fun t =>
       {| jsUrl := jsUrl t; module := module t; document := document t;
          scriptDocument := scriptDocument t; program := program t;
          currentStatementIndex := currentStatementIndex t;
          this_mutableExports := {[ "Foo" := ["rootPath"] ]} |})
    (stateOf (documentAt "settings.html") {[ "Foo" ]}
       (Some (Program None [settingsStatement]))).

(** ** Markup literals *)

(** The escape of one code unit in the raw text of a template literal. *)
Definition escapeCodeUnit (a : ascii) : string :=
  if Ascii.eqb a backslash || Ascii.eqb a backtick || Ascii.eqb a dollar
  then String backslash (String a "")
  else String a "".

(** Every code unit escaped on its own, in one pass. *)
Fixpoint escapeEach (s : string) : string :=
  match s with
  | EmptyString => ""
  | String a rest => escapeCodeUnit a +:+ escapeEach rest
  end.

(** The text of a template literal from its raw text, as far as the three
    escapes go: a backslash stands for the code unit after it. *)
Fixpoint cookRaw (s : string) : string :=
  match s with
  | EmptyString => ""
  | String a rest =>
      if Ascii.eqb a backslash then
        match rest with
        | String b rest' => String b (cookRaw rest')
        | EmptyString => ""
        end
      else String a (cookRaw rest)
  end.


(** ** [this] in exported functions *)

(** A function expression or a function declaration: where the pass over a
    function body stops. *)
Definition isScopeBoundary (n : Node) : bool :=
  match n with
  | FunctionExpression _ _ _ _ _ | FunctionDeclaration _ _ _ _ _ => true
  | _ => false
  end.

(** The node reached from [n] by going down through the children numbered
    in [path], when no node that is gone through is a function expression
    or a function declaration: a node of the immediate body. *)
Fixpoint inScopeAt (path : list nat) (n : Node) : option Node :=
  match path with
  | [] => Some n
  | i :: rest =>
      if isScopeBoundary n then None
      else match children n !! i with
           | Some child => inScopeAt rest child
           | None => None
           end
  end.

(** The two ways a function declaration is exported. *)
Inductive ExportForm :=
| NamedExport (l : Loc) (specifiers : list Node) (source : option Node)
| DefaultExport (l : Loc).

Definition exportOf (form : ExportForm) (declaration : Node) : Node :=
  match form with
  | NamedExport l specifiers source =>
      ExportNamedDeclaration l (Some declaration) specifiers source
  | DefaultExport l => ExportDefaultDeclaration l declaration
  end.

(** [this.x] and [Foo.x] *)
Definition thisDotX : Node :=
  MemberExpression None (ThisExpression None) (Identifier None "x") false.

Definition fooDotX : Node :=
  MemberExpression None (Identifier None "Foo") (Identifier None "x") false.

(** [export function f() { return () => inner; }] *)
Definition exportedWithArrow (inner : Node) : Node :=
  exportFunction (Identifier None "f") []
    (BlockStatement None
       [ReturnStatement None (Some (ArrowFunctionExpression None [] inner))])
    false.

(** [{ this.x; (function() { this.x; }); }] *)
Definition innerFunction : Node :=
  FunctionExpression None None []
    (BlockStatement None [ExpressionStatement None thisDotX]) false.

Definition methodBody : Node :=
  BlockStatement None
    [ExpressionStatement None thisDotX; ExpressionStatement None innerFunction].

Definition fooState (statement : Node) : State :=
  stateOf (documentAt "foo.html") {[ "Foo" ]}
    (Some (Program None [statement])).

(** ** Statements of the namespace-export loop *)

(** The cursor is on [statement], an assignment of [value] to the dotted
    path [path] rooted in a known namespace. *)
Definition onExport (s : State) (pl : Loc) (body : list Node)
    (path : list string) (value : Node) : Prop :=
  program (this s) = Some (Program pl body)
  /\ exists statement,
       at_index body (currentStatementIndex (this s)) = Some statement
       /\ getExport statement (namespaces (analysisConverter (world s)))
          = Some {| namespace := path; exported_value := value |}.

(** The feature that the analyzer reports for the document under the dotted
    name [name]: what the loop looks up for [Polymer.X = X]. *)
Definition referencedFeature (d : Document) (name : string)
    : option Feature :=
  List.find (fun f => bool_decide (name ∈ identifiers f))
    (getFeaturesById (features d) name).

Definition missing_node_error : Error :=
  JsError "can't find associated node for namespace".

Definition noLocals : Locals :=
  {| localNamespaceName := None; namespaceName := None |}.

(** [Polymer._polymerFn = function() {};] *)
Definition emptyFunction : Node :=
  FunctionExpression None None [] (BlockStatement None []) false.

Definition polymerFnStatement : Node :=
  assignmentStatement None None "="
    (memberChain (Identifier None "Polymer") [access "_polymerFn"])
    emptyFunction.

Definition polymerFnState : State :=
  stateOf (documentAt "polymer-fn.html") {[ "Polymer" ]}
    (Some (Program None [polymerFnStatement])).

(** [Polymer.Foo = Foo;] in a document for which the analyzer reports the
    namespace [Polymer.Foo] at a place that is not in the program. *)
Definition elsewhere : SourceLocation :=
  {| start_line := 7; start_column := 0; end_line := 9; end_column := 1 |}.

Definition fooNamespace : Feature :=
  {| identifiers := ["Polymer.Foo"]; kinds := ["namespace"];
     astNode := ObjectExpression (Some elsewhere) [] |}.

Definition fooAssignment : Node :=
  assignmentStatement None None "="
    (memberChain (Identifier None "Polymer") [access "Foo"])
    (Identifier None "Foo").

Definition lostNamespaceState : State :=
  stateOf
    {| doc_url := "foo.html"; scripts := []; htmlImports := [];
       features := [fooNamespace] |}
    {[ "Polymer" ]}
    (Some (Program None [fooAssignment])).

(** ** Documents and the registry *)

(** The record a converter registers when it is made. *)
Definition registeredBy (jsUrl : string) (w : World) : World :=
  {| analysisConverter :=
       {| modules :=
            <[jsUrl := length (moduleObjects w)]>
              (modules (analysisConverter w));
          namespacedExports := namespacedExports (analysisConverter w);
          namespaces := namespaces (analysisConverter w);
          _excludes := _excludes (analysisConverter w);
          _referenceExcludes := _referenceExcludes (analysisConverter w);
          _mutableExports := _mutableExports (analysisConverter w) |};
     moduleObjects := (moduleObjects w ++ [newModule jsUrl])%list;
     console := console w |}.

Definition missing_program_error : Error := TypeError "this.program.body".

(** Stand-ins for what the converter takes from elsewhere, for the
    examples. *)
Definition jsUrlOf (htmlUrl : string) (from : option string) : string :=
  htmlUrl +:+ ".js".

Definition parseNothing (contents : string) : Node := Program None [].

Definition printNothing (program : Node) : string := "".

Definition convertNothing (d : Document) (w : World) : World := w.

Definition noPhase : M unit := ret tt.

Definition script (contents : string) : ScriptDocument :=
  {| contents := contents; script_features := [] |}.

Definition twoScripts : Document :=
  {| doc_url := "two.html"; scripts := [script "a()"; script "b()"];
     htmlImports := []; features := [] |}.

(** ** The cursor *)

Definition cursor (s : State) : Z := currentStatementIndex (this s).

(** The program has the statements [body], under the location [pl]. *)
Definition hasBody (s : State) (pl : Loc) (body : list Node) : Prop :=
  program (this s) = Some (Program pl body).

Definition size (body : list Node) : Z := Z.of_nat (length body).

(** What a turn leaves before the cursor is advanced: as many statements
    after the cursor as before, or the cursor more than one place before
    the body. *)
Definition preserved (pl : Loc) (body : list Node) (s s' : State) : Prop :=
  exists body',
    hasBody s' pl body'
    /\ (size body' - cursor s' = size body - cursor s
        \/ cursor s' + 1 < 0).

(** What is left of the loop after a turn: the cursor is one statement
    closer to the end, or before the body. *)
Definition progressed (pl : Loc) (body : list Node) (s s' : State) : Prop :=
  exists body',
    hasBody s' pl body'
    /\ (size body' - cursor s' = size body - cursor s - 1
        \/ cursor s' < 0).

(** * Further vocabulary *)

(** ** Identifiers made for imports *)

(** [/-[a-z]/.test(s)] *)
Fixpoint hasDashLower (s : string) : bool :=
  match s with
  | EmptyString => false
  | String a rest =>
      match rest with
      | String b _ =>
          (Ascii.eqb a "-"%char && is_lower b) || hasDashLower rest
      | EmptyString => false
      end
  end.

(** The first code unit is a lower-case letter. *)
Definition headLower (s : string) : bool :=
  match s with
  | String a _ => is_lower a
  | EmptyString => false
  end.

(** [s.includes(c)] *)
Fixpoint includes (c : ascii) (s : string) : bool :=
  match s with
  | EmptyString => false
  | String a rest => Ascii.eqb a c || includes c rest
  end.

(** [s.startsWith('$')] *)
Definition startsWithDollar (s : string) : bool :=
  match s with
  | String a _ => Ascii.eqb a dollar
  | EmptyString => false
  end.

(** ** Raw text of a template literal *)

(** No backtick and no dollar sign stands unescaped, and no escape is cut
    off by the end of the text: the text cannot close the literal or open
    an interpolation. *)
Fixpoint escapedOnly (s : string) : bool :=
  match s with
  | EmptyString => true
  | String a rest =>
      if Ascii.eqb a backslash then
        match rest with
        | String _ rest' => escapedOnly rest'
        | EmptyString => false
        end
      else
        negb (Ascii.eqb a backtick) && negb (Ascii.eqb a dollar) &&
        escapedOnly rest
  end.

(** ** Registrations *)

(** The path under which a member of a namespace is registered. *)
Definition memberPath (name member : string) : string :=
  name +:+ "." +:+ member.

Definition withExports (f : StringSet -> StringSet) (m : JsModule)
    : JsModule :=
  {| url := url m; source := source m; exports := f (exports m);
     importedReferences := importedReferences m |}.

(** The names of the members of an object literal that are exported, in
    the order of the members. *)
Definition exportedMembers (properties : list (Property Node))
    (mutableExports : option (list string)) : list string :=
  map export_name
    (rights (map (fun p => namespaceMemberExport p mutableExports)
               properties)).

(** ** The nodes of a tree *)

(** The members of an object literal and the elements of a template
    literal, which are nodes of the tree as well. *)
Definition recordsOf (n : Node) : list Located :=
  match n with
  | ObjectExpression _ properties => map LocatedProperty properties
  | TemplateLiteral _ quasis _ => map LocatedElement quasis
  | _ => []
  end.

(** Every node of the tree under [n], [n] included. *)
Fixpoint nodesOf (n : Node) : list Located :=
  LocatedNode n ::
  (recordsOf n ++ foldChildren (fun found c => found ++ nodesOf c) [] n)%list.

Definition locationOf (x : Located) : Loc :=
  match x with
  | LocatedNode n => loc_of n
  | LocatedProperty p => prop_loc p
  | LocatedElement q => element_loc q
  end.

(** The node is at the location of [wanted]. *)
Definition locatedAt (wanted : Node) (x : Located) : bool :=
  sameLocation (locationOf x) (loc_of wanted).

(** What a visit of [getNode] through the nodes [pool] makes of what was
    found before: it is kept when no node of the pool is at the wanted
    location, otherwise a node of the pool at that location takes its
    place. *)
Definition visitOutcome (wanted : Node) (found result : option Located)
    (pool : list Located) : Prop :=
  (result = found /\ Forall (fun x => locatedAt wanted x = false) pool)
  \/ (exists x, result = Some x /\ x ∈ pool /\ locatedAt wanted x = true).

(** ** Turns of the namespace-export loop *)

(** The cursor put at [i]. *)
Definition cursorAt (i : Z) (s : State) : State :=
  with_this (set_currentStatementIndex i) s.

(** A statement that is neither an export-shaped assignment nor the
    declaration of a namespace. *)
Definition plainStatement (s : State) (statement : Node) : Prop :=
  getExport statement (namespaces (analysisConverter (world s))) = None
  /\ isNamespace (this s) statement = false.

(** [export {local as exported};] *)
Definition reExport (local : Node) (exported : string) : Node :=
  jsc.exportNamedDeclaration None
    [jsc.exportSpecifier local (jsc.identifier exported)].

(** The statements that the members of an object literal are lowered to. *)
Definition memberExports (properties : list (Property Node))
    (mutableExports : option (list string)) : list Node :=
  map export_node
    (rights (map (fun p => namespaceMemberExport p mutableExports)
               properties)).

(** [var x = 1;] twice, at different places, and a namespace nowhere. *)
Definition plainProgram : Node :=
  Program None
    [ExpressionStatement None (Identifier None "a");
     ExpressionStatement None (Identifier None "b")].

(** [Polymer.version = 1;] *)
Definition versionStatement : Node :=
  assignmentStatement None None "="
    (memberChain (Identifier None "Polymer") [access "version"]) one.

Definition versionState : State :=
  stateOf (documentAt "version.html") {[ "Polymer" ]}
    (Some (Program None [versionStatement])).

(** [Polymer.Foo = Foo;] where the analyzer knows no namespace. *)
Definition aliasStatement : Node :=
  assignmentStatement None None "="
    (memberChain (Identifier None "Polymer") [access "Foo"])
    (Identifier None "Foo").

Definition aliasState : State :=
  stateOf (documentAt "alias.html") {[ "Polymer" ]}
    (Some (Program None [aliasStatement])).

(** [Polymer.Settings = {rootPath: 1};] at a place where the analyzer
    reports a namespace. *)
Definition settingsPlace : SourceLocation :=
  {| start_line := 3; start_column := 0; end_line := 3; end_column := 32 |}.

Definition namespaceStatement : Node :=
  assignmentStatement (Some settingsPlace) None "="
    (memberChain (Identifier None "Polymer") [access "Settings"])
    (ObjectExpression None [member "rootPath" one]).

Definition namespaceState : State :=
  {| this :=
       {| jsUrl := "settings.js"; module := 0%nat;
          document := documentAt "settings.html";
          scriptDocument :=
            Some {| contents := "";
                    script_features :=
                      [{| identifiers := ["Polymer.Settings"];
                          kinds := ["namespace"];
                          astNode :=
                            ExpressionStatement (Some settingsPlace)
                              (Identifier None "placeholder") |}] |};
          program := Some (Program None [namespaceStatement; emptyReturn]);
          currentStatementIndex := 0;
          this_mutableExports := ∅ |};
     world :=
       {| analysisConverter :=
            {| modules := {[ "settings.js" := 0%nat ]};
               namespacedExports := ∅; namespaces := {[ "Polymer" ]};
               _excludes := ∅; _referenceExcludes := ∅;
               _mutableExports := ∅ |};
          moduleObjects := [newModule "settings.js"];
          console := [] |} |}.

(** ** Chains of identifiers *)

(** The dotted path of the chain [root.a.b.c]. *)
Definition pathOf (root : string) (accesses : list Access) : string :=
  join "." (root :: map property_name accesses).

(** The identifier a property access names. *)
Definition propertyOf (a : Access) : Node :=
  Identifier (property_loc a) (property_name a).

(** ** Imported references *)

(** What a traversal that carries [S] along leaves of it after [c]. *)
Definition carriedOver {S} (f : S -> Node -> Node * S) (s : S) (c : Node)
    : S :=
  snd (f s c).

(** Everything recorded in [before] is recorded in [after]. *)
Definition keeps (before after : list (string * StringSet)) : Prop :=
  forall moduleUrl names,
    map_get before moduleUrl = Some names ->
    exists names',
      map_get after moduleUrl = Some names' /\ names ⊆ names'.

(** [name] is recorded as imported from [moduleUrl]. *)
Definition records (importedReferences : list (string * StringSet))
    (moduleUrl name : string) : Prop :=
  exists names,
    map_get importedReferences moduleUrl = Some names /\ name ∈ names.

(** The module URLs of the HTML imports of the document, as
    [addJsImports] collects them. *)
Definition jsImportUrls (htmlUrlToJs : string -> option string -> string)
    (s : State) : StringSet :=
  set_of_list
    (map (fun i =>
            htmlUrlToJs (import_url i) (Some (doc_url (document (this s)))))
       (getHtmlImports s)).

(** [import {..., name as $name, ...} from 'moduleUrl'] *)
Definition importsUnderAlias (moduleUrl name : string) (d : Node) : Prop :=
  exists specifiers,
    d = ImportDeclaration None specifiers (Literal None (LString moduleUrl))
    /\ In (ImportSpecifier None (Identifier None name)
             (Identifier None ("$" +:+ name)))
         specifiers.

(** A converter whose one statement is [statement], with [index] as the
    index of namespaced exports and its own record as the only module. *)
Definition referringState (index : gmap string JsExport) (statement : Node)
    : State :=
  {| this := converterOf (documentAt "app.html")
               (Some (Program None [statement]));
     world :=
       {| analysisConverter :=
            {| modules := {[ "app.html" := 0%nat ]};
               namespacedExports := index; namespaces := {[ "Polymer" ]};
               _excludes := ∅; _referenceExcludes := ∅;
               _mutableExports := ∅ |};
          moduleObjects := [newModule "app.html"];
          console := [] |} |}.

(** [Polymer.Element;] *)
Definition elementReference : Node :=
  jscMore.expressionStatement
    (memberChain (Identifier None "Polymer") [access "Element"]).

Definition elementExport : JsExport :=
  {| export_url := "polymer-element.js"; exported_as := "Element" |}.

Definition wholeNamespaceExport : JsExport :=
  {| export_url := "polymer-element.js"; exported_as := "*" |}.

(** ** Markup *)

(** The element [<tag>inside</tag>]. *)
Definition element (tag : string) (inside : list ASTNode) : ASTNode :=
  {| nodeName := tag; tagName := Some tag; attrs := [];
     childNodes := Some inside |}.

Definition textNode : ASTNode :=
  {| nodeName := "#text"; tagName := None; attrs := [];
     childNodes := None |}.

(** A parsed document with the given content of its head and body. *)
Definition markupDocument (inHead inBody : list ASTNode) : ASTNode :=
  {| nodeName := "#document"; tagName := None; attrs := [];
     childNodes :=
       Some [element "html"
               [element "head" inHead; element "body" inBody]] |}.

(** The fragment that holds the retained elements. *)
Definition fragmentOf (generic : list ASTNode) : ASTNode :=
  {| nodeName := "#document-fragment"; tagName := None; attrs := [];
     childNodes := Some generic |}.

(** An element that is kept: it has a tag, and the tag is not one of
    [base], [link], [meta], [script], [dom-module]. *)
Definition isGeneric (n : ASTNode) : Prop :=
  exists tag, tagName n = Some tag /\ tag ∉ elementBlacklist.

Definition hasTag (tag : string) (n : ASTNode) : Prop :=
  tagName n = Some tag.

Definition markupState : State :=
  stateOf (documentAt "markup.html") ∅ (Some (Program None [one])).

(** ** Excluded imports *)

(** A document that imports [legacy.html], which is excluded. *)
Definition excludingState : State :=
  {| this :=
       converterOf
         {| doc_url := "app.html"; scripts := [];
            htmlImports := [mkImport "legacy.html" (documentAt "legacy.html")];
            features := [] |}
         (Some (Program None []));
     world :=
       {| analysisConverter :=
            {| modules := {[ "app.html" := 0%nat ]};
               namespacedExports := ∅; namespaces := ∅;
               _excludes := {[ "legacy.html" ]}; _referenceExcludes := ∅;
               _mutableExports := ∅ |};
          moduleObjects := [newModule "app.html"];
          console := [] |} |}.

(** ** A converter at work *)

(** The converter of [app.html] with the statements [body]: [index] is the
    index of namespaced exports, [imports] are the HTML imports of the
    document, and [recorded] the imported references of its record, the
    only one of the registry. *)
Definition appState (index : gmap string JsExport)
    (imports : list (Import Document))
    (recorded : list (string * StringSet)) (body : list Node) : State :=
  {| this :=
       converterOf
         {| doc_url := "app.html"; scripts := []; htmlImports := imports;
            features := [] |}
         (Some (Program None body));
     world :=
       {| analysisConverter :=
            {| modules := {[ "app.html" := 0%nat ]};
               namespacedExports := index; namespaces := {[ "Polymer" ]};
               _excludes := ∅; _referenceExcludes := ∅;
               _mutableExports := ∅ |};
          moduleObjects :=
            [{| url := "app.html"; source := ""; exports := [];
                importedReferences := recorded |}];
          console := [] |} |}.

(** [Polymer.dom;] *)
Definition domReference : Node :=
  jscMore.expressionStatement
    (memberChain (Identifier None "Polymer") [access "dom"]).

Definition domExport : JsExport :=
  {| export_url := "polymer-dom.js"; exported_as := "dom" |}.

(** [import 'moduleUrl';] *)
Definition bareImport (moduleUrl : string) : Node :=
  ImportDeclaration None [] (Literal None (LString moduleUrl)).

(** [import {name as $name} from 'moduleUrl';] *)
Definition aliasImport (moduleUrl name : string) : Node :=
  ImportDeclaration None
    [ImportSpecifier None (Identifier None name)
       (Identifier None ("$" +:+ name))]
    (Literal None (LString moduleUrl)).
(** * Properties *)

(** ** Member paths and export-shaped assignments *)

Lemma memberChain_snoc root accesses a :
  memberChain root (accesses ++ [a])%list
  = accessOn (memberChain root accesses) a.
Proof. unfold memberChain. by rewrite fold_left_app. Qed.

Lemma memberChain_is_member root a accesses :
  exists l o p c,
    memberChain root (a :: accesses) = MemberExpression l o p c.
Proof.
  induction accesses as [|b accesses _] using rev_ind.
  - simpl. unfold accessOn. eauto.
  - rewrite app_comm_cons, memberChain_snoc. unfold accessOn. eauto.
Qed.


Lemma getMemberPath_rooted_chain l root a accesses :
  root <> "window" ->
  getMemberPath (memberChain (Identifier l root) (a :: accesses))
  = Some (root :: map property_name (a :: accesses)).
Proof.
  intros Hroot.
  induction accesses as [|b accesses IH] using rev_ind.
  - simpl. apply String.eqb_neq in Hroot. by rewrite Hroot.
  - rewrite app_comm_cons, memberChain_snoc.
    destruct (memberChain_is_member (Identifier l root) a accesses)
      as (l' & o & p & c & E).
    unfold accessOn. rewrite E in *. cbn [getMemberPath] in *.
    rewrite IH. by rewrite map_app.
Qed.




(** ** Import declarations *)

Example getModuleId_dashes :
  getModuleId "../polymer/lib/utils/case-map.js" = "$$caseMap".
Proof. reflexivity. Qed.

Example getImportDeclarations_both :
  getImportDeclarations "./a.js" (Some ["x"; "*"; "y"])
  = [namespaceImportOf "./a.js"; namedImportOf "./a.js" ["x"; "y"]].
Proof. reflexivity. Qed.

Lemma has_star_spec (names : list string) :
  existsb (fun s => String.eqb s "*") names = true <-> "*" ∈ names.
Proof.
  rewrite existsb_exists, list_elem_of_In. split.
  - intros (x & Hin & Heq). apply String.eqb_eq in Heq. by subst.
  - intros Hin. exists "*". by split.
Qed.

Lemma namespaceImportOf_not_named url names :
  namespaceImportOf url <> namedImportOf url names.
Proof.
  unfold namespaceImportOf, namedImportOf, jsc.importDeclaration.
  destruct names as [|n names]; simpl; intros H; discriminate H.
Qed.

(** C6. The import declarations made for a dependency URL and its recorded
    names: a namespace import under the module identifier exactly when ['*']
    was recorded; a named import of all the other names, each under its
    alias, when there are any; and the bare import when there is neither a
    name nor ['*']. Nothing else is made. *)
Theorem getImportDeclarations_spec :
  forall (specifierUrl : string) (recorded : option StringSet),
    let declarations := getImportDeclarations specifierUrl recorded in
    let names := otherNames recorded in
    (In (namespaceImportOf specifierUrl) declarations
     <-> "*" ∈ default [] recorded)
    /\ (names <> [] -> In (namedImportOf specifierUrl names) declarations)
    /\ (names = [] -> "*" ∉ default [] recorded ->
        declarations = [namedImportOf specifierUrl []])
    /\ (names = [] -> "*" ∈ default [] recorded ->
        declarations = [namespaceImportOf specifierUrl])
    /\ (forall d, In d declarations ->
          d = namespaceImportOf specifierUrl
          \/ d = namedImportOf specifierUrl names).
Proof.
  intros specifierUrl recorded declarations names.
  subst declarations names.
  unfold getImportDeclarations, otherNames.
  fold (namespaceImportOf specifierUrl).
  set (all := default [] recorded).
  set (others := List.filter (fun s => negb (String.eqb s "*")) all).
  fold (namedImportOf specifierUrl others).
  rewrite length_map.
  pose proof (has_star_spec all) as Hstar.
  destruct (existsb (fun s => String.eqb s "*") all) eqn:E.
  - assert (Hin : "*" ∈ all) by by apply Hstar.
    destruct others as [|o others'] eqn:Eo; simpl.
    + repeat split; try done; try tauto.
      intros d [<-|[]]. by left.
    + repeat split; try done; try tauto.
      intros d [<-|[<-|[]]]; [by left|by right].
  - assert (Hnot : "*" ∉ all).
    { intros Hin. apply Hstar in Hin. discriminate. }
    rewrite orb_true_r. simpl.
    repeat split; try done; try tauto.
    + intros [H|[]]. by destruct (namespaceImportOf_not_named _ _ (eq_sym H)).
    + intros ->. reflexivity.
    + intros d [<-|[]]. by right.
Qed.

Lemma splice_prepend {A} (l items : list A) :
  splice l 0 0 items = (items ++ l)%list.
Proof.
  unfold splice. cbn [Z.ltb Z.compare].
  replace (Z.min 0 (Z.of_nat (length l))) with 0 by lia.
  replace (Z.min (Z.max 0 0) (Z.of_nat (length l) - 0)) with 0 by lia.
  reflexivity.
Qed.

(** The import declarations are put in front of the program: first those
    of the HTML imports, in their order, then those of the dependencies
    that are only referenced; each dependency gets the declarations that
    [getImportDeclarations] makes for the names recorded for it. *)
Lemma addJsImports_prepends htmlUrlToJs s pl body m :
  program (this s) = Some (Program pl body) ->
  moduleObjects (world s) !! module (this s) = Some m ->
  let urls :=
    set_of_list
      (map (fun i =>
              htmlUrlToJs (import_url i) (Some (doc_url (document (this s)))))
         (getHtmlImports s)) in
  let declarationsFor := fun u =>
    getImportDeclarations u (map_get (importedReferences m) u) in
  let declarations :=
    (flat_map declarationsFor urls ++
     flat_map (fun u => if set_has urls u then [] else declarationsFor u)
       (map_keys (importedReferences m)))%list in
  exists s',
    addJsImports htmlUrlToJs s = (Ok tt, s')
    /\ program (this s') = Some (Program pl (declarations ++ body)%list)
    /\ currentStatementIndex (this s')
       = currentStatementIndex (this s) + Z.of_nat (length declarations).
Proof.
  intros Hp Hm urls declarationsFor declarations.
  unfold addJsImports, bind at 1, get. rewrite Hm.
  fold urls. fold declarationsFor. fold declarations.
  unfold bind at 1, program_body. rewrite Hp.
  unfold bind, set_program_body. rewrite Hp.
  unfold modify. eexists. split; [reflexivity|].
  cbn. by rewrite splice_prepend.
Qed.

(** ** Unwrapping the module body *)

Lemma with_this_set_program_same s p :
  program (this s) = p -> with_this (set_program p) s = s.
Proof. destruct s as [[] ?]. simpl. by intros <-. Qed.

Lemma unwrapModuleBody_iife s pl sl cl fl id params bl inner generator args :
  program (this s)
  = Some (Program pl [iife sl cl fl id params bl inner generator args]) ->
  unwrapModuleBody s
  = (Ok tt,
     with_this
       (set_program (Some (Program pl (withoutLeadingDirective inner)))) s).
Proof.
  intros Hp. unfold unwrapModuleBody, bind, program_body, iife in *.
  rewrite Hp. unfold set_program_body.
  destruct inner as [|st1 [|st2 rest]].
  - simpl. by rewrite Hp.
  - simpl. by rewrite Hp.
  - cbn [length head withoutLeadingDirective drop].
    replace (1 <? Z.of_nat (S (S (length rest)))) with true
      by (symmetry; apply Z.ltb_lt; lia).
    rewrite andb_true_l.
    destruct (isUseStrict st1); by rewrite Hp.
Qed.

Lemma unwrapModuleBody_other s pl body :
  program (this s) = Some (Program pl body) ->
  (forall sl cl fl id params callee_body generator args,
     body <> [ExpressionStatement sl
                (CallExpression cl
                   (FunctionExpression fl id params callee_body generator)
                   args)]) ->
  unwrapModuleBody s = (Ok tt, s).
Proof.
  intros Hp Hshape. unfold unwrapModuleBody, bind, program_body.
  rewrite Hp.
  destruct body as [|st others]; [done|].
  destruct st as [| sl e | | | | | | | | | | | | | | | | | | | | | | | | | | | ];
    try (by destruct others).
  destruct e as [| | | | | | | | | | | | | | | | | | | | | | | | | | cl c args | | ];
    try (by destruct others).
  destruct c as [| | | | | | | | | | | | | | | | | | | | | | | fl i ps fb g | | | | | ];
    try (by destruct others).
  destruct others; [|done].
  by destruct (Hshape sl cl fl i ps fb g args).
Qed.

(** C5, as the code has it. A program that is exactly one expression
    statement calling a function expression gets that function's statements
    as its body, without a leading ["use strict"] directive when that
    directive is followed by another statement; a directive that is the
    whole function body stays. Every other program body is left as it is. *)
Theorem unwrapModuleBody_spec :
  forall (s : State) (pl : Loc) (body : list Node),
    program (this s) = Some (Program pl body) ->
    (forall sl cl fl id params bl inner generator args,
       body = [iife sl cl fl id params bl inner generator args] ->
       unwrapModuleBody s
       = (Ok tt,
          with_this
            (set_program (Some (Program pl (withoutLeadingDirective inner))))
            s))
    /\ ((forall sl cl fl id params callee_body generator args,
           body <> [ExpressionStatement sl
                      (CallExpression cl
                         (FunctionExpression fl id params callee_body
                            generator)
                         args)]) ->
        unwrapModuleBody s = (Ok tt, s)).
Proof.
  intros s pl body Hp. split.
  - intros * ->. by eapply unwrapModuleBody_iife.
  - exact (unwrapModuleBody_other s pl body Hp).
Qed.

Lemma unwrapModuleBody_spec_witness :
  unwrapModuleBody (wrappedState [useStrictDirective; emptyReturn])
  = (Ok tt,
     with_this (set_program (Some (Program None [emptyReturn])))
       (wrappedState [useStrictDirective; emptyReturn])).
Proof.
  exact (proj1 (unwrapModuleBody_spec
                  (wrappedState [useStrictDirective; emptyReturn]) None
                  [wrapped [useStrictDirective; emptyReturn]] eq_refl)
           None None None None [] None
           [useStrictDirective; emptyReturn] false [] eq_refl).
Defined.

(** C5 as stated fails: a function body that is only the ["use strict"]
    directive keeps it. *)
Lemma unwrapModuleBody_keeps_lone_directive :
  isUseStrict useStrictDirective = true
  /\ unwrapModuleBody (wrappedState [useStrictDirective])
     = (Ok tt,
        with_this (set_program (Some (Program None [useStrictDirective])))
          (wrappedState [useStrictDirective]))
  /\ [useStrictDirective] <> ([] : list Node).
Proof. repeat split. discriminate. Qed.

(** ** Lowering a namespace object to exports *)

Lemma namespaceMemberExport_identifier p mutableExports kl name :
  key p = Identifier kl name ->
  match memberStatement mutableExports name (key p) (value p) with
  | Some statement =>
      namespaceMemberExport p mutableExports
      = inr {| export_name := name; export_node := statement |}
  | None => exists w, namespaceMemberExport p mutableExports = inl w
  end.
Proof.
  intros Hk. unfold namespaceMemberExport, memberStatement, listed.
  rewrite Hk. destruct (value p); eauto.
Qed.

Lemma rights_map_In {A B C} (f : A -> B + C) (l : list A) a c :
  In a l -> f a = inr c -> In c (rights (map f l)).
Proof.
  induction l as [|x l IH]; simpl; [done|].
  intros [->|Hin] Hf.
  - rewrite Hf. by left.
  - destruct (f x); [|right]; by apply IH.
Qed.

Lemma splice_items {A} (l : list A) start deleteCount items x :
  In x items -> In x (splice l start deleteCount items).
Proof.
  intros Hin. unfold splice. apply in_or_app. right.
  apply in_or_app. by left.
Qed.

Lemma addExport_this namespaceName name s :
  exists s', addExport namespaceName name s = (Ok tt, s')
             /\ this s' = this s.
Proof. eexists. split; [reflexivity|]. reflexivity. Qed.

Lemma forEach_addExport_this (f : NamespaceExport -> string * string)
    exports s :
  exists s',
    forEach exports (fun e => addExport (fst (f e)) (snd (f e))) s
    = (Ok tt, s')
    /\ this s' = this s.
Proof.
  revert s. induction exports as [|e exports IH]; intros s.
  - by exists s.
  - cbn [forEach]. unfold bind at 1.
    destruct (addExport_this (fst (f e)) (snd (f e)) s) as (s1 & E1 & T1).
    rewrite E1. destruct (IH s1) as (s2 & E2 & T2).
    exists s2. split; [done|congruence].
Qed.

Lemma lowerNamespace_ok s pl pbody name l properties statement cfg :
  program (this s) = Some (Program pl pbody) ->
  exists s',
    lowerNamespace name statement
      (getNamespaceExports (ObjectExpression l properties) cfg) s
    = (Ok tt, s')
    /\ program (this s')
       = Some (Program pl
                 (splice pbody (indexOf pbody statement) 1
                    (map export_node
                       (rights
                          (map (fun p => namespaceMemberExport p cfg)
                             properties)))))
    /\ currentStatementIndex (this s')
       = currentStatementIndex (this s)
         + (Z.of_nat
              (length
                 (rights
                    (map (fun p => namespaceMemberExport p cfg)
                       properties))) - 1).
Proof.
  intros Hp. unfold lowerNamespace. cbn [getNamespaceExports].
  set (exports := rights _).
  set (warnings := lefts _).
  unfold bind at 1. unfold modify at 1.
  unfold bind at 1. unfold program_body at 1. cbn [with_world this].
  rewrite Hp.
  unfold bind at 1. unfold set_program_body at 1. cbn [with_world this].
  rewrite Hp.
  unfold bind at 1. unfold modify at 1.
  set (s1 := with_this _ (with_this _ _)).
  unfold bind at 1.
  destruct (forEach_addExport_this
              (fun e => (name +:+ "." +:+ export_name e, export_name e))
              exports s1) as (s2 & E2 & T2).
  cbn [fst snd] in E2. rewrite E2.
  destruct (addExport_this name "*" s2) as (s3 & E3 & T3).
  exists s3. split; [done|].
  rewrite T3, T2. subst s1. by destruct s as [[] ?].
Qed.

Lemma readMutableExports_plain own name :
  configuredPlainly own name ->
  readMutableExports own name
  = match own !! name with
    | Some names => ReadOwn names
    | None => ReadUndefined
    end.
Proof.
  unfold readMutableExports.
  intros [[names ->]|[Hname _]]; [done|].
  destruct (own !! name); [done|]. by rewrite bool_decide_eq_false_2.
Qed.

(** For a namespace that is configured plainly the read is what the
    configuration holds. *)
Lemma rewriteNamespaceObject_plain s name body statement :
  configuredPlainly (this_mutableExports (this s)) name ->
  rewriteNamespaceObject name body statement s
  = lowerNamespace name statement
      (getNamespaceExports body (this_mutableExports (this s) !! name)) s.
Proof.
  intros Hplain. unfold rewriteNamespaceObject, bind at 1, get.
  rewrite (readMutableExports_plain _ _ Hplain).
  by destruct (this_mutableExports (this s) !! name).
Qed.

Lemma rewriteNamespaceObject_ok s pl pbody name l properties statement :
  program (this s) = Some (Program pl pbody) ->
  configuredPlainly (this_mutableExports (this s)) name ->
  exists s',
    rewriteNamespaceObject name (ObjectExpression l properties) statement s
    = (Ok tt, s')
    /\ program (this s')
       = Some (Program pl
                 (splice pbody (indexOf pbody statement) 1
                    (map export_node
                       (rights
                          (map (fun p =>
                                  namespaceMemberExport p
                                    (this_mutableExports (this s) !! name))
                             properties)))))
    /\ currentStatementIndex (this s')
       = currentStatementIndex (this s)
         + (Z.of_nat
              (length
                 (rights
                    (map (fun p =>
                            namespaceMemberExport p
                              (this_mutableExports (this s) !! name))
                       properties))) - 1).
Proof.
  intros Hp Hplain. rewrite rewriteNamespaceObject_plain by done.
  by apply lowerNamespace_ok.
Qed.

Lemma consults_data_member p kl memberName :
  key p = Identifier kl memberName ->
  dataValued (value p) = true ->
  consultsMutableExports p = true.
Proof.
  intros Hk Hd. unfold consultsMutableExports. rewrite Hk.
  by destruct (value p).
Qed.

Lemma warningsBeforeConsulting_some properties p :
  In p properties ->
  consultsMutableExports p = true ->
  is_Some (warningsBeforeConsulting properties).
Proof.
  induction properties as [|q properties IH]; [done|].
  intros Hin Hp. cbn [warningsBeforeConsulting].
  destruct (consultsMutableExports q) eqn:Hq; [by eexists|].
  destruct Hin as [->|Hin]; [congruence|].
  destruct (IH Hin Hp) as [warnings ->]. by eexists.
Qed.

(** C1, as the code has it. When a namespace object literal is lowered
    under a name for which the configuration holds a list or nothing, a
    member with an identifier key and an object, array or literal value
    becomes a [let] binding exactly when its name is listed for that
    namespace in the mutable-export configuration, and a [const] binding
    otherwise. The other kinds of member do not consult the configuration:
    an arrow function is always a [const] binding, a function expression a
    function declaration, an identifier an export specifier. Under a name
    that is not configured and that the configuration object inherits,
    [constructor] or [toString] say, the read gives a value without
    [includes]: with a member of the first kind the lowering throws, and
    neither the program nor the registry changes. *)
Theorem rewriteNamespaceObject_member_bindings :
  forall (s : State) (pl : Loc) (pbody : list Node) (name : string)
         (l : Loc) (properties : list (Property Node)) (statement : Node),
    program (this s) = Some (Program pl pbody) ->
    (configuredPlainly (this_mutableExports (this s)) name ->
     exists s' pbody',
       rewriteNamespaceObject name (ObjectExpression l properties)
         statement s
       = (Ok tt, s')
       /\ program (this s') = Some (Program pl pbody')
       /\ forall (p : Property Node) (kl : Loc) (memberName : string),
            In p properties ->
            key p = Identifier kl memberName ->
            (dataValued (value p) = true ->
             In (exportVariable
                   (if listed (this_mutableExports (this s) !! name)
                         memberName
                    then "let" else "const")
                   (key p) (value p))
               pbody')
            /\ (forall al ps b,
                  value p = ArrowFunctionExpression al ps b ->
                  In (exportVariable "const" (key p) (value p)) pbody')
            /\ (forall fl i ps b g,
                  value p = FunctionExpression fl i ps b g ->
                  In (exportFunction (key p) ps b g) pbody')
            /\ (forall il n,
                  value p = Identifier il n ->
                  In (exportSpecifierOf memberName) pbody'))
    /\ (configuredByInheritance (this_mutableExports (this s)) name ->
        forall (p : Property Node) (kl : Loc) (memberName : string),
          In p properties ->
          key p = Identifier kl memberName ->
          dataValued (value p) = true ->
          exists s',
            rewriteNamespaceObject name (ObjectExpression l properties)
              statement s
            = (Throw (TypeError "mutableExports.includes is not a function"),
               s')
            /\ this s' = this s
            /\ analysisConverter (world s') = analysisConverter (world s)
            /\ moduleObjects (world s') = moduleObjects (world s)).
Proof.
  intros s pl pbody name l properties statement Hp. split.
  - intros Hplain.
    destruct (rewriteNamespaceObject_ok s pl pbody name l properties
                statement Hp Hplain) as (s' & E & P & _).
    exists s'. eexists. split; [exact E|]. split; [exact P|].
    intros p kl memberName Hin Hk.
    pose proof (namespaceMemberExport_identifier p
                  (this_mutableExports (this s) !! name) kl memberName Hk)
      as H.
    assert (Hmade : forall exported,
               memberStatement (this_mutableExports (this s) !! name)
                 memberName (key p) (value p) = Some exported ->
               In exported
                 (splice pbody (indexOf pbody statement) 1
                    (map export_node
                       (rights
                          (map (fun p =>
                                  namespaceMemberExport p
                                    (this_mutableExports (this s) !! name))
                             properties))))).
    { intros exported Hm. rewrite Hm in H.
      apply splice_items, in_map_iff.
      eexists. split; [|eapply rights_map_In; [exact Hin|exact H]]. done. }
    repeat split.
    + intros Hdata. apply Hmade. unfold memberStatement.
      by destruct (value p).
    + intros al ps b Hv. apply Hmade. by rewrite Hv.
    + intros fl i ps b g Hv. apply Hmade. by rewrite Hv.
    + intros il n Hv. apply Hmade. by rewrite Hv.
  - intros [Hown Hname] p kl memberName Hin Hk Hdata.
    unfold rewriteNamespaceObject, bind at 1, get, readMutableExports.
    rewrite Hown, bool_decide_eq_true_2 by done.
    destruct (warningsBeforeConsulting_some properties p Hin
                (consults_data_member p kl memberName Hk Hdata))
      as [warnings ->].
    unfold bind, modify, throw. eexists. split; [reflexivity|].
    by destruct s as [? []].
Qed.

Lemma rewriteNamespaceObject_member_bindings_witness :
  (exists s' pbody',
     rewriteNamespaceObject "Foo" settingsObject settingsStatement
       settingsState
     = (Ok tt, s')
     /\ program (this s') = Some (Program None pbody')
     /\ In (exportVariable "let" (Identifier None "rootPath") one) pbody'
     /\ In (exportVariable "const" (Identifier None "version") one) pbody')
  /\ exists s',
       rewriteNamespaceObject "constructor" settingsObject settingsStatement
         settingsState
       = (Throw (TypeError "mutableExports.includes is not a function"), s')
       /\ this s' = this settingsState.
Proof.
  destruct (rewriteNamespaceObject_member_bindings settingsState None
              [settingsStatement] "Foo" None
              [member "rootPath" one; member "version" one]
              settingsStatement eq_refl) as [Hplain _].
  destruct (rewriteNamespaceObject_member_bindings settingsState None
              [settingsStatement] "constructor" None
              [member "rootPath" one; member "version" one]
              settingsStatement eq_refl) as [_ Hinherited].
  split.
  - destruct Hplain as (s1 & b1 & E1 & P1 & Hmembers).
    { left. by eexists. }
    exists s1, b1. split; [exact E1|]. split; [exact P1|].
    split.
    + exact (proj1 (Hmembers (member "rootPath" one) None "rootPath"
                      (or_introl eq_refl) eq_refl) eq_refl).
    + exact (proj1 (Hmembers (member "version" one) None "version"
                      (or_intror (or_introl eq_refl)) eq_refl) eq_refl).
  - destruct (Hinherited
                (conj eq_refl
                   (list_elem_of_here "constructor" _))
                (member "rootPath" one) None "rootPath"
                (or_introl eq_refl) eq_refl eq_refl)
      as (s' & E & T & _).
    by exists s'.
Defined.

(** C1 as stated fails for an arrow function: listed or not, it is lowered
    to a [const] binding. *)
Lemma listed_arrow_member_is_const :
  listed (Some ["f"]) "f" = true
  /\ getNamespaceExports
       (ObjectExpression None [member "f" (arrowReturning one)])
       (Some ["f"])
     = Ok ([{| export_name := "f";
               export_node :=
                 exportVariable "const" (Identifier None "f")
                   (arrowReturning one) |}],
           []).
Proof. split; reflexivity. Qed.

(** ** Markup literals *)

Example test_blank_undefined : test_blank None = false.
Proof. reflexivity. Qed.




Lemma append_cons a s t : String a s +:+ t = String a (s +:+ t).
Proof. reflexivity. Qed.

Lemma append_assoc s t u : (s +:+ t) +:+ u = s +:+ (t +:+ u).
Proof.
  induction s as [|a s IH]; [done|]. by rewrite !append_cons, IH.
Qed.

Lemma replace_all_app c by_ s t :
  replace_all c by_ (s +:+ t) = replace_all c by_ s +:+ replace_all c by_ t.
Proof.
  induction s as [|a s IH]; [done|].
  rewrite append_cons. cbn [replace_all]. destruct (Ascii.eqb a c).
  - by rewrite IH, append_assoc.
  - by rewrite IH, append_cons.
Qed.

Lemma replace_all_other c by_ a s :
  Ascii.eqb a c = false ->
  replace_all c by_ (String a s) = String a (replace_all c by_ s).
Proof. intros H. cbn [replace_all]. by rewrite H. Qed.

Lemma rawOfCooked_cons a s :
  rawOfCooked (String a s) = escapeCodeUnit a +:+ rawOfCooked s.
Proof.
  unfold rawOfCooked, escapeCodeUnit.
  destruct (Ascii.eqb_spec a backslash) as [->|Hbs]; [reflexivity|].
  destruct (Ascii.eqb_spec a backtick) as [->|Hbt]; [reflexivity|].
  destruct (Ascii.eqb_spec a dollar) as [->|Hd]; [reflexivity|].
  apply Ascii.eqb_neq in Hbs, Hbt, Hd.
  by rewrite !replace_all_other.
Qed.

Lemma rawOfCooked_escapeEach s : rawOfCooked s = escapeEach s.
Proof.
  induction s as [|a s IH]; [done|].
  rewrite rawOfCooked_cons. cbn [escapeEach]. by rewrite IH.
Qed.

(** The raw text reads back as the cooked text. *)
Lemma cookRaw_rawOfCooked s : cookRaw (rawOfCooked s) = s.
Proof.
  rewrite rawOfCooked_escapeEach.
  induction s as [|a s IH]; [done|].
  cbn [escapeEach]. unfold escapeCodeUnit.
  destruct (Ascii.eqb a backslash || Ascii.eqb a backtick ||
            Ascii.eqb a dollar) eqn:E.
  - rewrite !append_cons. cbn [cookRaw]. rewrite Ascii.eqb_refl.
    change ("" +:+ escapeEach s) with (escapeEach s). by rewrite IH.
  - rewrite append_cons. cbn [cookRaw].
    apply orb_false_elim in E as [E _]. apply orb_false_elim in E as [E _].
    rewrite E. change ("" +:+ escapeEach s) with (escapeEach s).
    by rewrite IH.
Qed.

(** The order matters: with the backslashes escaped last, the backslash
    that escapes a backtick would be doubled. *)
Example escaping_backslash_last_differs :
  rawOfCooked (String backtick "")
  = String backslash (String backtick "")
  /\ replace_all backslash (String backslash (String backslash ""))
       (replace_all backtick (String backslash (String backtick ""))
          (String backtick ""))
     = String backslash (String backslash (String backtick "")).
Proof. split; reflexivity. Qed.



(** ** [this] in exported functions *)

Lemma opt_list_option_map (f : Node -> Node) o :
  opt_list (option_map f o) = map f (opt_list o).
Proof. by destruct o. Qed.

Lemma children_mapChildren f n :
  children (mapChildren f n) = map f (children n).
Proof.
  destruct n; cbn [children mapChildren];
    rewrite ?map_cons, ?map_app, ?opt_list_option_map; try reflexivity.
  induction properties as [|p ps IH]; [done|].
  cbn [map flat_map key value app]. by rewrite IH.
Qed.

Lemma isScopeBoundary_mapChildren f n :
  isScopeBoundary (mapChildren f n) = isScopeBoundary n.
Proof. by destruct n. Qed.

Lemma rewriteSingleScope_traverses ns n :
  isScopeBoundary n = false ->
  (forall l, n <> ThisExpression l) ->
  rewriteSingleScopeThisReferences ns n
  = mapChildren (rewriteSingleScopeThisReferences ns) n.
Proof.
  intros Hb Ht. destruct n; try reflexivity; try discriminate.
  by destruct (Ht loc).
Qed.

Lemma rewriteSingleScope_boundary ns n :
  isScopeBoundary n = true -> rewriteSingleScopeThisReferences ns n = n.
Proof. by destruct n. Qed.

Lemma inScopeAt_rewriteSingleScope ns path :
  forall n target,
    inScopeAt path n = Some target ->
    inScopeAt path (rewriteSingleScopeThisReferences ns n)
    = Some (rewriteSingleScopeThisReferences ns target).
Proof.
  induction path as [|i path IH]; intros n target.
  - simpl. by intros [= ->].
  - cbn [inScopeAt].
    destruct (isScopeBoundary n) eqn:Hb; [done|].
    destruct (children n !! i) as [child|] eqn:Hc; [|done].
    intros Hat.
    assert (Ht : forall l, n <> ThisExpression l).
    { intros l ->. cbn [children] in Hc. by rewrite lookup_nil in Hc. }
    rewrite rewriteSingleScope_traverses by done.
    rewrite isScopeBoundary_mapChildren, Hb, children_mapChildren.
    rewrite list_lookup_fmap, Hc. cbn [fmap option_fmap option_map].
    by apply IH.
Qed.

Lemma visitExportDeclarations_exportOf ns form fl id params fbody g :
  visitExportDeclarations ns
    (exportOf form (FunctionDeclaration fl id params fbody g))
  = exportOf form
      (FunctionDeclaration fl id params
         (rewriteSingleScopeThisReferences ns fbody) g).
Proof. by destruct form. Qed.

(** C2, as the code has it. After the pass, an exported function
    declaration at the top of the program, named or default, has a body in
    which every [this] that is not inside a nested function expression or
    function declaration is the identifier with the namespace name, also a
    [this] inside a nested arrow function; and every nested function
    expression or function declaration of the immediate body is as it was,
    with the [this] references it holds. *)
Theorem rewriteNamespaceThisReferences_spec :
  forall (s : State) (pl : Loc) (statements : list Node) (name : string)
         (i : nat) (form : ExportForm) (fl : Loc) (id : Node)
         (params : list Node) (fbody : Node) (generator : bool),
    program (this s) = Some (Program pl statements) ->
    statements !! i
    = Some (exportOf form
              (FunctionDeclaration fl id params fbody generator)) ->
    exists s' statements' fbody',
      rewriteNamespaceThisReferences (Some name) s = (Ok tt, s')
      /\ program (this s') = Some (Program pl statements')
      /\ statements' !! i
         = Some (exportOf form
                   (FunctionDeclaration fl id params fbody' generator))
      /\ (forall path tl,
            inScopeAt path fbody = Some (ThisExpression tl) ->
            inScopeAt path fbody' = Some (jsc.identifier name))
      /\ (forall path nested,
            inScopeAt path fbody = Some nested ->
            isScopeBoundary nested = true ->
            inScopeAt path fbody' = Some nested).
Proof.
  intros s pl statements name i form fl id params fbody generator Hp Hi.
  exists (with_this
            (set_program
               (Some (Program pl
                        (map (visitExportDeclarations name) statements))))
            s),
    (map (visitExportDeclarations name) statements),
    (rewriteSingleScopeThisReferences name fbody).
  split.
  { unfold rewriteNamespaceThisReferences, modify, with_this.
    cbn beta. by rewrite Hp. }
  split; [done|]. split.
  { rewrite list_lookup_fmap, Hi. cbn [fmap option_fmap option_map].
    by rewrite visitExportDeclarations_exportOf. }
  split.
  - intros path tl Hat.
    by rewrite (inScopeAt_rewriteSingleScope name path _ _ Hat).
  - intros path nested Hat Hb.
    rewrite (inScopeAt_rewriteSingleScope name path _ _ Hat).
    by rewrite rewriteSingleScope_boundary.
Qed.

Lemma rewriteNamespaceThisReferences_spec_witness :
  exists s' statements' fbody',
    rewriteNamespaceThisReferences (Some "Foo")
      (fooState (exportFunction (Identifier None "f") [] methodBody false))
    = (Ok tt, s')
    /\ program (this s') = Some (Program None statements')
    /\ statements' !! 0%nat
       = Some (exportFunction (Identifier None "f") [] fbody' false)
    /\ inScopeAt [0; 0; 0]%nat fbody' = Some (Identifier None "Foo")
    /\ inScopeAt [1; 0]%nat fbody' = Some innerFunction.
Proof.
  destruct (rewriteNamespaceThisReferences_spec
              (fooState
                 (exportFunction (Identifier None "f") [] methodBody false))
              None
              [exportFunction (Identifier None "f") [] methodBody false]
              "Foo" 0%nat (NamedExport None [] None) None
              (Identifier None "f") [] methodBody false eq_refl eq_refl)
    as (s' & statements' & fbody' & E & P & S & Hthis & Hnested).
  exists s', statements', fbody'.
  split; [exact E|]. split; [exact P|]. split; [exact S|]. split.
  - exact (Hthis [0; 0; 0]%nat None eq_refl).
  - exact (Hnested [1; 0]%nat innerFunction eq_refl eq_refl).
Defined.

(** C2 as stated fails for a nested arrow function: the pass goes into it
    and replaces its [this]. *)
Lemma this_in_nested_arrow_is_rewritten :
  rewriteNamespaceThisReferences (Some "Foo")
    (fooState (exportedWithArrow thisDotX))
  = (Ok tt,
     with_this
       (set_program (Some (Program None [exportedWithArrow fooDotX])))
       (fooState (exportedWithArrow thisDotX)))
  /\ ArrowFunctionExpression None [] fooDotX
     <> ArrowFunctionExpression None [] thisDotX.
Proof. split; [reflexivity|discriminate]. Qed.

(** ** The namespace-export loop *)

Lemma bind_Ok {A B} (m : M A) (k : A -> M B) s a s' :
  m s = (Ok a, s') -> bind m k s = k a s'.
Proof. unfold bind. by intros ->. Qed.

Lemma bind_Throw {A B} (m : M A) (k : A -> M B) s e s' :
  m s = (Throw e, s') -> bind m k s = (Throw e, s').
Proof. unfold bind. by intros ->. Qed.

Lemma program_body_Ok s pl body :
  program (this s) = Some (Program pl body) -> program_body s = (Ok body, s).
Proof. unfold program_body. by intros ->. Qed.

Lemma set_program_body_Ok s pl body body' :
  program (this s) = Some (Program pl body) ->
  set_program_body body' s
  = (Ok tt, with_this (set_program (Some (Program pl body'))) s).
Proof. unfold set_program_body. by intros ->. Qed.

Lemma replaceCurrentStatement_Ok s pl body statement :
  program (this s) = Some (Program pl body) ->
  replaceCurrentStatement statement s
  = (Ok tt,
     with_this
       (set_program
          (Some (Program pl
                   (set_index body (currentStatementIndex (this s))
                      statement))))
       s).
Proof.
  intros Hp. unfold replaceCurrentStatement.
  rewrite (bind_Ok get _ s s s eq_refl).
  rewrite (bind_Ok _ _ _ _ _ (program_body_Ok s pl body Hp)).
  exact (set_program_body_Ok s pl body _ Hp).
Qed.

Lemma at_index_set_index {A} (l : list A) i x y :
  at_index l i = Some y -> at_index (set_index l i x) i = Some x.
Proof.
  unfold at_index, set_index. destruct (i <? 0); [done|].
  intros H. apply list_lookup_insert_eq. by eapply lookup_lt_Some.
Qed.

Lemma type_eqb_false n t : type n <> t -> String.eqb (type n) t = false.
Proof. by intros H; apply String.eqb_neq. Qed.

(** C8. An export-shaped assignment to the path [Polymer._polymerFn] whose
    right side is not an object literal, an identifier or a class
    declaration is replaced by the export of a [const] binding named
    [Polymer], and the export is registered under the namespace path
    [Polymer]: in the index of namespaced exports, with this module's URL,
    and in the module's set of exported names. Nothing is registered under
    [Polymer._polymerFn]. *)
Theorem polymerFn_is_exported_as_Polymer :
  forall (s : State) (locals : Locals) (pl : Loc) (body : list Node)
         (statement : Node) (path : list string) (value : Node),
    program (this s) = Some (Program pl body) ->
    at_index body (currentStatementIndex (this s)) = Some statement ->
    getExport statement (namespaces (analysisConverter (world s)))
    = Some {| namespace := path; exported_value := value |} ->
    join "." path = "Polymer._polymerFn" ->
    type value <> "ObjectExpression" ->
    type value <> "Identifier" ->
    type value <> "ClassDeclaration" ->
    exists s',
      rewriteNamespaceExports_turn locals s
      = (Ok {| localNamespaceName := localNamespaceName locals;
               namespaceName := Some "Polymer" |},
         s')
      /\ program (this s')
         = Some (Program pl
                   (set_index body (currentStatementIndex (this s))
                      (constExport "Polymer" value)))
      /\ at_index
           (set_index body (currentStatementIndex (this s))
              (constExport "Polymer" value))
           (currentStatementIndex (this s))
         = Some (constExport "Polymer" value)
      /\ currentStatementIndex (this s') = currentStatementIndex (this s) + 1
      /\ namespacedExports (analysisConverter (world s')) !! "Polymer"
         = Some {| export_url := jsUrl (this s); exported_as := "Polymer" |}
      /\ namespacedExports (analysisConverter (world s'))
           !! "Polymer._polymerFn"
         = namespacedExports (analysisConverter (world s))
             !! "Polymer._polymerFn"
      /\ (forall m,
            moduleObjects (world s) !! module (this s) = Some m ->
            exists m',
              moduleObjects (world s') !! module (this s) = Some m'
              /\ exports m' = set_add (exports m) "Polymer").
Proof.
  intros s locals pl body statement path value Hp Hat Hexp Hpath Hobj Hid Hcl.
  unfold rewriteNamespaceExports_turn.
  rewrite (bind_Ok get _ s s s eq_refl).
  rewrite (bind_Ok _ _ _ _ _ (program_body_Ok s pl body Hp)).
  rewrite Hat, Hexp. cbn [namespace exported_value].
  rewrite (type_eqb_false _ _ Hobj), andb_false_r.
  rewrite (type_eqb_false _ _ Hid).
  unfold isDeclaration. rewrite (type_eqb_false _ _ Hcl).
  rewrite Hpath. cbn [String.eqb Ascii.eqb Bool.eqb].
  unfold bind at 1. unfold bind at 1.
  rewrite (replaceCurrentStatement_Ok s pl body _ Hp).
  unfold bind, addExport, modify, ret.
  eexists. split; [reflexivity|].
  cbn [this world with_this with_world with_analysisConverter
       with_moduleObject set_program set_currentStatementIndex program
       currentStatementIndex analysisConverter namespacedExports
       moduleObjects jsUrl module].
  split; [reflexivity|].
  split; [by eapply at_index_set_index|].
  split; [reflexivity|].
  split; [by rewrite lookup_insert_eq|].
  split; [by rewrite lookup_insert_ne|].
  intros m Hm. rewrite list_lookup_alter_eq, Hm. by eexists.
Qed.

Lemma polymerFn_is_exported_as_Polymer_witness :
  exists s',
    rewriteNamespaceExports_turn noLocals polymerFnState
    = (Ok {| localNamespaceName := None; namespaceName := Some "Polymer" |},
       s')
    /\ program (this s')
       = Some (Program None [constExport "Polymer" emptyFunction])
    /\ namespacedExports (analysisConverter (world s')) !! "Polymer"
       = Some {| export_url := "polymer-fn.html";
                 exported_as := "Polymer" |}.
Proof.
  destruct (polymerFn_is_exported_as_Polymer polymerFnState noLocals None
              [polymerFnStatement] polymerFnStatement
              ["Polymer"; "_polymerFn"] emptyFunction
              eq_refl eq_refl eq_refl eq_refl
              ltac:(discriminate) ltac:(discriminate) ltac:(discriminate))
    as (s' & E & P & _ & _ & R & _).
  exists s'. split; [exact E|]. split; [exact P|exact R].
Defined.

Lemma turn_throws_when_namespace_node_missing s locals pl body path il
    localName feature :
  onExport s pl body path (Identifier il localName) ->
  referencedFeature (document (this s)) (join "." path) = Some feature ->
  "namespace" ∈ kinds feature ->
  getNode (this s) (astNode feature) = None ->
  rewriteNamespaceExports_turn locals s = (Throw missing_node_error, s).
Proof.
  intros (Hp & statement & Hat & Hexp) Hf Hk Hn.
  unfold rewriteNamespaceExports_turn.
  rewrite (bind_Ok get _ s s s eq_refl).
  rewrite (bind_Ok _ _ _ _ _ (program_body_Ok s pl body Hp)).
  rewrite Hat, Hexp. cbn [namespace exported_value type].
  rewrite andb_false_r. cbn [String.eqb Ascii.eqb Bool.eqb].
  unfold referencedFeature in Hf. rewrite Hf.
  rewrite (bool_decide_eq_true_2 _ Hk), Hn.
  reflexivity.
Qed.

(** C9. When the cursor is on an export-shaped assignment whose right side
    is an identifier, the analyzer reports under the assignment's dotted
    path a feature of kind namespace, and no node of the program is at that
    feature's location, the turn of the loop throws the error "can't find
    associated node for namespace", and so does the loop: nothing more is
    rewritten, the state is the one the statement was met in. *)
Theorem namespace_node_missing_throws :
  forall (s : State) (locals : Locals) (pl : Loc) (body : list Node)
         (path : list string) (il : Loc) (localName : string)
         (feature : Feature),
    onExport s pl body path (Identifier il localName) ->
    referencedFeature (document (this s)) (join "." path) = Some feature ->
    "namespace" ∈ kinds feature ->
    getNode (this s) (astNode feature) = None ->
    rewriteNamespaceExports_turn locals s = (Throw missing_node_error, s)
    /\ (forall fuel,
          rewriteNamespaceExports_loop (S fuel) locals s
          = (Throw missing_node_error, s))
    /\ rewriteNamespaceExports s = (Throw missing_node_error, s).
Proof.
  intros s locals pl body path il localName feature Hon Hf Hk Hn.
  pose proof Hon as (Hp & statement & Hat & _).
  assert (Hlt : (currentStatementIndex (this s) <? Z.of_nat (length body))
                = true).
  { apply Z.ltb_lt. unfold at_index in Hat.
    destruct (currentStatementIndex (this s) <? 0) eqn:E; [done|].
    apply Z.ltb_ge in E. apply lookup_lt_Some in Hat. lia. }
  assert (Hloop : forall fuel locals,
             rewriteNamespaceExports_loop (S fuel) locals s
             = (Throw missing_node_error, s)).
  { intros fuel locals'. cbn [rewriteNamespaceExports_loop].
    rewrite (bind_Ok get _ s s s eq_refl).
    rewrite (bind_Ok _ _ _ _ _ (program_body_Ok s pl body Hp)).
    rewrite Hlt. apply bind_Throw.
    by eapply turn_throws_when_namespace_node_missing. }
  split; [by eapply turn_throws_when_namespace_node_missing|].
  split; [intros fuel; apply Hloop|].
  unfold rewriteNamespaceExports.
  rewrite (bind_Ok get _ s s s eq_refl).
  unfold turns_needed. rewrite Hp.
  apply Z.ltb_lt in Hlt.
  replace (Z.to_nat
             (Z.of_nat (length body) - currentStatementIndex (this s) + 1))
    with (S (Z.to_nat
               (Z.of_nat (length body) - currentStatementIndex (this s))))
    by lia.
  apply Hloop.
Qed.

Lemma namespace_node_missing_throws_witness :
  rewriteNamespaceExports_turn noLocals lostNamespaceState
  = (Throw missing_node_error, lostNamespaceState)
  /\ rewriteNamespaceExports lostNamespaceState
     = (Throw missing_node_error, lostNamespaceState).
Proof.
  destruct (namespace_node_missing_throws lostNamespaceState noLocals None
              [fooAssignment] ["Polymer"; "Foo"] None "Foo" fooNamespace)
    as (Hturn & _ & Hall).
  - split; [reflexivity|]. exists fooAssignment. split; reflexivity.
  - reflexivity.
  - apply list_elem_of_In. left. reflexivity.
  - reflexivity.
  - exact (conj Hturn Hall).
Defined.

(** ** Documents and the registry *)

Section Registry.
Variable htmlUrlToJs : string -> option string -> string.
Variable recast_parse : string -> Node.
Variable recast_print : Node -> string.
Variable convertDocument : Document -> World -> World.
Variable rewriteNamespacedReferences : M unit.
Variable convertElements : M unit.
Variable inlineTemplates : M unit.
Variable rewriteLocalNamespacedReferences : option string -> M unit.
Variable rewriteExcludedReferences : M unit.

Local Abbreviation new_converter :=
  (new_DocumentConverter htmlUrlToJs recast_parse).
Local Abbreviation dependency := (convertDependency htmlUrlToJs convertDocument).
Local Abbreviation dependencies :=
  (convertDependencies htmlUrlToJs convertDocument).
Local Abbreviation conversion :=
  (convert htmlUrlToJs recast_print convertDocument
     rewriteNamespacedReferences convertElements inlineTemplates
     rewriteLocalNamespacedReferences rewriteExcludedReferences).
Local Abbreviation convertDocument_modelled :=
  (convertDocument_spec htmlUrlToJs recast_parse recast_print
     convertDocument rewriteNamespacedReferences convertElements
     inlineTemplates rewriteLocalNamespacedReferences
     rewriteExcludedReferences).

Lemma with_world_id s : with_world (fun w => w) s = s.
Proof. by destruct s. Qed.

Lemma dependency_registered baseUrl w htmlImport :
  is_Some (modules (analysisConverter w)
             !! htmlUrlToJs (import_url htmlImport) (Some baseUrl)) ->
  dependency baseUrl w htmlImport = w.
Proof.
  intros H. unfold convertDependency. by rewrite bool_decide_eq_true_2.
Qed.

Lemma dependencies_registered baseUrl w htmlImports :
  Forall
    (fun i =>
       is_Some (modules (analysisConverter w)
                  !! htmlUrlToJs (import_url i) (Some baseUrl)))
    htmlImports ->
  fold_left (dependency baseUrl) htmlImports w = w.
Proof.
  induction 1 as [|i l Hi _ IH]; [done|].
  cbn [fold_left]. by rewrite dependency_registered.
Qed.

(** C3. A document whose record is in the module registry, under its
    JS URL, is not converted again: the world is as before and the
    answer is the registered record. While the dependencies of a
    document are converted, an import whose JS URL is registered is
    passed over; when all are, nothing changes. *)
Theorem registered_document_is_not_converted_again :
  forall (w : World),
    (forall (d : Document) (existing : ModuleRef),
       modules (analysisConverter w) !! htmlUrlToJs (doc_url d) None
       = Some existing ->
       convertDocument_modelled d w = (existing, w))
    /\ (forall (baseUrl : string) (htmlImport : Import Document),
          is_Some (modules (analysisConverter w)
                     !! htmlUrlToJs (import_url htmlImport)
                          (Some baseUrl)) ->
          dependency baseUrl w htmlImport = w)
    /\ (forall (s : State),
          world s = w ->
          Forall
            (fun i =>
               is_Some (modules (analysisConverter w)
                          !! htmlUrlToJs (import_url i)
                               (Some (doc_url (document (this s))))))
            (getHtmlImports s) ->
          dependencies s = (Ok tt, s)).
Proof.
  intros w. split; [|split].
  - intros d existing H. unfold convertDocument_spec. by rewrite H.
  - intros baseUrl htmlImport. apply dependency_registered.
  - intros s <- H. unfold convertDependencies.
    f_equal. destruct s as [t w]. unfold with_world. cbn [this world] in *.
    f_equal. by apply dependencies_registered.
Qed.

(** Making a converter registers a new, empty record under the document's
JS URL, whatever was registered there: the check before is what keeps a
registered document from being converted again. *)
Lemma new_converter_registers_afresh (d : Document) (w : World) :
  modules (analysisConverter (snd (new_converter d w)))
    !! htmlUrlToJs (doc_url d) None
  = Some (length (moduleObjects w))
  /\ moduleObjects (snd (new_converter d w)) !! length (moduleObjects w)
     = Some (newModule (htmlUrlToJs (doc_url d) None)).
Proof.
  unfold new_DocumentConverter.
  destruct (Z.of_nat (length (scripts d)) =? 0);
    [|destruct (1 <? Z.of_nat (length (scripts d)));
      [|destruct (head (scripts d))]];
    cbn [snd analysisConverter modules moduleObjects console_write];
    (split; [by rewrite lookup_insert_eq|]);
    rewrite lookup_app_r by done; by rewrite Nat.sub_diag.
Qed.

Lemma new_converter_many_scripts (d : Document) (w : World) :
  (1 < length (scripts d))%nat ->
  new_converter d w
  = ({| jsUrl := htmlUrlToJs (doc_url d) None;
        module := length (moduleObjects w);
        document := d; scriptDocument := None; program := None;
        currentStatementIndex := 0;
        this_mutableExports := _mutableExports (analysisConverter w) |},
     console_write [ConsoleLog "multiple scripts"]
       (registeredBy (htmlUrlToJs (doc_url d) None) w)).
Proof.
  intros H. unfold new_DocumentConverter.
  replace (Z.of_nat (length (scripts d)) =? 0) with false
    by (symmetry; apply Z.eqb_neq; lia).
  replace (1 <? Z.of_nat (length (scripts d))) with true
    by (symmetry; apply Z.ltb_lt; lia).
  reflexivity.
Qed.

(** C4. A document with more than one embedded script: making its
    converter writes the diagnostic "multiple scripts" and registers a
    record with an empty source, leaving the program undefined; the
    records and registry entries of other documents and the index of
    namespaced exports are as before. Converting then throws as soon as
    the program is read, after the dependencies have been converted as
    for any document: the source of the record is never set. *)
Theorem many_scripts_abort :
  forall (d : Document) (w : World),
    (1 < length (scripts d))%nat ->
    let jsUrl := htmlUrlToJs (doc_url d) None in
    let converter := fst (new_converter d w) in
    let w' := snd (new_converter d w) in
    let s := {| this := converter; world := w' |} in
    program converter = None
    /\ console w'
       = (console w ++ [ConsoleLog "multiple scripts"])%list
    /\ modules (analysisConverter w') !! jsUrl = Some (module converter)
    /\ moduleObjects w' !! module converter
       = Some {| url := jsUrl; source := ""; exports := [];
                 importedReferences := [] |}
    /\ (forall u, u <> jsUrl ->
          modules (analysisConverter w') !! u
          = modules (analysisConverter w) !! u)
    /\ (forall r m,
          moduleObjects w !! r = Some m -> moduleObjects w' !! r = Some m)
    /\ namespacedExports (analysisConverter w')
       = namespacedExports (analysisConverter w)
    /\ conversion s = (Throw missing_program_error, snd (dependencies s))
    /\ this (snd (dependencies s)) = converter
    /\ (getHtmlImports s = [] ->
        conversion s = (Throw missing_program_error, s)).
Proof.
  intros d w Hmany jsUrl converter w' s.
  subst converter w' s. rewrite new_converter_many_scripts by done.
  cbn [fst snd program module console console_write registeredBy
       analysisConverter modules moduleObjects namespacedExports].
  fold jsUrl.
  split; [done|]. split; [done|].
  split; [by rewrite lookup_insert_eq|].
  split.
  { rewrite lookup_app_r by done. by rewrite Nat.sub_diag. }
  split; [by intros u Hu; rewrite lookup_insert_ne|].
  split; [by intros r m Hr; apply lookup_app_l_Some|].
  split; [done|].
  set (s := {| this := _; world := _ |}).
  assert (Hconv : conversion s
                  = (Throw missing_program_error, snd (dependencies s))).
  { unfold convert. unfold bind at 1.
    unfold convertDependencies at 1. cbn [snd].
    unfold bind at 1, unwrapModuleBody, bind, program_body.
    reflexivity. }
  split; [exact Hconv|]. split; [reflexivity|].
  intros Hnone. rewrite Hconv. f_equal.
  unfold convertDependencies. cbn [snd]. rewrite Hnone.
  apply with_world_id.
Qed.
End Registry.

Lemma many_scripts_abort_witness :
  convert jsUrlOf printNothing convertNothing noPhase noPhase noPhase
    (fun _ => noPhase) noPhase
    {| this := fst (new_DocumentConverter jsUrlOf parseNothing twoScripts
                      emptyWorld);
       world := snd (new_DocumentConverter jsUrlOf parseNothing twoScripts
                       emptyWorld) |}
  = (Throw missing_program_error,
     {| this := fst (new_DocumentConverter jsUrlOf parseNothing twoScripts
                       emptyWorld);
        world := snd (new_DocumentConverter jsUrlOf parseNothing twoScripts
                        emptyWorld) |})
  /\ moduleObjects
       (snd (new_DocumentConverter jsUrlOf parseNothing twoScripts
               emptyWorld))
       !! 0%nat
     = Some {| url := "two.html.js"; source := ""; exports := [];
               importedReferences := [] |}
  /\ console
       (snd (new_DocumentConverter jsUrlOf parseNothing twoScripts
               emptyWorld))
     = [ConsoleLog "multiple scripts"].
Proof.
  pose proof (many_scripts_abort jsUrlOf parseNothing printNothing
                convertNothing noPhase noPhase noPhase (fun _ => noPhase)
                noPhase twoScripts emptyWorld ltac:(simpl; lia))
    as (_ & Hlog & _ & Hrecord & _ & _ & _ & _ & _ & Hthrow).
  split; [exact (Hthrow eq_refl)|]. split; [exact Hrecord|exact Hlog].
Defined.

(** ** The loop runs to its end

    [rewriteNamespaceExports_loop] is given [turns_needed] turns. Each turn
    that does not throw brings the cursor one statement closer to the end
    of the body, or leaves it before the body, where the next turn throws:
    the loop stops because its condition fails or because a turn throws,
    never for want of turns. *)

Lemma splice_length_delete_one {A} (l : list A) i items :
  i < Z.of_nat (length l) ->
  (0 < length l)%nat ->
  Z.of_nat (length (splice l i 1 items))
  = Z.of_nat (length l) - 1 + Z.of_nat (length items).
Proof.
  intros Hi Hl. unfold splice.
  rewrite !length_app, length_take, length_drop.
  destruct (Z.ltb_spec i 0); lia.
Qed.

Lemma splice_length_le {A} (l : list A) i :
  Z.of_nat (length (splice l i 1 [])) <= Z.of_nat (length l).
Proof.
  unfold splice. rewrite !length_app, length_take, length_drop. simpl.
  destruct (Z.ltb_spec i 0); lia.
Qed.

Lemma indexOf_from_lt body statement i :
  indexOf_from body statement i < i + Z.of_nat (length body)
  \/ (indexOf_from body statement i = -1).
Proof.
  revert i. induction body as [|st body IH]; intros i; [by right|].
  cbn [indexOf_from length]. destruct (Node_eqb st statement).
  - left. lia.
  - destruct (IH (i + 1)) as [H|H]; [left; lia|by right].
Qed.

Lemma indexOf_lt body statement :
  (0 < length body)%nat -> indexOf body statement < Z.of_nat (length body).
Proof.
  intros H. unfold indexOf.
  destruct (indexOf_from_lt body statement 0) as [H'|H']; lia.
Qed.

Lemma rewriteNamespaceObject_result s pl body name node statement r s' :
  hasBody s pl body ->
  (0 < length body)%nat ->
  rewriteNamespaceObject name node statement s = (r, s') ->
  (exists e, r = Throw e)
  \/ exists body' n,
       hasBody s' pl body'
       /\ size body' = size body - 1 + n
       /\ cursor s' = cursor s + (n - 1)
       /\ 0 <= n.
Proof.
  intros Hp Hl H.
  assert (Hlower : forall cfg r s',
    lowerNamespace name statement (getNamespaceExports node cfg) s
    = (r, s') ->
    (exists e, r = Throw e)
    \/ exists body' n,
         hasBody s' pl body'
         /\ size body' = size body - 1 + n
         /\ cursor s' = cursor s + (n - 1)
         /\ 0 <= n).
  { clear H r s'. intros cfg r s' H.
    destruct node as
      [| | | | | | | | | | | | | | | | | | | | | | l properties | | | | | | ];
      try (left; cbn in H; injection H as <- _; by eexists).
    destruct (lowerNamespace_ok s pl body name l properties statement cfg
                Hp) as (s1 & E & P & C).
    rewrite E in H. injection H as <- <-. right.
    eexists. eexists. split; [exact P|].
    split; [|split; [exact C|lia]].
    unfold size. rewrite splice_length_delete_one, length_map;
      [reflexivity| by apply indexOf_lt | done]. }
  unfold rewriteNamespaceObject, bind at 1, get in H.
  destruct (readMutableExports _ _); try by eapply Hlower.
  destruct node; try by eapply Hlower.
  destruct (warningsBeforeConsulting properties); [|by eapply Hlower].
  left. unfold bind, modify, throw in H. injection H as <- _. by eexists.
Qed.

Lemma export_branch_Ok s pl body statement namespaceName name
    (locals : Locals) :
  hasBody s pl body ->
  exists s',
    (replaceCurrentStatement statement ;;;
     addExport namespaceName name ;;; ret locals) s
    = (Ok locals, s')
    /\ hasBody s' pl (set_index body (cursor s) statement)
    /\ cursor s' = cursor s.
Proof.
  intros Hp.
  rewrite (bind_Ok _ _ _ _ _ (replaceCurrentStatement_Ok s pl body _ Hp)).
  unfold bind, addExport, modify, ret. eexists. split; [reflexivity|].
  split; reflexivity.
Qed.

Lemma advance_Ok (m : M Locals) s locals s1 :
  m s = (Ok locals, s1) ->
  (locals' <- m ;;
   modify (with_this (fun t =>
     set_currentStatementIndex (currentStatementIndex t + 1) t)) ;;;
   ret locals') s
  = (Ok locals,
     with_this (fun t =>
       set_currentStatementIndex (currentStatementIndex t + 1) t) s1).
Proof. intros H. by rewrite (bind_Ok _ _ _ _ _ H). Qed.

Lemma advance_Throw (m : M Locals) s e s1 :
  m s = (Throw e, s1) ->
  (locals' <- m ;;
   modify (with_this (fun t =>
     set_currentStatementIndex (currentStatementIndex t + 1) t)) ;;;
   ret locals') s
  = (Throw e, s1).
Proof. apply bind_Throw. Qed.

Lemma at_index_in_range {A} (l : list A) i :
  0 <= i < Z.of_nat (length l) -> exists x, at_index l i = Some x.
Proof.
  intros [H0 H1]. unfold at_index.
  destruct (Z.ltb_spec i 0); [lia|].
  apply lookup_lt_is_Some_2. lia.
Qed.

Lemma ret_preserved (L locals1 : Locals) s s1 pl body :
  hasBody s pl body ->
  ret L s = (Ok locals1, s1) -> preserved pl body s s1.
Proof. intros Hp [= _ <-]. exists body. split; [done|by left]. Qed.

Lemma export_branch_preserved s pl body statement namespaceName name
    (L locals1 : Locals) s1 :
  hasBody s pl body ->
  (replaceCurrentStatement statement ;;;
   addExport namespaceName name ;;; ret L) s = (Ok locals1, s1) ->
  preserved pl body s s1.
Proof.
  intros Hp H.
  destruct (export_branch_Ok s pl body statement namespaceName name L Hp)
    as (s2 & E & P & C).
  rewrite E in H. injection H as _ <-.
  eexists. split; [exact P|]. left. unfold size, set_index.
  rewrite length_insert. lia.
Qed.

Lemma declaration_branch_preserved s pl body statement (L locals1 : Locals)
    s1 :
  hasBody s pl body ->
  (replaceCurrentStatement statement ;;; ret L) s = (Ok locals1, s1) ->
  preserved pl body s s1.
Proof.
  intros Hp H.
  rewrite (bind_Ok _ _ _ _ _ (replaceCurrentStatement_Ok s pl body _ Hp))
    in H.
  injection H as _ <-.
  eexists. split; [reflexivity|]. left. unfold size, set_index, cursor.
  rewrite length_insert. cbn. lia.
Qed.

Lemma object_branch_preserved s pl body name node statement
    (L locals1 : Locals) s1 :
  hasBody s pl body ->
  0 <= cursor s < size body ->
  (rewriteNamespaceObject name node statement ;;; ret L) s
  = (Ok locals1, s1) ->
  preserved pl body s s1.
Proof.
  intros Hp Hc H. unfold bind at 1 in H.
  destruct (rewriteNamespaceObject name node statement s) as [[[]|e] s2]
    eqn:E; [|discriminate].
  injection H as _ <-.
  destruct (rewriteNamespaceObject_result _ _ _ _ _ _ _ _ Hp
              ltac:(unfold size in Hc; lia) E)
    as [(e & He)|(body' & n & P & S & C & Hn)]; [discriminate|].
  exists body'. split; [exact P|]. left. lia.
Qed.

Lemma alias_branch_preserved s pl body name nsNode nsParent
    (L locals1 : Locals) s1 :
  hasBody s pl body ->
  0 <= cursor s < size body ->
  (rewriteNamespaceObject name nsNode nsParent ;;;
   s' <- get ;;
   body' <- program_body ;;
   set_program_body (splice body' (currentStatementIndex (this s')) 1 []) ;;;
   modify (with_this (fun t =>
     set_currentStatementIndex (currentStatementIndex t - 1) t)) ;;;
   ret L) s
  = (Ok locals1, s1) ->
  preserved pl body s s1.
Proof.
  intros Hp Hc H. unfold bind at 1 in H.
  destruct (rewriteNamespaceObject name nsNode nsParent s) as [[[]|e] s2]
    eqn:E; [|discriminate].
  destruct (rewriteNamespaceObject_result _ _ _ _ _ _ _ _ Hp
              ltac:(unfold size in Hc; lia) E)
    as [(e & He)|(body2 & n & P & S & C & Hn)]; [discriminate|].
  rewrite (bind_Ok get _ s2 s2 s2 eq_refl) in H.
  rewrite (bind_Ok _ _ _ _ _ (program_body_Ok s2 pl body2 P)) in H.
  rewrite (bind_Ok _ _ _ _ _ (set_program_body_Ok s2 pl body2 _ P)) in H.
  unfold bind, modify, ret in H. injection H as _ <-.
  eexists. split; [reflexivity|].
  unfold cursor, size in *.
  cbn [with_this this set_program set_currentStatementIndex
       currentStatementIndex].
  destruct (Z.ltb_spec (currentStatementIndex (this s2)) 0) as [Hneg|Hpos].
  - right. lia.
  - left. rewrite splice_length_delete_one by lia. simpl. lia.
Qed.

Lemma throw_not_Ok {A} e s (a : A) s1 : throw e s = (Ok a, s1) -> False.
Proof. discriminate. Qed.

Ltac close_branch Hp Hc H :=
  first
    [ exact (ret_preserved _ _ _ _ _ _ Hp H)
    | exact (export_branch_preserved _ _ _ _ _ _ _ _ _ Hp H)
    | exact (declaration_branch_preserved _ _ _ _ _ _ _ Hp H)
    | exact (object_branch_preserved _ _ _ _ _ _ _ _ _ Hp Hc H)
    | exact (alias_branch_preserved _ _ _ _ _ _ _ _ _ Hp Hc H)
    | exfalso; exact (throw_not_Ok _ _ _ _ H) ].

Ltac split_branch H :=
  match type of H with
  | context [match ?x with _ => _ end] =>
      match x with
      | context [match _ with _ => _ end] => fail 1
      | _ => destruct x eqn:?
      end
  | context [if ?x then _ else _] =>
      match x with
      | context [if _ then _ else _] => fail 1
      | _ => destruct x eqn:?
      end
  end.

Lemma turn_body_preserved s pl body locals statement locals1 s1 :
  hasBody s pl body ->
  0 <= cursor s < size body ->
  match getExport statement (namespaces (analysisConverter (world s))) with
  | Some exported =>
      let namespace := namespace exported in
      let value := exported_value exported in
      let namespaceName := join "." namespace in
      if isNamespace (this s) statement &&
         String.eqb (type value) "ObjectExpression"
      then
        rewriteNamespaceObject namespaceName value statement ;;;
        ret {| localNamespaceName := Some namespaceName;
               namespaceName := Some namespaceName |}
      else if String.eqb (type value) "Identifier" then
        let features :=
          getFeaturesById (features (document (this s))) namespaceName in
        let referencedFeature :=
          List.find
            (fun f => bool_decide (namespaceName ∈ identifiers f))
            features in
        match referencedFeature with
        | Some namespaceFeature =>
            if bool_decide ("namespace" ∈ kinds namespaceFeature)
            then
              match getNode (this s) (astNode namespaceFeature) with
              | None =>
                  throw (JsError "can't find associated node for namespace")
              | Some (LocatedProperty _) | Some (LocatedElement _) =>
                  throw (TypeError "nsParent.expression.right")
              | Some (LocatedNode nsParent) =>
                  match namespaceObjectOf nsParent with
                  | Throw e => throw e
                  | Ok nsNode =>
                      rewriteNamespaceObject namespaceName nsNode nsParent ;;;
                      s' <- get ;;
                      body' <- program_body ;;
                      set_program_body
                        (splice body' (currentStatementIndex (this s')) 1
                           []) ;;;
                      modify (with_this (fun t =>
                        set_currentStatementIndex
                          (currentStatementIndex t - 1) t)) ;;;
                      ret {| localNamespaceName := localNamespaceName locals;
                             namespaceName := Some namespaceName |}
                  end
              end
            else
              replaceCurrentStatement
                (jsc.exportNamedDeclaration None
                   [jsc.exportSpecifier value
                      (jsc.identifier (last_segment namespace))]) ;;;
              addExport namespaceName (last_segment namespace) ;;;
              ret {| localNamespaceName := localNamespaceName locals;
                     namespaceName := Some namespaceName |}
        | None =>
            replaceCurrentStatement
              (jsc.exportNamedDeclaration None
                 [jsc.exportSpecifier value
                    (jsc.identifier (last_segment namespace))]) ;;;
            addExport namespaceName (last_segment namespace) ;;;
            ret {| localNamespaceName := localNamespaceName locals;
                   namespaceName := Some namespaceName |}
        end
      else if isDeclaration value then
        replaceCurrentStatement (jsc.exportDeclaration false value) ;;;
        ret {| localNamespaceName := localNamespaceName locals;
               namespaceName := Some namespaceName |}
      else
        let special := String.eqb namespaceName "Polymer._polymerFn" in
        let namespaceName := if special then "Polymer" else namespaceName in
        let name := if special then "Polymer" else last_segment namespace in
        replaceCurrentStatement (exportConst name value) ;;;
        addExport namespaceName name ;;;
        ret {| localNamespaceName := localNamespaceName locals;
               namespaceName := Some namespaceName |}
  | None =>
      if isNamespace (this s) statement &&
         String.eqb (type statement) "VariableDeclaration"
      then
        match statement with
        | VariableDeclaration _ _
            (VariableDeclarator _ (Identifier _ name) _ :: _) =>
            ret {| localNamespaceName := Some name;
                   namespaceName := namespaceName locals |}
        | VariableDeclaration _ _ (VariableDeclarator _ _ _ :: _) =>
            ret locals
        | _ => throw (TypeError "declarator.id.type")
        end
      else
        match truthy (localNamespaceName locals) with
        | Some local =>
            match getExport statement {[ local ]} with
            | Some namespaceAssignment =>
                let namespace := namespace namespaceAssignment in
                let value := exported_value namespaceAssignment in
                let name := last_segment namespace in
                let namespaceName := join "." namespace in
                replaceCurrentStatement (exportConst name value) ;;;
                addExport namespaceName name ;;;
                ret {| localNamespaceName := localNamespaceName locals;
                       namespaceName := Some namespaceName |}
            | None => ret locals
            end
        | None => ret locals
        end
  end s = (Ok locals1, s1) ->
  preserved pl body s s1.
Proof.
  intros Hp Hc H. cbv zeta in H.
  repeat (first [close_branch Hp Hc H | split_branch H]).
Qed.

Lemma turn_progress s pl body locals r s' :
  hasBody s pl body ->
  0 <= cursor s < size body ->
  rewriteNamespaceExports_turn locals s = (r, s') ->
  (exists e, r = Throw e) \/ progressed pl body s s'.
Proof.
  intros Hp Hc H.
  destruct (at_index_in_range body (cursor s) Hc) as (statement & Hat).
  unfold rewriteNamespaceExports_turn in H.
  rewrite (bind_Ok get _ s s s eq_refl) in H.
  rewrite (bind_Ok _ _ _ _ _ (program_body_Ok s pl body Hp)) in H.
  unfold cursor in Hat. rewrite Hat in H.
  unfold bind at 1 in H.
  match type of H with
  | (let (_, _) := ?m s in _) = _ =>
      destruct (m s) as [[locals1|e] s1] eqn:Hm
  | match ?m s with _ => _ end = _ =>
      destruct (m s) as [[locals1|e] s1] eqn:Hm
  end.
  - apply (turn_body_preserved s pl body locals statement locals1 s1 Hp Hc)
      in Hm.
    destruct Hm as (body1 & P & Hmeasure).
    unfold bind, modify, ret in H. injection H as _ <-.
    right. exists body1. split; [exact P|].
    unfold cursor in *.
    cbn [with_this this set_currentStatementIndex currentStatementIndex].
    lia.
  - left. injection H as <- _. by eexists.
Qed.

Lemma turn_before_body_throws s pl body locals :
  hasBody s pl body ->
  cursor s < 0 ->
  rewriteNamespaceExports_turn locals s
  = (Throw (TypeError "statement.type"), s).
Proof.
  intros Hp Hc. unfold rewriteNamespaceExports_turn.
  rewrite (bind_Ok get _ s s s eq_refl).
  rewrite (bind_Ok _ _ _ _ _ (program_body_Ok s pl body Hp)).
  unfold at_index, cursor in *.
  by replace (currentStatementIndex (this s) <? 0) with true
    by (symmetry; apply Z.ltb_lt; lia).
Qed.

Lemma loop_runs_to_end pl fuel :
  forall s locals body r s',
    hasBody s pl body ->
    (cursor s < 0 -> (1 <= fuel)%nat) ->
    (0 <= cursor s ->
     size body - cursor s + 1 <= Z.of_nat fuel \/ size body <= cursor s) ->
    rewriteNamespaceExports_loop fuel locals s = (r, s') ->
    (exists e, r = Throw e)
    \/ exists body', hasBody s' pl body' /\ size body' <= cursor s'.
Proof.
  induction fuel as [|fuel IH]; intros s locals body r s' Hp Hneg Hpos H.
  - cbn [rewriteNamespaceExports_loop] in H.
    rewrite (bind_Ok get _ s s s eq_refl) in H.
    rewrite (bind_Ok _ _ _ _ _ (program_body_Ok s pl body Hp)) in H.
    fold (cursor s) in H. fold (size body) in H.
    destruct (Z.ltb_spec (cursor s) (size body)) as [Hlt|Hge].
    + exfalso. destruct (Z.lt_ge_cases (cursor s) 0) as [Hn|Hn].
      * specialize (Hneg Hn). lia.
      * specialize (Hpos Hn). lia.
    + injection H as _ <-. right. by exists body.
  - cbn [rewriteNamespaceExports_loop] in H.
    rewrite (bind_Ok get _ s s s eq_refl) in H.
    rewrite (bind_Ok _ _ _ _ _ (program_body_Ok s pl body Hp)) in H.
    fold (cursor s) in H. fold (size body) in H.
    destruct (Z.ltb_spec (cursor s) (size body)) as [Hlt|Hge].
    + destruct (Z.lt_ge_cases (cursor s) 0) as [Hn|Hn].
      * rewrite (bind_Throw _ _ _ _ _
                   (turn_before_body_throws s pl body locals Hp Hn)) in H.
        left. injection H as <- _. by eexists.
      * unfold bind at 1 in H.
        destruct (rewriteNamespaceExports_turn locals s)
          as [[locals1|e] s1] eqn:Hturn.
        -- destruct (turn_progress s pl body locals _ _ Hp
                       (conj Hn Hlt) Hturn)
             as [(e & He)|(body1 & P1 & Hm)]; [discriminate|].
           specialize (Hpos Hn).
           apply (IH s1 locals1 body1 r s' P1); [lia|lia|exact H].
        -- left. injection H as <- _. by eexists.
    + injection H as _ <-. right. by exists body.
Qed.

(** The loop of [rewriteNamespaceExports] is never cut short: it ends with
    a thrown error or with the cursor at or past the end of the body. *)
Theorem rewriteNamespaceExports_runs_to_end :
  forall (s : State) (pl : Loc) (body : list Node) (r : result Locals)
         (s' : State),
    hasBody s pl body ->
    0 <= cursor s ->
    rewriteNamespaceExports s = (r, s') ->
    (exists e, r = Throw e)
    \/ exists body', hasBody s' pl body' /\ size body' <= cursor s'.
Proof.
  intros s pl body r s' Hp Hc H.
  unfold rewriteNamespaceExports in H.
  rewrite (bind_Ok get _ s s s eq_refl) in H.
  eapply loop_runs_to_end; [exact Hp| | |exact H].
  - lia.
  - intros _. unfold turns_needed. rewrite Hp. fold (size body).
    fold (cursor s). lia.
Qed.

(** * Further properties *)

(** ** Identifiers made for imports *)

Lemma toUpperCase_not_lower a : is_lower (toUpperCase a) = false.
Proof.
  destruct a as [[] [] [] [] [] [] [] []]; reflexivity.
Qed.

Lemma dashToCamelCase_cons a b rest :
  dashToCamelCase (String a (String b rest))
  = if Ascii.eqb a "-"%char && is_lower b
    then String (toUpperCase b) (dashToCamelCase rest)
    else String a (dashToCamelCase (String b rest)).
Proof. reflexivity. Qed.

Lemma dashToCamelCase_facts n :
  forall s,
    (String.length s <= n)%nat ->
    hasDashLower (dashToCamelCase s) = false
    /\ (headLower (dashToCamelCase s) = true -> headLower s = true).
Proof.
  induction n as [|n IH]; intros s Hn.
  - destruct s; [done|]. simpl in Hn. lia.
  - destruct s as [|a [|b rest]]; [done|done|].
    rewrite dashToCamelCase_cons.
    destruct (Ascii.eqb a "-"%char && is_lower b) eqn:E.
    + destruct (IH rest) as [H1 H2]; [simpl in *; lia|].
      split.
      * cbn [hasDashLower].
        destruct (dashToCamelCase rest) as [|c rest'] eqn:Er; [done|].
        rewrite H1, orb_false_r.
        destruct (Ascii.eqb_spec (toUpperCase b) "-"%char) as [Hb|Hb];
          [|done].
        apply andb_true_iff in E as [_ E].
        exfalso. clear -Hb E.
        destruct b as [[] [] [] [] [] [] [] []]; discriminate.
      * cbn [headLower]. by rewrite toUpperCase_not_lower.
    + destruct (IH (String b rest)) as [H1 H2]; [simpl in *; lia|].
      split; [|done].
      cbn [hasDashLower].
      destruct (dashToCamelCase (String b rest)) as [|c rest'] eqn:Er;
        [done|].
      rewrite H1, orb_false_r.
      destruct (Ascii.eqb a "-"%char) eqn:Ea; [|done].
      cbn [andb] in *. cbn [headLower] in H2.
      destruct (is_lower c) eqn:Ec; [|done].
      rewrite H2 in E; done.
Qed.

Lemma dashToCamelCase_no_match s :
  hasDashLower s = false -> dashToCamelCase s = s.
Proof.
  induction s as [|a s IH]; [done|].
  destruct s as [|b rest]; [done|].
  intros H. cbn [hasDashLower] in H.
  apply orb_false_elim in H as [H1 H2].
  rewrite dashToCamelCase_cons, H1. by rewrite IH.
Qed.

(** The camel-cased name has no dash before a lower-case letter left, so
    camel-casing it again changes nothing. *)
Theorem dashToCamelCase_idempotent :
  forall s : string,
    hasDashLower (dashToCamelCase s) = false
    /\ dashToCamelCase (dashToCamelCase s) = dashToCamelCase s.
Proof.
  intros s.
  destruct (dashToCamelCase_facts (String.length s) s) as [H _]; [lia|].
  split; [exact H|]. by apply dashToCamelCase_no_match.
Qed.

Lemma includes_list c s :
  includes c s = false <->
  Forall (fun a => Ascii.eqb a c = false) (list_ascii_of_string s).
Proof.
  induction s as [|a s IH]; cbn [includes list_ascii_of_string].
  - split; [constructor|done].
  - rewrite orb_false_iff, Forall_cons. by rewrite IH.
Qed.

Lemma list_ascii_of_string_app s t :
  list_ascii_of_string (s +:+ t)
  = (list_ascii_of_string s ++ list_ascii_of_string t)%list.
Proof.
  induction s as [|a s IH]; [done|].
  rewrite append_cons. cbn [list_ascii_of_string app]. by rewrite IH.
Qed.

Lemma drop_while_head {A} (f : A -> bool) x l :
  f x = false -> drop_while f (x :: l) = x :: l.
Proof. intros H. cbn. by rewrite H. Qed.

Lemma take_while_all {A} (f : A -> bool) l :
  Forall (fun x => f x = true) l -> take_while f l = l.
Proof. induction 1 as [|x l Hx _ IH]; cbn; [done|]. by rewrite Hx, IH. Qed.

Lemma take_while_until {A} (f : A -> bool) l x r :
  Forall (fun x => f x = true) l -> f x = false ->
  take_while f (l ++ x :: r)%list = l.
Proof.
  intros Hl Hx. induction Hl as [|y l Hy _ IH]; cbn.
  - by rewrite Hx.
  - by rewrite Hy, IH.
Qed.

Lemma Forall_rev_list {A} (P : A -> Prop) l : Forall P l -> Forall P (rev l).
Proof.
  induction 1 as [|x l Hx _ IH]; [constructor|].
  cbn [rev]. apply Forall_app. split; [done|]. by constructor.
Qed.

Lemma basename_plain file :
  includes "/"%char file = false -> basename file = file.
Proof.
  intros H. apply includes_list in H. unfold basename.
  set (l := list_ascii_of_string file) in *.
  assert (Hrev : Forall (fun a => is_slash a = false) (rev l)).
  { by apply Forall_rev_list. }
  assert (Hdrop : drop_while is_slash (rev l) = rev l).
  { destruct (rev l) as [|a r] eqn:E; [done|].
    apply drop_while_head. by inversion Hrev. }
  rewrite Hdrop, take_while_all.
  - rewrite rev_involutive. apply string_of_list_ascii_of_string.
  - eapply Forall_impl; [exact Hrev|]. intros a Ha. cbn. by rewrite Ha.
Qed.

Lemma basename_in_directory dir file :
  includes "/"%char file = false ->
  file <> "" ->
  basename (dir +:+ "/" +:+ file) = file.
Proof.
  intros H Hne. apply includes_list in H. unfold basename.
  rewrite !list_ascii_of_string_app.
  set (l := list_ascii_of_string file) in *.
  set (d := list_ascii_of_string dir).
  change (list_ascii_of_string "/") with ["/"%char].
  rewrite !rev_app_distr. cbn [rev app].
  assert (Hl : l <> []).
  { subst l. destruct file; [done|discriminate]. }
  assert (Hrev : Forall (fun a => is_slash a = false) (rev l)).
  { by apply Forall_rev_list. }
  destruct (rev l) as [|a r] eqn:E.
  { apply (f_equal (@rev ascii)) in E. rewrite rev_involutive in E. done. }
  cbn [app]. rewrite drop_while_head by by inversion Hrev.
  rewrite <- app_assoc. cbn [app].
  rewrite app_comm_cons, take_while_until.
  - rewrite <- E, rev_involutive. apply string_of_list_ascii_of_string.
  - eapply Forall_impl; [exact Hrev|]. intros x Hx. cbn. by rewrite Hx.
  - reflexivity.
Qed.

(** The module identifier is made from the file name alone: files of the
    same name in different directories get the same identifier. *)
Theorem getModuleId_ignores_directories :
  forall dir file : string,
    includes "/"%char file = false ->
    file <> "" ->
    getModuleId (dir +:+ "/" +:+ file) = getModuleId file.
Proof.
  intros dir file H Hne. unfold getModuleId.
  by rewrite basename_in_directory, basename_plain.
Qed.

Lemma getModuleId_ignores_directories_witness :
  getModuleId ("../polymer/lib" +:+ "/" +:+ "case-map.js")
  = getModuleId "case-map.js".
Proof.
  exact (getModuleId_ignores_directories "../polymer/lib" "case-map.js"
           eq_refl ltac:(discriminate)).
Defined.

Lemma lastIndexOf_from_absent c s i found :
  includes c s = false -> lastIndexOf_from c s i found = found.
Proof.
  revert i found. induction s as [|a s IH]; intros i found; [done|].
  cbn [includes lastIndexOf_from]. intros H.
  apply orb_false_elim in H as [H1 H2]. rewrite H1. by apply IH.
Qed.

(** A file name without a dot has no main name: the module identifier is
    the bare prefix, the same for every such file. *)
Theorem getModuleId_without_extension :
  forall url : string,
    includes "."%char (basename url) = false ->
    getModuleId url = "$$".
Proof.
  intros url H. unfold getModuleId, lastIndexOf.
  rewrite lastIndexOf_from_absent by done.
  by destruct (basename url).
Qed.

Lemma getModuleId_without_extension_witness :
  getModuleId "../bower_components/polymer" = "$$".
Proof.
  exact (getModuleId_without_extension "../bower_components/polymer"
           eq_refl).
Defined.

Lemma append_inj_l s t u : s +:+ t = s +:+ u -> t = u.
Proof.
  induction s as [|a s IH]; [done|].
  rewrite !append_cons. intros [= H]. by apply IH.
Qed.

(** Import aliases do not collide: different names have different aliases,
    and the alias of a name that does not begin with a dollar sign is not
    the identifier of any module. *)
Theorem import_aliases_do_not_collide :
  (forall a b : string, getImportAlias a = getImportAlias b -> a = b)
  /\ (forall name url : string,
        startsWithDollar name = false ->
        getImportAlias name <> getModuleId url).
Proof.
  split.
  - intros a b H. by apply (append_inj_l "$").
  - intros name url Hd H. unfold getImportAlias, getModuleId in H.
    change ("$$" +:+ ?x) with ("$" +:+ ("$" +:+ x)) in H.
    apply append_inj_l in H. subst name. discriminate.
Qed.

(** ** Source locations *)

Lemma locationsEqual_spec a b :
  locationsEqual a b = true <->
  start_column a = start_column b /\ start_line a = start_line b
  /\ end_column a = end_column b /\ end_line a = end_line b.
Proof.
  unfold locationsEqual. rewrite !andb_true_iff, !Z.eqb_eq. tauto.
Qed.

Lemma sameLocation_refl l : sameLocation l l = true.
Proof. destruct l as [l|]; [|done]. cbn. by apply locationsEqual_spec. Qed.

Lemma sameLocation_sym a b : sameLocation a b = sameLocation b a.
Proof.
  destruct a as [a|], b as [b|]; try done. cbn.
  apply eq_true_iff_eq. rewrite !locationsEqual_spec. intuition congruence.
Qed.

Lemma sameLocation_trans a b c :
  sameLocation a b = true -> sameLocation b c = true ->
  sameLocation a c = true.
Proof.
  destruct a as [a|], b as [b|], c as [c|]; try done. cbn.
  rewrite !locationsEqual_spec. intuition congruence.
Qed.

(** Being at the same source location is an equivalence of nodes:
    every node is where it is, the order of the two nodes does not matter,
    and two nodes that are where a third one is are at the same location. *)
Theorem sourceLocationsEqual_equivalence :
  (forall a, sourceLocationsEqual a a = true)
  /\ (forall a b, sourceLocationsEqual a b = sourceLocationsEqual b a)
  /\ (forall a b c,
        sourceLocationsEqual a b = true ->
        sourceLocationsEqual b c = true ->
        sourceLocationsEqual a c = true).
Proof.
  unfold sourceLocationsEqual. split; [|split].
  - intros a. apply sameLocation_refl.
  - intros a b. apply sameLocation_sym.
  - intros a b c. apply sameLocation_trans.
Qed.

(** ** Raw text of a markup literal *)

Lemma escapedOnly_escapeEach s : escapedOnly (escapeEach s) = true.
Proof.
  induction s as [|a s IH]; [done|].
  cbn [escapeEach]. unfold escapeCodeUnit.
  destruct (Ascii.eqb a backslash) eqn:Ebs.
  - cbn [orb]. rewrite !append_cons. cbn [escapedOnly].
    rewrite Ascii.eqb_refl. exact IH.
  - destruct (Ascii.eqb a backtick) eqn:Ebt.
    + cbn [orb]. rewrite !append_cons. cbn [escapedOnly].
      rewrite Ascii.eqb_refl. exact IH.
    + destruct (Ascii.eqb a dollar) eqn:Ed.
      * cbn [orb]. rewrite !append_cons. cbn [escapedOnly].
        rewrite Ascii.eqb_refl. exact IH.
      * cbn [orb]. rewrite append_cons. cbn [escapedOnly].
        rewrite Ebs, Ebt, Ed. exact IH.
Qed.

(** The raw text of a markup literal cannot end the literal or start an
    interpolation: every backtick and every dollar sign in it follows an
    escaping backslash, whatever the markup is. Read back, it is the cooked
    text, so different markup never gives the same raw text. *)
Theorem markup_literal_is_closed :
  forall (ASTNode : Type) (parse5_serialize : ASTNode -> string)
         (node : ASTNode) (addNewlines : bool),
    exists q,
      nodeToTemplateLiteral ASTNode parse5_serialize node addNewlines
      = TemplateLiteral None [q] []
      /\ cooked q = cookedOfNode ASTNode parse5_serialize node addNewlines
      /\ escapedOnly (raw q) = true
      /\ cookRaw (raw q) = cooked q.
Proof.
  intros ASTNode parse5_serialize node addNewlines.
  eexists. split; [reflexivity|]. cbn [cooked raw jsc.templateElement].
  split; [reflexivity|]. split.
  - rewrite rawOfCooked_escapeEach. apply escapedOnly_escapeEach.
  - apply cookRaw_rawOfCooked.
Qed.

(** Escaping loses nothing: two texts with the same raw text are the same
    text. *)
Theorem rawOfCooked_injective :
  forall s t : string, rawOfCooked s = rawOfCooked t <-> s = t.
Proof.
  intros s t. split; [|by intros ->].
  intros H. apply (f_equal cookRaw) in H.
  by rewrite !cookRaw_rawOfCooked in H.
Qed.

(** ** Registrations *)

Lemma set_add_elem s x y : y ∈ set_add s x <-> y ∈ s \/ y = x.
Proof.
  unfold set_add, set_has. case_bool_decide as H.
  - split; [by left|]. by intros [Hy| ->].
  - rewrite elem_of_app, list_elem_of_singleton. tauto.
Qed.

Lemma set_add_NoDup s x : NoDup s -> NoDup (set_add s x).
Proof.
  intros Hs. unfold set_add, set_has. case_bool_decide as H; [done|].
  apply NoDup_app. split; [done|]. split.
  - intros y Hy Hx. apply list_elem_of_singleton in Hx. by subst.
  - apply NoDup_singleton.
Qed.

(** Registering an export under a namespace path that is registered puts
    the new export in the place of the old one, without an error; the
    module's set of exported names keeps both names, each once. Other
    paths, the program and the cursor are untouched. *)
Theorem addExport_last_wins :
  forall (s : State) (path a b : string),
    exists s',
      (addExport path a ;;; addExport path b) s = (Ok tt, s')
      /\ this s' = this s
      /\ namespacedExports (analysisConverter (world s')) !! path
         = Some {| export_url := jsUrl (this s); exported_as := b |}
      /\ (forall other, other <> path ->
            namespacedExports (analysisConverter (world s')) !! other
            = namespacedExports (analysisConverter (world s)) !! other)
      /\ (forall m,
            moduleObjects (world s) !! module (this s) = Some m ->
            exists m',
              moduleObjects (world s') !! module (this s) = Some m'
              /\ (forall x, x ∈ exports m' <-> x ∈ exports m \/ x = a \/ x = b)
              /\ (NoDup (exports m) -> NoDup (exports m'))
              /\ source m' = source m).
Proof.
  intros s path a b. eexists. split; [reflexivity|].
  cbn [this world with_this with_world with_analysisConverter
       with_moduleObject analysisConverter namespacedExports moduleObjects
       jsUrl module].
  split; [reflexivity|]. split; [by rewrite lookup_insert_eq|]. split.
  - intros other Hne. by rewrite !lookup_insert_ne.
  - intros m Hm. rewrite !list_lookup_alter_eq, Hm. eexists.
    split; [reflexivity|]. cbn [exports source]. split; [|split; [|done]].
    + intros x. rewrite !set_add_elem. tauto.
    + intros Hn. by do 2 apply set_add_NoDup.
Qed.




Lemma memberPath_inj name a b : memberPath name a = memberPath name b -> a = b.
Proof.
  unfold memberPath. intros H. apply append_inj_l in H.
  by apply (append_inj_l ".").
Qed.

Lemma append_length s t :
  String.length (s +:+ t) = (String.length s + String.length t)%nat.
Proof.
  induction s as [|a s IH]; [done|]. rewrite append_cons. cbn. by rewrite IH.
Qed.

Lemma memberPath_not_name name a : memberPath name a <> name.
Proof.
  unfold memberPath. intros H. apply (f_equal String.length) in H.
  rewrite !append_length in H. cbn in H. lia.
Qed.

Lemma forEach_addExport_registers name es :
  forall s,
    exists s',
      forEach es
        (fun e =>
           addExport (name +:+ "." +:+ export_name e) (export_name e)) s
      = (Ok tt, s')
      /\ this s' = this s
      /\ (forall n, n ∈ map export_name es ->
            namespacedExports (analysisConverter (world s'))
              !! memberPath name n
            = Some {| export_url := jsUrl (this s); exported_as := n |})
      /\ (forall k,
            (forall n, n ∈ map export_name es -> k <> memberPath name n) ->
            namespacedExports (analysisConverter (world s')) !! k
            = namespacedExports (analysisConverter (world s)) !! k)
      /\ (forall m,
            moduleObjects (world s) !! module (this s) = Some m ->
            exists m',
              moduleObjects (world s') !! module (this s) = Some m'
              /\ (forall x,
                    x ∈ exports m' <->
                    x ∈ exports m \/ x ∈ map export_name es)
              /\ source m' = source m).
Proof.
  induction es as [|e es IH]; intros s.
  - exists s. split; [reflexivity|]. split; [reflexivity|].
    split; [intros n Hn; by apply elem_of_nil in Hn|].
    split; [done|].
    intros m Hm. exists m. split; [done|]. split; [|done].
    intros x. cbn [map]. rewrite elem_of_nil. tauto.
  - cbn [forEach]. unfold bind at 1.
    set (s1 := snd (addExport (name +:+ "." +:+ export_name e)
                      (export_name e) s)).
    change (addExport (name +:+ "." +:+ export_name e) (export_name e) s)
      with (Ok tt, s1).
    destruct (IH s1) as (s' & E & T & Hin & Hout & Hmod).
    exists s'. split; [exact E|]. split; [by rewrite T|].
    assert (Hurl : jsUrl (this s1) = jsUrl (this s)) by reflexivity.
    assert (Hmodule : module (this s1) = module (this s)) by reflexivity.
    split; [|split].
    + intros n Hn. cbn [map] in Hn.
      destruct (decide (n ∈ map export_name es)) as [Ht|Ht].
      * rewrite Hin by done. by rewrite Hurl.
      * apply elem_of_cons in Hn as [->|Hn]; [|done].
        rewrite Hout.
        -- subst s1. cbn. by rewrite lookup_insert_eq.
        -- intros n' Hn' Heq. apply memberPath_inj in Heq. by subst.
    + intros k Hk. rewrite Hout.
      * subst s1. cbn. rewrite lookup_insert_ne; [done|].
        intros Heq. eapply Hk; [|by symmetry]. cbn [map]. by left.
      * intros n Hn. apply Hk. cbn [map]. by right.
    + intros m Hm.
      destruct (Hmod (withExports (fun x => set_add x (export_name e)) m))
        as (m' & Hm' & Hx & Hs).
      { subst s1. cbn. by rewrite list_lookup_alter_eq, Hm. }
      exists m'. rewrite Hmodule in Hm'. split; [exact Hm'|].
      split; [|exact Hs].
      intros x. rewrite Hx. cbn [withExports exports map].
      rewrite set_add_elem, elem_of_cons. tauto.
Qed.

(** Lowering a namespace object under a name for which the configuration
    holds a list or nothing registers every exported member under the
    namespace path followed by the member's name, and the namespace path
    itself under ['*'], all with this module's URL; no other path of the
    index changes. The module's set of exported names gains the members'
    names and ['*'], and nothing else. *)
Theorem rewriteNamespaceObject_registers :
  forall (s : State) (pl : Loc) (body : list Node) (name : string) (l : Loc)
         (properties : list (Property Node)) (statement : Node),
    hasBody s pl body ->
    configuredPlainly (this_mutableExports (this s)) name ->
    let members :=
      exportedMembers properties (this_mutableExports (this s) !! name) in
    exists s',
      rewriteNamespaceObject name (ObjectExpression l properties) statement s
      = (Ok tt, s')
      /\ namespacedExports (analysisConverter (world s')) !! name
         = Some {| export_url := jsUrl (this s); exported_as := "*" |}
      /\ (forall n, n ∈ members ->
            namespacedExports (analysisConverter (world s'))
              !! memberPath name n
            = Some {| export_url := jsUrl (this s); exported_as := n |})
      /\ (forall k,
            k <> name ->
            (forall n, n ∈ members -> k <> memberPath name n) ->
            namespacedExports (analysisConverter (world s')) !! k
            = namespacedExports (analysisConverter (world s)) !! k)
      /\ (forall m,
            moduleObjects (world s) !! module (this s) = Some m ->
            exists m',
              moduleObjects (world s') !! module (this s) = Some m'
              /\ (forall x,
                    x ∈ exports m' <->
                    x ∈ exports m \/ x ∈ members \/ x = "*")
              /\ source m' = source m).
Proof.
  intros s pl body name l properties statement Hp Hplain members.
  rewrite rewriteNamespaceObject_plain by done.
  unfold lowerNamespace. cbn [getNamespaceExports].
  fold (exportedMembers properties (this_mutableExports (this s) !! name)).
  set (es := rights _).
  set (warnings := lefts _).
  unfold bind at 1. unfold modify at 1.
  unfold bind at 1. unfold program_body at 1. cbn [with_world this].
  rewrite Hp.
  unfold bind at 1. unfold set_program_body at 1. cbn [with_world this].
  rewrite Hp.
  unfold bind at 1. unfold modify at 1.
  set (s1 := with_this _ (with_this _ _)).
  unfold bind at 1.
  destruct (forEach_addExport_registers name es s1)
    as (s2 & E2 & T2 & Hin & Hout & Hmod).
  rewrite E2.
  eexists. split; [reflexivity|].
  cbn [this world with_this with_world with_analysisConverter
       with_moduleObject analysisConverter namespacedExports moduleObjects].
  assert (Hjs : jsUrl (this s2) = jsUrl (this s))
    by (rewrite T2; subst s1; by destruct s as [[] ?]).
  assert (Hmo : module (this s2) = module (this s))
    by (rewrite T2; subst s1; by destruct s as [[] ?]).
  assert (Hjs1 : jsUrl (this s1) = jsUrl (this s))
    by (subst s1; by destruct s as [[] ?]).
  assert (Hmo1 : module (this s1) = module (this s))
    by (subst s1; by destruct s as [[] ?]).
  assert (Hne1 : namespacedExports (analysisConverter (world s1))
                 = namespacedExports (analysisConverter (world s)))
    by (subst s1; by destruct s as [? [[] ? ?]]).
  assert (Hheap1 : moduleObjects (world s1) = moduleObjects (world s))
    by (subst s1; by destruct s as [? [[] ? ?]]).
  rewrite Hjs, Hmo.
  split; [by rewrite lookup_insert_eq|]. split; [|split].
  - intros n Hn. rewrite lookup_insert_ne by (symmetry; apply memberPath_not_name).
    rewrite Hin by done. by rewrite Hjs1.
  - intros k Hk Hmem. rewrite lookup_insert_ne by done.
    rewrite Hout by done. by rewrite Hne1.
  - intros m Hm. rewrite <- Hheap1, <- Hmo1 in Hm.
    destruct (Hmod m Hm) as (m' & Hm' & Hx & Hs).
    rewrite Hmo1 in Hm'.
    rewrite list_lookup_alter_eq, Hm'. eexists. split; [reflexivity|].
    cbn [exports source]. split; [|exact Hs].
    intros x. rewrite set_add_elem, Hx. fold members. tauto.
Qed.

Lemma rewriteNamespaceObject_registers_witness :
  exists s',
    rewriteNamespaceObject "Foo" settingsObject settingsStatement
      settingsState
    = (Ok tt, s')
    /\ namespacedExports (analysisConverter (world s')) !! "Foo"
       = Some {| export_url := "settings.html"; exported_as := "*" |}
    /\ namespacedExports (analysisConverter (world s')) !! "Foo.rootPath"
       = Some {| export_url := "settings.html"; exported_as := "rootPath" |}.
Proof.
  destruct (rewriteNamespaceObject_registers settingsState None
              [settingsStatement] "Foo" None
              [member "rootPath" one; member "version" one]
              settingsStatement eq_refl
              (or_introl (ex_intro _ ["rootPath"] eq_refl)))
    as (s' & E & Hstar & Hmember & _).
  exists s'. split; [exact E|]. split; [exact Hstar|].
  exact (Hmember "rootPath" (list_elem_of_here _ _)).
Defined.

(** ** Induction on trees, through the children *)

Lemma Forall_opt_list (P : Node -> Prop) o : OptP P o -> Forall P (opt_list o).
Proof. destruct o; [by repeat constructor|constructor]. Qed.

Lemma Node_children_ind (P : Node -> Prop) :
  (forall n, Forall P (children n) -> P n) -> forall n, P n.
Proof.
  intros H. apply Node_nested_ind; intros; apply H; cbn [children];
    repeat first
      [ assumption
      | apply Forall_nil_2
      | apply Forall_cons_2
      | apply Forall_app_2
      | by apply Forall_opt_list ].
  induction H0 as [|p ps [Hk Hv] _ IH]; cbn [flat_map app].
  - constructor.
  - by repeat constructor.
Qed.

Lemma foldChildren_children {A} (f : A -> Node -> A) a n :
  foldChildren f a n = fold_left f (children n) a.
Proof.
  destruct n; cbn [foldChildren children];
    rewrite ?fold_left_app; cbn [fold_left];
    repeat match goal with
           | o : option Node |- _ => destruct o; cbn [opt_list fold_left app]
           end;
    rewrite ?fold_left_app; try reflexivity.
  revert a. induction properties as [|p ps IH]; intros a; [done|].
  cbn [fold_left flat_map app]. by rewrite IH.
Qed.

Lemma mapChildren_id f n :
  Forall (fun c => f c = c) (children n) -> mapChildren f n = n.
Proof.
  assert (Hmap : forall l, Forall (fun c => f c = c) l -> map f l = l).
  { induction 1 as [|x l Hx _ IH]; cbn; [done|]. by rewrite Hx, IH. }
  assert (Hopt : forall o,
             Forall (fun c => f c = c) (opt_list o) -> option_map f o = o).
  { intros [x|]; cbn; [|done]. intros Hx. inversion Hx. congruence. }
  destruct n; cbn [children mapChildren]; intros H;
    repeat match goal with
           | H : Forall _ (_ :: _) |- _ =>
               apply Forall_cons_1 in H; destruct H
           | H : Forall _ (_ ++ _) |- _ =>
               apply Forall_app in H; destruct H
           end;
    rewrite ?Hmap, ?Hopt by assumption; try congruence.
  f_equal. induction properties as [|p ps IH]; [done|].
  cbn [flat_map app] in H.
  apply Forall_cons_1 in H as [Hk H]. apply Forall_cons_1 in H as [Hv H].
  cbn [map]. rewrite IH by done. destruct p; cbn in *. congruence.
Qed.

(** ** Locating a node *)

Lemma fold_left_collect {A B} (g : A -> list B) l acc :
  fold_left (fun found c => found ++ g c)%list l acc
  = (acc ++ flat_map g l)%list.
Proof.
  revert acc. induction l as [|x l IH]; intros acc; cbn.
  - by rewrite app_nil_r.
  - by rewrite IH, app_assoc.
Qed.

Lemma nodesOf_unfold n :
  nodesOf n
  = LocatedNode n :: (recordsOf n ++ flat_map nodesOf (children n))%list.
Proof.
  destruct n; cbn [nodesOf]; by rewrite foldChildren_children,
    fold_left_collect.
Qed.

Lemma visitOutcome_equiv wanted found r pool pool' :
  (forall x, x ∈ pool <-> x ∈ pool') ->
  visitOutcome wanted found r pool -> visitOutcome wanted found r pool'.
Proof.
  intros Heq [[-> Hall]|(x & -> & Hx & Hat)].
  - left. split; [done|]. rewrite Forall_forall in *.
    intros x Hx. apply Hall. by apply Heq.
  - right. exists x. split; [done|]. split; [by apply Heq|done].
Qed.

Lemma visitOutcome_nil wanted found : visitOutcome wanted found found [].
Proof. left. split; [done|constructor]. Qed.

Lemma visitOutcome_app wanted found r1 r2 pool1 pool2 :
  visitOutcome wanted found r1 pool1 ->
  visitOutcome wanted r1 r2 pool2 ->
  visitOutcome wanted found r2 (pool1 ++ pool2).
Proof.
  intros [[-> H1]|(x & -> & Hx & Hat)] [[-> H2]|(y & -> & Hy & Hat')].
  - left. split; [done|]. by apply Forall_app.
  - right. exists y. rewrite elem_of_app. by eauto.
  - right. exists x. rewrite elem_of_app. by eauto.
  - right. exists y. rewrite elem_of_app. by eauto.
Qed.

Lemma visitOutcome_fold wanted l :
  Forall
    (fun c =>
       forall found,
         visitOutcome wanted found (visitNode wanted found c) (nodesOf c))
    l ->
  forall found,
    visitOutcome wanted found (fold_left (visitNode wanted) l found)
      (flat_map nodesOf l).
Proof.
  induction 1 as [|c l Hc _ IH]; intros found.
  - apply visitOutcome_nil.
  - cbn [fold_left flat_map]. eapply visitOutcome_app; [apply Hc|apply IH].
Qed.

Lemma visitOutcome_elements wanted quasis found :
  visitOutcome wanted found
    (fold_left
       (fun found q =>
          if sameLocation (element_loc q) (loc_of wanted)
          then Some (LocatedElement q) else found)
       quasis found)
    (map LocatedElement quasis).
Proof.
  revert found. induction quasis as [|q qs IH]; intros found.
  - apply visitOutcome_nil.
  - cbn [fold_left map].
    change (LocatedElement q :: map LocatedElement qs)
      with ([LocatedElement q] ++ map LocatedElement qs)%list.
    eapply visitOutcome_app; [|apply IH].
    destruct (sameLocation (element_loc q) (loc_of wanted)) eqn:E.
    + right. eexists. split; [done|]. split; [by left|done].
    + left. split; [done|]. by repeat constructor.
Qed.

Lemma visitOutcome_members wanted properties :
  Forall
    (fun c =>
       forall found,
         visitOutcome wanted found (visitNode wanted found c) (nodesOf c))
    (flat_map (fun p => [key p; value p]) properties) ->
  forall found,
    visitOutcome wanted found
      (fold_left
         (fun found p =>
            if sameLocation (prop_loc p) (loc_of wanted)
            then Some (LocatedProperty p)
            else visitNode wanted (visitNode wanted found (key p)) (value p))
         properties found)
      (flat_map
         (fun p => LocatedProperty p :: nodesOf (key p) ++ nodesOf (value p))
         properties)%list.
Proof.
  induction properties as [|p ps IH]; intros H found.
  - apply visitOutcome_nil.
  - cbn [flat_map app] in H.
    apply Forall_cons_1 in H as [Hk H]. apply Forall_cons_1 in H as [Hv H].
    cbn [fold_left flat_map].
    eapply visitOutcome_app; [|by apply IH].
    destruct (sameLocation (prop_loc p) (loc_of wanted)) eqn:E.
    + right. eexists. split; [done|]. split; [by left|done].
    + change (LocatedProperty p :: nodesOf (key p) ++ nodesOf (value p))%list
        with ([LocatedProperty p] ++ nodesOf (key p) ++ nodesOf (value p))%list.
      eapply visitOutcome_app.
      { left. split; [reflexivity|]. by repeat constructor. }
      eapply visitOutcome_app; [apply Hk|apply Hv].
Qed.

Lemma members_pool properties x :
  x ∈ flat_map
        (fun p => LocatedProperty p :: nodesOf (key p) ++ nodesOf (value p))%list
        properties
  <-> x ∈ (map LocatedProperty properties ++
           flat_map nodesOf
             (flat_map (fun p => [key p; value p]) properties))%list.
Proof.
  induction properties as [|p ps IH]; [done|].
  cbn [flat_map map app].
  rewrite !elem_of_cons, !elem_of_app, IH, !elem_of_app.
  tauto.
Qed.

Lemma visitNode_outcome wanted n :
  forall found,
    visitOutcome wanted found (visitNode wanted found n) (nodesOf n).
Proof.
  induction n as [n IH] using Node_children_ind. intros found.
  rewrite nodesOf_unfold.
  assert (Hstep :
    visitNode wanted found n
    = if sourceLocationsEqual n wanted then Some (LocatedNode n)
      else match n with
           | ObjectExpression _ properties =>
               fold_left
                 (fun found p =>
                    if sameLocation (prop_loc p) (loc_of wanted)
                    then Some (LocatedProperty p)
                    else visitNode wanted (visitNode wanted found (key p))
                           (value p))
                 properties found
           | TemplateLiteral _ quasis expressions =>
               fold_left (visitNode wanted) expressions
                 (fold_left
                    (fun found q =>
                       if sameLocation (element_loc q) (loc_of wanted)
                       then Some (LocatedElement q) else found)
                    quasis found)
           | _ => fold_left (visitNode wanted) (children n) found
           end).
  { destruct n; cbn [visitNode]; rewrite ?foldChildren_children;
      reflexivity. }
  rewrite Hstep. clear Hstep.
  destruct (sourceLocationsEqual n wanted) eqn:E.
  { right. eexists. split; [done|]. split; [by left|exact E]. }
  change (LocatedNode n :: ?rest) with ([LocatedNode n] ++ rest)%list.
  eapply visitOutcome_app.
  { left. split; [reflexivity|]. by repeat constructor. }
  destruct n; cbn [recordsOf app];
    try (by apply visitOutcome_fold).
  - eapply visitOutcome_app;
      [apply visitOutcome_elements|by apply visitOutcome_fold].
  - eapply visitOutcome_equiv; [apply members_pool|].
    by apply visitOutcome_members.
Qed.

(** [getNode] finds a node exactly when the program has one at the wanted
    location: it answers [undefined] only if no node of the program, however
    deep, is there, and a node it answers is a node of the program at that
    location. *)
Theorem getNode_finds_what_is_there :
  forall (t : DocumentConverter) (wanted p : Node),
    program t = Some p ->
    (getNode t wanted = None <->
     Forall (fun x => locatedAt wanted x = false) (nodesOf p))
    /\ (forall x,
          getNode t wanted = Some x ->
          x ∈ nodesOf p /\ locatedAt wanted x = true).
Proof.
  intros t wanted p Hp. unfold getNode. rewrite Hp.
  destruct (visitNode_outcome wanted p None)
    as [[-> Hall]|(x & -> & Hx & Hat)].
  - split; [done|]. intros x H. discriminate.
  - split.
    + split; [done|]. intros Hall. rewrite Forall_forall in Hall.
      rewrite (Hall x Hx) in Hat. discriminate.
    + by intros y [= <-].
Qed.

Lemma getNode_finds_what_is_there_witness :
  getNode (this lostNamespaceState) (astNode fooNamespace) = None
  <-> Forall (fun x => locatedAt (astNode fooNamespace) x = false)
        (nodesOf (Program None [fooAssignment])).
Proof.
  exact (proj1 (getNode_finds_what_is_there (this lostNamespaceState)
                  (astNode fooNamespace) (Program None [fooAssignment])
                  eq_refl)).
Defined.

(** ** More on the namespace-export loop *)

Lemma rewriteNamespaceExports_runs_to_end_witness :
  (exists e, fst (rewriteNamespaceExports polymerFnState) = Throw e)
  \/ exists body',
       hasBody (snd (rewriteNamespaceExports polymerFnState)) None body'
       /\ size body' <= cursor (snd (rewriteNamespaceExports polymerFnState)).
Proof.
  exact (rewriteNamespaceExports_runs_to_end polymerFnState None
           [polymerFnStatement] _ _ eq_refl (Z.le_refl 0)
           (surjective_pairing _)).
Defined.

Lemma cursorAt_cursorAt i j s : cursorAt j (cursorAt i s) = cursorAt j s.
Proof. by destruct s as [[] ?]. Qed.

Lemma cursorAt_same s : cursorAt (cursor s) s = s.
Proof. by destruct s as [[] ?]. Qed.

Lemma plain_turn s pl body statement :
  hasBody s pl body ->
  at_index body (cursor s) = Some statement ->
  plainStatement s statement ->
  rewriteNamespaceExports_turn noLocals s
  = (Ok noLocals, cursorAt (cursor s + 1) s).
Proof.
  intros Hp Hat [Hexp Hns].
  unfold rewriteNamespaceExports_turn.
  rewrite (bind_Ok get _ s s s eq_refl).
  rewrite (bind_Ok _ _ _ _ _ (program_body_Ok s pl body Hp)).
  unfold cursor in Hat. rewrite Hat, Hexp, Hns. cbn [andb noLocals truthy
    localNamespaceName].
  unfold bind, ret, modify, cursorAt, cursor. reflexivity.
Qed.

Lemma plain_loop pl body fuel :
  forall s,
    hasBody s pl body ->
    0 <= cursor s ->
    (forall statement, statement ∈ body -> plainStatement s statement) ->
    size body - cursor s <= Z.of_nat fuel ->
    rewriteNamespaceExports_loop fuel noLocals s
    = (Ok noLocals, cursorAt (Z.max (cursor s) (size body)) s).
Proof.
  induction fuel as [|fuel IH]; intros s Hp Hc Hplain Hfuel.
  - cbn [rewriteNamespaceExports_loop].
    rewrite (bind_Ok get _ s s s eq_refl).
    rewrite (bind_Ok _ _ _ _ _ (program_body_Ok s pl body Hp)).
    fold (cursor s). fold (size body).
    replace (cursor s <? size body) with false
      by (symmetry; apply Z.ltb_ge; lia).
    replace (Z.max (cursor s) (size body)) with (cursor s) by lia.
    by rewrite cursorAt_same.
  - cbn [rewriteNamespaceExports_loop].
    rewrite (bind_Ok get _ s s s eq_refl).
    rewrite (bind_Ok _ _ _ _ _ (program_body_Ok s pl body Hp)).
    fold (cursor s). fold (size body).
    destruct (Z.ltb_spec (cursor s) (size body)) as [Hlt|Hge].
    + destruct (at_index_in_range body (cursor s) (conj Hc Hlt))
        as (statement & Hat).
      assert (Hin : statement ∈ body).
      { unfold at_index in Hat.
        destruct (cursor s <? 0); [done|]. by eapply list_elem_of_lookup_2. }
      rewrite (bind_Ok _ _ _ _ _
                 (plain_turn s pl body statement Hp Hat (Hplain _ Hin))).
      rewrite IH.
      * rewrite cursorAt_cursorAt. f_equal. f_equal.
        unfold cursor, cursorAt. cbn. fold (cursor s). lia.
      * unfold hasBody, cursorAt in *. by destruct s as [[] ?].
      * unfold cursor, cursorAt. cbn. fold (cursor s). lia.
      * intros st Hst. destruct (Hplain st Hst) as [H1 H2].
        split; [exact H1|]. unfold cursorAt. by destruct s as [[] ?].
      * unfold cursor, cursorAt. cbn. fold (cursor s). lia.
    + replace (Z.max (cursor s) (size body)) with (cursor s) by lia.
      by rewrite cursorAt_same.
Qed.

(** A program without export-shaped assignments and without namespace
    declarations goes through the loop as it is: no statement changes,
    nothing is registered or written, no namespace name is found, and the
    cursor ends at the end of the body. *)
Theorem plain_program_is_left_alone :
  forall (s : State) (pl : Loc) (body : list Node),
    hasBody s pl body ->
    0 <= cursor s ->
    (forall statement, statement ∈ body -> plainStatement s statement) ->
    rewriteNamespaceExports s
    = (Ok noLocals, cursorAt (Z.max (cursor s) (size body)) s).
Proof.
  intros s pl body Hp Hc Hplain.
  unfold rewriteNamespaceExports.
  rewrite (bind_Ok get _ s s s eq_refl).
  apply (plain_loop pl body); try done.
  unfold turns_needed. rewrite Hp. fold (size body). fold (cursor s). lia.
Qed.

Lemma plain_program_is_left_alone_witness :
  rewriteNamespaceExports
    (stateOf (documentAt "plain.html") {[ "Polymer" ]} (Some plainProgram))
  = (Ok noLocals,
     cursorAt 2
       (stateOf (documentAt "plain.html") {[ "Polymer" ]}
          (Some plainProgram))).
Proof.
  apply (plain_program_is_left_alone
           (stateOf (documentAt "plain.html") {[ "Polymer" ]}
              (Some plainProgram))
           None
           [ExpressionStatement None (Identifier None "a");
            ExpressionStatement None (Identifier None "b")]
           eq_refl (Z.le_refl 0)).
  intros statement Hin.
  apply elem_of_cons in Hin as [->|Hin]; [by split|].
  apply elem_of_cons in Hin as [->|Hin]; [by split|].
  by apply elem_of_nil in Hin.
Defined.

(** An export-shaped assignment to any path other than
    [Polymer._polymerFn], whose right side is not an object literal, an
    identifier or a class declaration, becomes the export of a [const]
    binding named after the last segment of the path, registered under the
    whole dotted path; the namespace name that the loop hands on is that
    whole path, member included. *)
Theorem assignment_is_exported_as_const :
  forall (s : State) (locals : Locals) (pl : Loc) (body : list Node)
         (path : list string) (value : Node),
    onExport s pl body path value ->
    join "." path <> "Polymer._polymerFn" ->
    type value <> "ObjectExpression" ->
    type value <> "Identifier" ->
    type value <> "ClassDeclaration" ->
    exists s',
      rewriteNamespaceExports_turn locals s
      = (Ok {| localNamespaceName := localNamespaceName locals;
               namespaceName := Some (join "." path) |},
         s')
      /\ hasBody s' pl
           (set_index body (cursor s)
              (constExport (last_segment path) value))
      /\ cursor s' = cursor s + 1
      /\ namespacedExports (analysisConverter (world s')) !! join "." path
         = Some {| export_url := jsUrl (this s);
                   exported_as := last_segment path |}
      /\ (forall other, other <> join "." path ->
            namespacedExports (analysisConverter (world s')) !! other
            = namespacedExports (analysisConverter (world s)) !! other)
      /\ (forall m,
            moduleObjects (world s) !! module (this s) = Some m ->
            exists m',
              moduleObjects (world s') !! module (this s) = Some m'
              /\ exports m' = set_add (exports m) (last_segment path)).
Proof.
  intros s locals pl body path value (Hp & statement & Hat & Hexp)
    Hpath Hobj Hid Hcl.
  unfold rewriteNamespaceExports_turn.
  rewrite (bind_Ok get _ s s s eq_refl).
  rewrite (bind_Ok _ _ _ _ _ (program_body_Ok s pl body Hp)).
  rewrite Hat, Hexp. cbn [namespace exported_value].
  rewrite (type_eqb_false _ _ Hobj), andb_false_r.
  rewrite (type_eqb_false _ _ Hid).
  unfold isDeclaration. rewrite (type_eqb_false _ _ Hcl).
  apply String.eqb_neq in Hpath. rewrite Hpath.
  unfold bind at 1. unfold bind at 1.
  rewrite (replaceCurrentStatement_Ok s pl body _ Hp).
  unfold bind, addExport, modify, ret.
  eexists. split; [reflexivity|].
  unfold hasBody, cursor.
  cbn [this world with_this with_world with_analysisConverter
       with_moduleObject set_program set_currentStatementIndex program
       currentStatementIndex analysisConverter namespacedExports
       moduleObjects jsUrl module].
  split; [reflexivity|]. split; [reflexivity|].
  split; [by rewrite lookup_insert_eq|].
  split; [by intros other Hne; rewrite lookup_insert_ne|].
  intros m Hm. rewrite list_lookup_alter_eq, Hm. by eexists.
Qed.

Lemma assignment_is_exported_as_const_witness :
  exists s',
    rewriteNamespaceExports_turn noLocals versionState
    = (Ok {| localNamespaceName := None;
             namespaceName := Some "Polymer.version" |},
       s')
    /\ hasBody s' None [constExport "version" one]
    /\ namespacedExports (analysisConverter (world s')) !! "Polymer.version"
       = Some {| export_url := "version.html"; exported_as := "version" |}.
Proof.
  destruct (assignment_is_exported_as_const versionState noLocals None
              [versionStatement] ["Polymer"; "version"] one)
    as (s' & E & P & _ & R & _).
  - split; [reflexivity|]. exists versionStatement. by split.
  - discriminate.
  - discriminate.
  - discriminate.
  - discriminate.
  - exists s'. split; [exact E|]. split; [exact P|exact R].
Defined.

(** An export-shaped assignment of an identifier for which the analyzer
    reports no namespace under the assignment's path becomes a re-export of
    that identifier under the last segment of the path, registered under
    the whole dotted path. *)
Theorem identifier_is_reexported :
  forall (s : State) (locals : Locals) (pl : Loc) (body : list Node)
         (path : list string) (il : Loc) (localName : string),
    onExport s pl body path (Identifier il localName) ->
    (forall feature,
       referencedFeature (document (this s)) (join "." path) = Some feature ->
       "namespace" ∉ kinds feature) ->
    exists s',
      rewriteNamespaceExports_turn locals s
      = (Ok {| localNamespaceName := localNamespaceName locals;
               namespaceName := Some (join "." path) |},
         s')
      /\ hasBody s' pl
           (set_index body (cursor s)
              (reExport (Identifier il localName) (last_segment path)))
      /\ cursor s' = cursor s + 1
      /\ namespacedExports (analysisConverter (world s')) !! join "." path
         = Some {| export_url := jsUrl (this s);
                   exported_as := last_segment path |}
      /\ (forall m,
            moduleObjects (world s) !! module (this s) = Some m ->
            exists m',
              moduleObjects (world s') !! module (this s) = Some m'
              /\ exports m' = set_add (exports m) (last_segment path)).
Proof.
  intros s locals pl body path il localName (Hp & statement & Hat & Hexp)
    Hfeature.
  unfold rewriteNamespaceExports_turn.
  rewrite (bind_Ok get _ s s s eq_refl).
  rewrite (bind_Ok _ _ _ _ _ (program_body_Ok s pl body Hp)).
  rewrite Hat, Hexp. cbn [namespace exported_value type].
  rewrite andb_false_r. cbn [String.eqb Ascii.eqb Bool.eqb].
  assert (Hbranch :
    match
      find (fun f => bool_decide (join "." path ∈ identifiers f))
        (getFeaturesById (features (document (this s))) (join "." path))
    with
    | Some namespaceFeature =>
        bool_decide ("namespace" ∈ kinds namespaceFeature) = false
    | None => True
    end).
  { specialize (Hfeature). unfold referencedFeature in Hfeature.
    destruct (find _ _) as [f|]; [|done].
    apply bool_decide_eq_false_2. by apply Hfeature. }
  destruct (find _ _) as [f|]; [rewrite Hbranch|];
    (unfold bind at 1; unfold bind at 1;
     rewrite (replaceCurrentStatement_Ok s pl body _ Hp);
     unfold bind, addExport, modify, ret;
     eexists; split; [reflexivity|];
     unfold hasBody, cursor;
     cbn [this world with_this with_world with_analysisConverter
          with_moduleObject set_program set_currentStatementIndex program
          currentStatementIndex analysisConverter namespacedExports
          moduleObjects jsUrl module];
     split; [reflexivity|]; split; [reflexivity|];
     split; [by rewrite lookup_insert_eq|];
     intros m Hm; rewrite list_lookup_alter_eq, Hm; by eexists).
Qed.

Lemma identifier_is_reexported_witness :
  exists s',
    rewriteNamespaceExports_turn noLocals aliasState
    = (Ok {| localNamespaceName := None;
             namespaceName := Some "Polymer.Foo" |},
       s')
    /\ hasBody s' None [reExport (Identifier None "Foo") "Foo"]
    /\ namespacedExports (analysisConverter (world s')) !! "Polymer.Foo"
       = Some {| export_url := "alias.html"; exported_as := "Foo" |}.
Proof.
  destruct (identifier_is_reexported aliasState noLocals None
              [aliasStatement] ["Polymer"; "Foo"] None "Foo")
    as (s' & E & P & _ & R & _).
  - split; [reflexivity|]. exists aliasStatement. by split.
  - intros feature H. discriminate H.
  - exists s'. split; [exact E|]. split; [exact P|exact R].
Defined.

(** ** The statement under the cursor *)

Lemma list_eqb_refl {A} (eqb : A -> A -> bool) l :
  Forall (fun x => eqb x x = true) l -> list_eqb eqb l l = true.
Proof. induction 1 as [|x l Hx _ IH]; cbn; [done|]. by rewrite Hx, IH. Qed.

Lemma Loc_eqb_refl l : Loc_eqb l l = true.
Proof.
  destruct l as [l|]; [|done]. cbn. unfold SourceLocation_eqb.
  by rewrite !Z.eqb_refl.
Qed.

Lemma LiteralValue_eqb_refl v : LiteralValue_eqb v v = true.
Proof.
  destruct v; cbn; [apply String.eqb_refl|apply Z.eqb_refl| |done].
  by destruct b.
Qed.

Lemma TemplateElement_eqb_refl q : TemplateElement_eqb q q = true.
Proof.
  unfold TemplateElement_eqb.
  rewrite Loc_eqb_refl, !String.eqb_refl. by destruct (tail q).
Qed.

Lemma option_eqb_refl (o : option Node) :
  OptP (fun n => Node_eqb n n = true) o -> option_eqb Node_eqb o o = true.
Proof. by destruct o. Qed.

Lemma Bool_eqb_refl b : Bool.eqb b b = true.
Proof. by destruct b. Qed.

Lemma Node_eqb_refl n : Node_eqb n n = true.
Proof.
  induction n using Node_nested_ind; cbn [Node_eqb];
    rewrite ?Loc_eqb_refl, ?String.eqb_refl, ?Bool_eqb_refl,
      ?LiteralValue_eqb_refl, ?option_eqb_refl, ?list_eqb_refl by assumption;
    rewrite ?IHn, ?IHn1, ?IHn2, ?IHn3; try reflexivity.
  - rewrite (list_eqb_refl TemplateElement_eqb), (list_eqb_refl Node_eqb);
      [done|done|].
    apply Forall_forall. intros q _. apply TemplateElement_eqb_refl.
  - rewrite list_eqb_refl; [done|].
    eapply Forall_impl; [eassumption|]. intros p [Hk Hv].
    by rewrite Loc_eqb_refl, Hk, Hv.
Qed.

Lemma indexOf_from_first body statement :
  forall k i,
    body !! k = Some statement ->
    (forall j x, (j < k)%nat -> body !! j = Some x ->
                 Node_eqb x statement = false) ->
    indexOf_from body statement i = i + Z.of_nat k.
Proof.
  induction body as [|st body IH]; intros k i Hk Hfirst; [done|].
  cbn [indexOf_from]. destruct k as [|k].
  - injection Hk as ->. rewrite Node_eqb_refl. lia.
  - rewrite (Hfirst 0%nat st) by (done || lia).
    rewrite (IH k (i + 1)); [lia|done|].
    intros j x Hj Hx. apply (Hfirst (S j) x); [lia|done].
Qed.

Lemma splice_replace_one {A} (l : list A) (k : nat) items :
  (k < length l)%nat ->
  splice l (Z.of_nat k) 1 items = (take k l ++ items ++ drop (S k) l)%list.
Proof.
  intros Hk. unfold splice.
  replace (Z.of_nat k <? 0) with false by (symmetry; apply Z.ltb_ge; lia).
  replace (Z.min (Z.of_nat k) (Z.of_nat (length l))) with (Z.of_nat k) by lia.
  replace (Z.min (Z.max 1 0) (Z.of_nat (length l) - Z.of_nat k)) with 1
    by lia.
  rewrite Nat2Z.id.
  by replace (Z.to_nat (Z.of_nat k + 1)) with (S k) by lia.
Qed.

(** An assignment of an object literal that the analyzer reports as a
    namespace, to a path for which the configuration holds a list or
    nothing, is replaced, where it stands, by the exports of the object's
    members in their order; the statements before and after it stay, and
    the cursor ends on the statement that followed it. The path becomes
    both the namespace name and the local namespace name of the loop. *)
Theorem namespace_object_is_lowered_in_place :
  forall (s : State) (locals : Locals) (pl : Loc) (body : list Node)
         (k : nat) (statement : Node) (path : list string) (l : Loc)
         (properties : list (Property Node)),
    hasBody s pl body ->
    cursor s = Z.of_nat k ->
    body !! k = Some statement ->
    (forall j x, (j < k)%nat -> body !! j = Some x ->
                 Node_eqb x statement = false) ->
    getExport statement (namespaces (analysisConverter (world s)))
    = Some {| namespace := path;
              exported_value := ObjectExpression l properties |} ->
    isNamespace (this s) statement = true ->
    configuredPlainly (this_mutableExports (this s)) (join "." path) ->
    let name := join "." path in
    let nodes :=
      memberExports properties (this_mutableExports (this s) !! name) in
    exists s',
      rewriteNamespaceExports_turn locals s
      = (Ok {| localNamespaceName := Some name;
               namespaceName := Some name |},
         s')
      /\ hasBody s' pl (take k body ++ nodes ++ drop (S k) body)%list
      /\ cursor s' = Z.of_nat (k + length nodes)
      /\ at_index (take k body ++ nodes ++ drop (S k) body)%list (cursor s')
         = body !! S k.
Proof.
  intros s locals pl body k statement path l properties Hp Hc Hk Hfirst
    Hexp Hns Hplain name nodes.
  assert (Hat : at_index body (currentStatementIndex (this s))
                = Some statement).
  { unfold cursor in Hc. rewrite Hc. unfold at_index.
    replace (Z.of_nat k <? 0) with false by (symmetry; apply Z.ltb_ge; lia).
    by rewrite Nat2Z.id. }
  unfold rewriteNamespaceExports_turn.
  rewrite (bind_Ok get _ s s s eq_refl).
  rewrite (bind_Ok _ _ _ _ _ (program_body_Ok s pl body Hp)).
  rewrite Hat, Hexp. cbn [namespace exported_value type].
  rewrite Hns. cbn [andb String.eqb Ascii.eqb Bool.eqb].
  fold name.
  destruct (rewriteNamespaceObject_ok s pl body name l properties statement
              Hp Hplain) as (s1 & E & P & C).
  unfold bind at 1. unfold bind at 1. rewrite E.
  unfold ret, bind, modify.
  eexists. split; [reflexivity|].
  unfold hasBody, cursor in *.
  cbn [this with_this set_currentStatementIndex program
       currentStatementIndex].
  assert (Hlen : (k < length body)%nat) by by eapply lookup_lt_Some.
  assert (Hbody :
    splice body (indexOf body statement) 1
      (map export_node
         (rights
            (map (fun p =>
                    namespaceMemberExport p
                      (this_mutableExports (this s) !! name))
               properties)))
    = (take k body ++ nodes ++ drop (S k) body)%list).
  { unfold indexOf. rewrite (indexOf_from_first body statement k 0) by done.
    by rewrite Z.add_0_l, splice_replace_one. }
  rewrite Hbody in P.
  assert (Hn : length nodes
               = length (rights
                           (map (fun p =>
                                   namespaceMemberExport p
                                     (this_mutableExports (this s) !! name))
                              properties))).
  { unfold nodes, memberExports. by rewrite length_map. }
  split; [exact P|]. split; [rewrite C, Hc, <- Hn; lia|].
  rewrite C, Hc, <- Hn.
  replace (Z.of_nat k + (Z.of_nat (length nodes) - 1) + 1)
    with (Z.of_nat (k + length nodes)) by lia.
  unfold at_index.
  replace (Z.of_nat (k + length nodes) <? 0) with false
    by (symmetry; apply Z.ltb_ge; lia).
  rewrite Nat2Z.id.
  rewrite lookup_app_r by (rewrite length_take; lia).
  rewrite length_take, Nat.min_l by lia.
  rewrite lookup_app_r by lia.
  replace (k + length nodes - k - length nodes)%nat with 0%nat by lia.
  by rewrite lookup_drop, Nat.add_0_r.
Qed.

Lemma namespace_object_is_lowered_in_place_witness :
  exists s',
    rewriteNamespaceExports_turn noLocals namespaceState
    = (Ok {| localNamespaceName := Some "Polymer.Settings";
             namespaceName := Some "Polymer.Settings" |},
       s')
    /\ hasBody s' None
         [exportVariable "const" (Identifier None "rootPath") one;
          emptyReturn]
    /\ cursor s' = 1.
Proof.
  destruct (namespace_object_is_lowered_in_place namespaceState noLocals
              None [namespaceStatement; emptyReturn] 0 namespaceStatement
              ["Polymer"; "Settings"] None [member "rootPath" one]
              eq_refl eq_refl eq_refl
              ltac:(intros j x Hj; lia) eq_refl eq_refl
              ltac:(right; split;
                    [by apply (bool_decide_eq_false_1 _); vm_compute
                    |reflexivity]))
    as (s' & E & P & C & _).
  exists s'. split; [exact E|]. split; [exact P|exact C].
Defined.

(** ** Local references to a namespace *)

Lemma join_cons2 sep (x y : string) l :
  join sep (x :: y :: l) = x +:+ sep +:+ join sep (y :: l).
Proof. reflexivity. Qed.

Lemma join_length_lt (l m : list string) :
  l <> [] -> m <> [] ->
  (String.length (join "." l) < String.length (join "." (l ++ m)))%nat.
Proof.
  intros Hl Hm. induction l as [|a [|b l] IH]; [done| |].
  - destruct m as [|y m]; [done|]. cbn [app]. rewrite join_cons2.
    rewrite !append_length. cbn [String.length]. unfold join. cbn. lia.
  - specialize (IH ltac:(done)). cbn [app] in *. rewrite !join_cons2.
    rewrite !append_length. lia.
Qed.

Lemma memberChain_unfold root accesses a :
  memberChain root (accesses ++ [a])%list
  = MemberExpression (access_loc a) (memberChain root accesses)
      (propertyOf a) (access_computed a).
Proof. by rewrite memberChain_snoc. Qed.

Lemma getMemberPath_chain l root accesses :
  root <> "window" -> accesses <> [] ->
  getMemberPath (memberChain (Identifier l root) accesses)
  = Some (root :: map property_name accesses).
Proof.
  intros Hroot Hne. destruct accesses as [|a accesses]; [done|].
  by apply getMemberPath_rooted_chain.
Qed.

(** A reference through the local namespace is replaced by the member it
    names: with the namespace [NS.sub], the chain [NS.sub.f.g] becomes
    [f.g]. The test compares the path without its last segment, so only the
    access right behind the namespace is cut. *)
Theorem local_reference_loses_its_namespace :
  forall l root (inner : list Access) (a : Access) (rest : list Access),
    root <> "window" ->
    pathOf root inner <> "" ->
    visitLocalReferences (pathOf root inner)
      (memberChain (Identifier l root) (inner ++ a :: rest))
    = memberChain (propertyOf a) rest.
Proof.
  intros l root inner a rest Hroot Hname.
  induction rest as [|b rest IH] using rev_ind.
  - rewrite memberChain_unfold. cbn [visitLocalReferences].
    rewrite <- memberChain_unfold.
    rewrite getMemberPath_chain by (done || by destruct inner).
    cbn [option_map]. rewrite map_app. cbn [map].
    rewrite app_comm_cons, removelast_last.
    fold (pathOf root inner).
    destruct (pathOf root inner) eqn:E; [done|].
    cbn [truthy]. by rewrite String.eqb_refl.
  - replace (inner ++ a :: rest ++ [b])%list
      with ((inner ++ a :: rest) ++ [b])%list by by rewrite <- app_assoc.
    rewrite memberChain_unfold. cbn [visitLocalReferences].
    rewrite <- memberChain_unfold.
    rewrite getMemberPath_chain by (done || by destruct inner).
    cbn [option_map]. rewrite map_app. cbn [map].
    rewrite app_comm_cons, removelast_last.
    assert (Hne : join "." (root :: map property_name (inner ++ a :: rest))
                  <> pathOf root inner).
    { intros Heq. apply (f_equal String.length) in Heq.
      rewrite map_app, app_comm_cons in Heq.
      pose proof (join_length_lt (root :: map property_name inner)
                    (map property_name (a :: rest))
                    ltac:(done) ltac:(done)) as Hlt.
      unfold pathOf in Heq. lia. }
    assert (Hstep :
      mapChildren (visitLocalReferences (pathOf root inner))
        (memberChain (Identifier l root) ((inner ++ a :: rest) ++ [b]))
      = memberChain (propertyOf a) (rest ++ [b])).
    { rewrite !memberChain_unfold. cbn [mapChildren]. rewrite IH.
      reflexivity. }
    destruct (truthy _) as [memberName|] eqn:Et; [|exact Hstep].
    assert (memberName
            = join "." (root :: map property_name (inner ++ a :: rest))).
    { revert Et. generalize (join "." (root :: map property_name (inner ++ a :: rest))).
      intros [|c s]; cbn; congruence. }
    subst memberName.
    apply String.eqb_neq in Hne. rewrite Hne. exact Hstep.
Qed.

Lemma local_reference_loses_its_namespace_witness :
  visitLocalReferences "NS.sub"
    (memberChain (Identifier None "NS")
       [access "sub"; access "f"; access "g"])
  = memberChain (propertyOf (access "f")) [access "g"].
Proof.
  exact (local_reference_loses_its_namespace None "NS" [access "sub"]
           (access "f") [access "g"] ltac:(discriminate) ltac:(discriminate)).
Defined.

(** A namespace with the empty name matches nothing: the test wants the
    path before the last segment to be non-empty. *)
Lemma visitLocalReferences_empty_name n : visitLocalReferences "" n = n.
Proof.
  induction n as [n IH] using Node_children_ind.
  assert (Hc : mapChildren (visitLocalReferences "") n = n)
    by by apply mapChildren_id.
  destruct n; try exact Hc.
  cbn [visitLocalReferences].
  destruct (truthy _) as [[|c s]|] eqn:Et; try exact Hc.
  destruct (option_map _ _) as [[|c s]|]; discriminate.
Qed.

(** With the empty name the pass changes nothing, as with no name. *)
Theorem empty_namespace_name_rewrites_nothing :
  forall s : State,
    rewriteLocalNamespacedReferences (Some "") s = (Ok tt, s)
    /\ rewriteLocalNamespacedReferences None s = (Ok tt, s).
Proof.
  intros [[jsUrl module document scriptDocument [p|] cursor mutableExports] w];
    split; try reflexivity;
    unfold rewriteLocalNamespacedReferences, modify, with_this, set_program;
    cbn; by rewrite ?visitLocalReferences_empty_name.
Qed.

(** ** Excluded references *)

(** A reference whose path is excluded becomes [undefined], and what is read
    from it is read from [undefined]: with [A.b] excluded, [A.b.c.d] becomes
    [undefined.c.d], unless a longer path is excluded as well. *)
Theorem excluded_reference_becomes_undefined :
  forall (excluded : gset string) l root (inner rest : list Access),
    root <> "window" ->
    inner <> [] ->
    pathOf root inner ∈ excluded ->
    (forall more, more <> [] -> more `prefix_of` rest ->
                  pathOf root (inner ++ more) ∉ excluded) ->
    visitExcludedReferences excluded
      (memberChain (Identifier l root) (inner ++ rest))
    = memberChain (jsc.identifier "undefined") rest.
Proof.
  intros excluded l root inner rest Hroot Hinner Hin.
  induction rest as [|b rest IH] using rev_ind; intros Hlonger.
  - rewrite app_nil_r.
    destruct inner as [|a inner _] using rev_ind; [done|].
    rewrite memberChain_unfold. cbn [visitExcludedReferences].
    rewrite <- memberChain_unfold.
    rewrite getMemberPath_chain by (done || by destruct inner).
    fold (pathOf root (inner ++ [a])).
    by rewrite bool_decide_eq_true_2.
  - rewrite app_assoc, memberChain_unfold. cbn [visitExcludedReferences].
    rewrite <- memberChain_unfold.
    rewrite getMemberPath_chain by (done || by destruct inner).
    fold (pathOf root ((inner ++ rest) ++ [b])).
    rewrite bool_decide_eq_false_2.
    + rewrite !memberChain_unfold. cbn [mapChildren]. rewrite IH; [done|].
      intros more Hmore Hpre. apply Hlonger; [done|].
      by apply prefix_app_r.
    + rewrite <- app_assoc. apply Hlonger; [by destruct rest|done].
Qed.

Lemma excluded_reference_becomes_undefined_witness :
  visitExcludedReferences {[ "A.b" ]}
    (memberChain (Identifier None "A") ([access "b"] ++ [access "c"]))
  = memberChain (jsc.identifier "undefined") [access "c"].
Proof.
  apply (excluded_reference_becomes_undefined {[ "A.b" ]} None "A"
           [access "b"] [access "c"]); [discriminate|discriminate| |].
  - by apply elem_of_singleton.
  - intros more Hmore Hpre Hin. apply elem_of_singleton in Hin.
    apply (f_equal String.length) in Hin.
    pose proof (join_length_lt ("A" :: map property_name [access "b"])
                  (map property_name more) ltac:(done)
                  ltac:(by destruct more)) as Hlt.
    unfold pathOf in Hin. rewrite map_app, app_comm_cons in Hin.
    cbn [map property_name access] in *.
    change (String.length (join "." ["A"; "b"])) with 3%nat in Hlt.
    change (String.length "A.b") with 3%nat in Hin. lia.
Defined.

Lemma visitExcludedReferences_none n : visitExcludedReferences ∅ n = n.
Proof.
  induction n as [n IH] using Node_children_ind.
  assert (Hc : mapChildren (visitExcludedReferences ∅) n = n)
    by by apply mapChildren_id.
  destruct n; try exact Hc.
  cbn [visitExcludedReferences].
  destruct (getMemberPath _); [|exact Hc].
  by rewrite bool_decide_eq_false_2 by set_solver.
Qed.

(** With no reference excluded the pass leaves the converter as it is. *)
Theorem nothing_excluded_nothing_rewritten :
  forall s : State,
    _referenceExcludes (analysisConverter (world s)) = ∅ ->
    rewriteExcludedReferences s = (Ok tt, s).
Proof.
  intros [[jsUrl module document scriptDocument p cursor mutableExports] w]
    Hnone.
  unfold rewriteExcludedReferences, modify, with_this, set_program.
  cbn in *. rewrite Hnone. destruct p as [p|]; cbn; [|done].
  by rewrite visitExcludedReferences_none.
Qed.

Lemma nothing_excluded_nothing_rewritten_witness :
  rewriteExcludedReferences polymerFnState = (Ok tt, polymerFnState).
Proof.
  exact (nothing_excluded_nothing_rewritten polymerFnState eq_refl).
Defined.

(** ** Namespaced references *)

Section Accumulation.
Context {S : Type} (f : S -> Node -> Node * S).

Lemma mapAccum_cons s x l :
  mapAccum f s (x :: l)
  = let (x', s1) := f s x in
    let (l', s2) := mapAccum f s1 l in (x' :: l', s2).
Proof. reflexivity. Qed.

Lemma membersAccum_cons s p ps :
  membersAccum f s (p :: ps)
  = let (k', s1) := f s (key p) in
    let (v', s2) := f s1 (value p) in
    let (ps', s3) := membersAccum f s2 ps in
    (mkProperty (prop_loc p) k' v' :: ps', s3).
Proof. reflexivity. Qed.

Lemma mapAccum_state s l :
  snd (mapAccum f s l) = fold_left (carriedOver f) l s.
Proof.
  revert s. induction l as [|x l IH]; intros s; [done|].
  rewrite mapAccum_cons. cbn [fold_left]. unfold carriedOver at 2.
  destruct (f s x) as [x' s1]. specialize (IH s1).
  destruct (mapAccum f s1 l). cbn [snd] in *. done.
Qed.

Lemma optAccum_state s o :
  snd (optAccum f s o) = fold_left (carriedOver f) (opt_list o) s.
Proof.
  destruct o as [x|]; [|done]. cbn. unfold carriedOver.
  by destruct (f s x).
Qed.

Lemma membersAccum_state s ps :
  snd (membersAccum f s ps)
  = fold_left (carriedOver f) (flat_map (fun p => [key p; value p]) ps) s.
Proof.
  revert s. induction ps as [|p ps IH]; intros s; [done|].
  rewrite membersAccum_cons. cbn [flat_map app fold_left].
  unfold carriedOver at 2 3.
  destruct (f s (key p)) as [k' s1]. cbn [snd].
  destruct (f s1 (value p)) as [v' s2]. cbn [snd].
  specialize (IH s2). destruct (membersAccum f s2 ps). cbn [snd] in *. done.
Qed.

(** What the traversal of the children carries on is what the visits of the
    children, one after the other, leave. *)
Lemma mapChildrenAccum_state s n :
  snd (mapChildrenAccum f s n) = fold_left (carriedOver f) (children n) s.
Proof.
  destruct n; cbn [mapChildrenAccum children]; try reflexivity;
    rewrite ?fold_left_app; cbn [fold_left];
    repeat
      match goal with
      | |- context [let (_, _) := ?p in _] =>
          let E := fresh "E" in
          destruct p eqn:E; apply (f_equal snd) in E; cbn [snd] in E;
          rewrite ?mapAccum_state, ?optAccum_state, ?membersAccum_state in E
      end;
    cbn [snd]; unfold carriedOver in *; subst;
    rewrite ?fold_left_app; cbn [fold_left]; rewrite ?fold_left_app;
    reflexivity.
Qed.

Lemma mapAccum_id s l :
  Forall (fun c => forall s, f s c = (c, s)) l -> mapAccum f s l = (l, s).
Proof.
  induction 1 as [|x l Hx _ IH]; [done|].
  rewrite mapAccum_cons, Hx. by rewrite IH.
Qed.

Lemma optAccum_id s o :
  Forall (fun c => forall s, f s c = (c, s)) (opt_list o) ->
  optAccum f s o = (o, s).
Proof.
  destruct o as [x|]; [|done]. intros H. inversion H; subst. cbn.
  by rewrite H2.
Qed.

Lemma membersAccum_id s ps :
  Forall (fun c => forall s, f s c = (c, s))
    (flat_map (fun p => [key p; value p]) ps) ->
  membersAccum f s ps = (ps, s).
Proof.
  induction ps as [|p ps IH]; [done|]. cbn [flat_map app]. intros H.
  apply Forall_cons_1 in H as [Hk H]. apply Forall_cons_1 in H as [Hv H].
  rewrite membersAccum_cons, Hk, Hv.
  rewrite IH by done. by destruct p.
Qed.

Lemma mapChildrenAccum_id s n :
  Forall (fun c => forall s, f s c = (c, s)) (children n) ->
  mapChildrenAccum f s n = (n, s).
Proof.
  destruct n; cbn [children mapChildrenAccum]; intros H;
    repeat match goal with
           | H : Forall _ (_ :: _) |- _ =>
               apply Forall_cons_1 in H; destruct H
           | H : Forall _ (_ ++ _) |- _ =>
               apply Forall_app in H; destruct H
           end;
    repeat match goal with
           | H : forall s, f s ?c = _ |- _ => rewrite !H; clear H
           end;
    rewrite ?mapAccum_id, ?optAccum_id, ?membersAccum_id by assumption;
    repeat match goal with
           | H : forall s, f s ?c = _ |- _ => rewrite !H; clear H
           end;
    rewrite ?mapAccum_id, ?optAccum_id, ?membersAccum_id by assumption;
    repeat match goal with
           | H : forall s, f s ?c = _ |- _ => rewrite !H; clear H
           end;
    reflexivity.
Qed.
End Accumulation.

Lemma map_get_map_set {V} (m : list (string * V)) k v k' :
  map_get (map_set m k v) k'
  = if String.eqb k k' then Some v else map_get m k'.
Proof.
  induction m as [|[k0 v0] m IH]; cbn [map_set map_get]; [done|].
  destruct (String.eqb_spec k0 k) as [->|Hne]; cbn [map_get].
  - by destruct (String.eqb k k').
  - rewrite IH. destruct (String.eqb_spec k0 k') as [->|Hne'];
      [|done]. apply String.eqb_neq in Hne.
    by rewrite String.eqb_sym, Hne.
Qed.

Lemma keeps_refl m : keeps m m.
Proof. intros u names H. by exists names. Qed.

Lemma keeps_trans a b c : keeps a b -> keeps b c -> keeps a c.
Proof.
  intros Hab Hbc u names H.
  destruct (Hab u names H) as (names' & H' & Hsub).
  destruct (Hbc u names' H') as (names'' & H'' & Hsub').
  exists names''. split; [done|]. by etrans.
Qed.

Section ReferenceLemmas.
Variable htmlUrlToJs : string -> option string -> string.
Variable w : World.
Variable baseUrl : string.

Local Abbreviation visit := (visitReference htmlUrlToJs w baseUrl).
Local Abbreviation record := (addToImportedReferences htmlUrlToJs baseUrl).
Local Abbreviation refer := (referTo htmlUrlToJs w baseUrl).

Lemma record_keeps e m : keeps m (record e m).
Proof.
  intros u names H. unfold addToImportedReferences.
  destruct (map_get m (htmlUrlToJs (export_url e) (Some baseUrl)))
    as [old|] eqn:E; rewrite map_get_map_set;
    destruct (String.eqb_spec (htmlUrlToJs (export_url e) (Some baseUrl)) u)
      as [<-|Hne]; try (exists names; by split).
  - exists (set_add old (exported_as e)). split; [done|].
    intros x Hx. apply set_add_elem. left.
    rewrite E in H. by injection H as ->.
  - congruence.
Qed.

Lemma record_records e m :
  records (record e m) (htmlUrlToJs (export_url e) (Some baseUrl))
    (exported_as e).
Proof.
  unfold records, addToImportedReferences.
  destruct (map_get m _) as [old|]; rewrite map_get_map_set, String.eqb_refl;
    eexists; (split; [done|]); apply set_add_elem; by right.
Qed.

Lemma refer_imported n e st :
  imported (snd (refer n e st)) = record e (imported st).
Proof. unfold referTo. by destruct (replacePathWithExportIdentifier _ _). Qed.

Lemma visit_failed flag st n e :
  failure st = Some e -> visit flag st n = (n, st).
Proof. intros H. destruct n; cbn [visitReference]; by rewrite H. Qed.

Lemma fold_keeps flag l :
  Forall (fun c => forall flag st,
            keeps (imported st) (imported (snd (visit flag st c)))) l ->
  forall st,
    keeps (imported st)
      (imported (fold_left (carriedOver (visit flag)) l st)).
Proof.
  induction 1 as [|c l Hc _ IH]; intros st; cbn [fold_left].
  - apply keeps_refl.
  - eapply keeps_trans; [apply (Hc flag)|apply IH].
Qed.

(** The traversal only adds to what is recorded. *)
Lemma visit_keeps n :
  forall flag st, keeps (imported st) (imported (snd (visit flag st n))).
Proof.
  induction n as [n IH] using Node_children_ind. intros flag st.
  destruct (failure st) as [e|] eqn:Ef.
  { rewrite (visit_failed _ _ _ e Ef). apply keeps_refl. }
  assert (Hc : forall flag',
             keeps (imported st)
               (imported (snd (mapChildrenAccum (visit flag') st n)))).
  { intros flag'. rewrite mapChildrenAccum_state. by apply fold_keeps. }
  destruct n; cbn [visitReference]; rewrite Ef; try apply Hc.
  - destruct (negb _ || flag); [apply keeps_refl|].
    destruct (namespacedExports _ !! _) as [e|]; [|apply keeps_refl].
    rewrite refer_imported. apply record_keeps.
  - destruct (getMemberPath _); [|apply Hc].
    destruct (namespacedExports _ !! _) as [e|]; [|apply Hc].
    rewrite refer_imported. apply record_keeps.
Qed.

Lemma visit_nothing_registered n :
  namespacedExports (analysisConverter w) = ∅ ->
  forall flag st, visit flag st n = (n, st).
Proof.
  intros Hnone. induction n as [n IH] using Node_children_ind.
  intros flag st.
  destruct (failure st) as [e|] eqn:Ef; [by apply (visit_failed _ _ _ e)|].
  assert (Hc : forall flag', mapChildrenAccum (visit flag') st n = (n, st)).
  { intros flag'. apply mapChildrenAccum_id.
    eapply Forall_impl; [exact IH|]. intros c Hc s. apply Hc. }
  destruct n; cbn [visitReference]; rewrite Ef; try apply Hc.
  - rewrite Hnone, lookup_empty. by destruct (negb _ || flag).
  - destruct (getMemberPath _); [|apply Hc].
    rewrite Hnone, lookup_empty. apply Hc.
Qed.
End ReferenceLemmas.

Lemma alter_same {A} (f : A -> A) (l : list A) i x :
  l !! i = Some x -> f x = x -> alter f i l = l.
Proof.
  revert i. induction l as [|y l IH]; intros [|i] H Hf; try done.
  - cbn in *. congruence.
  - cbn in *. f_equal. by apply IH.
Qed.

(** With nothing in the index of namespaced exports, the pass leaves the
    converter and the registry as they are. *)
Theorem no_exports_no_rewriting :
  forall htmlUrlToJs (s : State) r,
    namespacedExports (analysisConverter (world s)) = ∅ ->
    modules (analysisConverter (world s)) !! jsUrl (this s) = Some r ->
    is_Some (moduleObjects (world s) !! r) ->
    rewriteNamespacedReferences htmlUrlToJs s = (Ok tt, s).
Proof.
  intros h [[jsUrl module document scriptDocument p cursor mutableExports]
            [ac objects console]] r Hnone Hr [m Hm].
  unfold rewriteNamespacedReferences. cbn in *. rewrite Hr, Hm.
  destruct p as [p|]; [|done].
  rewrite visit_nothing_registered by done. cbn.
  unfold with_world, with_moduleObject, with_this, set_program. cbn.
  rewrite (alter_same _ objects r m Hm); [done|by destruct m].
Qed.

Lemma no_exports_no_rewriting_witness :
  rewriteNamespacedReferences (fun u _ => u) polymerFnState
  = (Ok tt, polymerFnState).
Proof.
  apply (no_exports_no_rewriting (fun u _ => u) polymerFnState 0%nat).
  - reflexivity.
  - reflexivity.
  - by eexists.
Defined.

(** The pass only adds to the imported references of a record: no module
    URL and no name recorded before is lost, whether the pass ends or
    throws, and nothing else of the registry changes. *)
Theorem references_are_only_added :
  forall htmlUrlToJs (s : State) r m,
    moduleObjects (world s) !! r = Some m ->
    let s' := snd (rewriteNamespacedReferences htmlUrlToJs s) in
    analysisConverter (world s') = analysisConverter (world s)
    /\ exists m',
         moduleObjects (world s') !! r = Some m'
         /\ url m' = url m /\ source m' = source m
         /\ exports m' = exports m
         /\ keeps (importedReferences m) (importedReferences m').
Proof.
  intros h s r m Hm s'. subst s'. unfold rewriteNamespacedReferences.
  assert (Hsame :
    analysisConverter (world s) = analysisConverter (world s)
    /\ exists m',
         moduleObjects (world s) !! r = Some m'
         /\ url m' = url m /\ source m' = source m
         /\ exports m' = exports m
         /\ keeps (importedReferences m) (importedReferences m')).
  { split; [done|]. exists m. repeat split; try done. apply keeps_refl. }
  destruct (modules _ !! _) as [r0|]; [|exact Hsame].
  destruct (moduleObjects (world s) !! r0) as [m0|] eqn:Hm0; [|exact Hsame].
  destruct (program (this s)) as [p|]; [|exact Hsame].
  pose proof (visit_keeps h (world s) (doc_url (document (this s))) p false
                {| imported := importedReferences m0; failure := None |})
    as Hkeeps.
  destruct (visitReference _ _ _ _ _ p) as [p' carried]. cbn [snd] in Hkeeps.
  cbn [imported] in Hkeeps.
  assert (Hgoal : forall out : result unit,
    let s' := snd (out,
                with_world
                  (with_moduleObject r0 (fun m1 =>
                     {| url := url m1; source := source m1;
                        exports := exports m1;
                        importedReferences := imported carried |}))
                  (with_this (set_program (Some p')) s)) in
    analysisConverter (world s') = analysisConverter (world s)
    /\ exists m',
         moduleObjects (world s') !! r = Some m'
         /\ url m' = url m /\ source m' = source m
         /\ exports m' = exports m
         /\ keeps (importedReferences m) (importedReferences m')).
  { intros out. cbn. split; [done|].
    destruct (decide (r = r0)) as [->|Hne].
    - rewrite list_lookup_alter, Hm0. cbn.
      rewrite Hm in Hm0. injection Hm0 as ->.
      rewrite decide_True by done. eexists.
      split; [reflexivity|]. by repeat split.
    - rewrite list_lookup_alter_ne by done. rewrite Hm.
      eexists. split; [reflexivity|]. repeat split; try done.
      apply keeps_refl. }
  destruct (failure carried); apply Hgoal.
Qed.

Lemma references_are_only_added_witness :
  exists m',
    moduleObjects
      (world
         (snd (rewriteNamespacedReferences (fun u _ => u)
                 (appState {[ "Polymer.dom" := domExport ]} []
                    [("polymer-element.js", ["Element"])]
                    [domReference]))))
      !! 0%nat = Some m'
    /\ records (importedReferences m') "polymer-element.js" "Element"
    /\ records (importedReferences m') "polymer-dom.js" "dom".
Proof.
  destruct (references_are_only_added (fun u _ => u)
              (appState {[ "Polymer.dom" := domExport ]} []
                 [("polymer-element.js", ["Element"])] [domReference])
              0%nat
              {| url := "app.html"; source := ""; exports := [];
                 importedReferences := [("polymer-element.js", ["Element"])] |}
              eq_refl)
    as (_ & m' & Hm' & _ & _ & _ & Hkeeps).
  exists m'. split; [exact Hm'|]. split.
  - destruct (Hkeeps "polymer-element.js" ["Element"] eq_refl)
      as (names' & Hnames & Hsub).
    exists names'. split; [exact Hnames|].
    apply Hsub, list_elem_of_here.
  - assert (Hcomputed :
      moduleObjects
        (world
           (snd (rewriteNamespacedReferences (fun u _ => u)
                   (appState {[ "Polymer.dom" := domExport ]} []
                      [("polymer-element.js", ["Element"])]
                      [domReference]))))
        !! 0%nat
      = Some {| url := "app.html"; source := ""; exports := [];
                importedReferences :=
                  [("polymer-element.js", ["Element"]);
                   ("polymer-dom.js", ["dom"])] |})
      by (vm_compute; reflexivity).
    rewrite Hcomputed in Hm'. injection Hm' as <-.
    exists ["dom"]. split; [reflexivity|]. apply list_elem_of_here.
Defined.

(** ** JS imports *)

Lemma set_of_list_elem l x : x ∈ set_of_list l <-> x ∈ l.
Proof.
  unfold set_of_list.
  assert (H : forall acc, x ∈ fold_left set_add l acc <-> x ∈ acc \/ x ∈ l).
  { induction l as [|y l IH]; intros acc; cbn [fold_left].
    - rewrite elem_of_nil. tauto.
    - rewrite IH, set_add_elem, elem_of_cons. tauto. }
  rewrite H, elem_of_nil. tauto.
Qed.

Lemma map_get_key {V} (m : list (string * V)) k v :
  map_get m k = Some v -> In k (map_keys m).
Proof.
  induction m as [|[k0 v0] m IH]; cbn [map_get map_keys map fst]; [done|].
  destruct (String.eqb_spec k0 k) as [->|Hne]; [by left|].
  intros H. right. by apply IH.
Qed.

Lemma getImportDeclarations_are_imports specifierUrl recorded :
  Forall (fun d => type d = "ImportDeclaration")
    (getImportDeclarations specifierUrl recorded).
Proof.
  unfold getImportDeclarations.
  destruct (existsb _ _); destruct (_ || _); cbn [app];
    repeat constructor.
Qed.

(** Every module the document imports and every module some reference was
    recorded for gets its import declarations, those that
    [getImportDeclarations] makes for the names recorded for it: a
    dependency that is referenced but not imported by the document is
    imported all the same. *)
Theorem recorded_references_are_imported :
  forall htmlUrlToJs (s : State) pl body m,
    hasBody s pl body ->
    moduleObjects (world s) !! module (this s) = Some m ->
    exists s' body',
      addJsImports htmlUrlToJs s = (Ok tt, s')
      /\ hasBody s' pl body'
      /\ forall moduleUrl d,
           moduleUrl ∈ jsImportUrls htmlUrlToJs s
           \/ is_Some (map_get (importedReferences m) moduleUrl) ->
           In d (getImportDeclarations moduleUrl
                   (map_get (importedReferences m) moduleUrl)) ->
           In d body'.
Proof.
  intros h s pl body m Hp Hm.
  destruct (addJsImports_prepends h s pl body m Hp Hm)
    as (s' & Hrun & Hp' & _).
  exists s'. eexists. split; [exact Hrun|]. split; [exact Hp'|].
  intros u d Hu Hd. apply in_or_app. left.
  fold (jsImportUrls h s).
  destruct (decide (u ∈ jsImportUrls h s)) as [Hin|Hout].
  - apply in_or_app. left. apply in_flat_map. exists u.
    split; [by apply list_elem_of_In|done].
  - apply in_or_app. right. apply in_flat_map. exists u.
    destruct Hu as [Hin|[names Hnames]]; [done|].
    split; [by eapply map_get_key|].
    unfold set_has. by rewrite bool_decide_eq_false_2.
Qed.

Lemma recorded_references_are_imported_witness :
  exists s' body',
    addJsImports (fun u _ => u)
      (appState ∅ [mkImport "dep.html" (documentAt "dep.html")]
         [("other.js", ["x"])] [domReference])
    = (Ok tt, s')
    /\ hasBody s' None body'
    /\ In (bareImport "dep.html") body'
    /\ In (aliasImport "other.js" "x") body'.
Proof.
  destruct (recorded_references_are_imported (fun u _ => u)
              (appState ∅ [mkImport "dep.html" (documentAt "dep.html")]
                 [("other.js", ["x"])] [domReference])
              None [domReference]
              {| url := "app.html"; source := ""; exports := [];
                 importedReferences := [("other.js", ["x"])] |}
              eq_refl eq_refl)
    as (s' & body' & Hrun & Hp & Hall).
  exists s', body'. split; [exact Hrun|]. split; [exact Hp|]. split.
  - apply (Hall "dep.html" (bareImport "dep.html")).
    + left. vm_compute. apply list_elem_of_here.
    + left. reflexivity.
  - apply (Hall "other.js" (aliasImport "other.js" "x")).
    + right. by eexists.
    + left. reflexivity.
Defined.

(** The imports are put before everything else and they are import
    declarations only; the cursor moves with the statement it is on. *)
Theorem imports_go_before_the_cursor :
  forall htmlUrlToJs (s : State) pl body m,
    hasBody s pl body ->
    moduleObjects (world s) !! module (this s) = Some m ->
    0 <= cursor s ->
    exists s' declarations,
      addJsImports htmlUrlToJs s = (Ok tt, s')
      /\ hasBody s' pl (declarations ++ body)
      /\ Forall (fun d => type d = "ImportDeclaration") declarations
      /\ cursor s' = cursor s + size declarations
      /\ at_index (declarations ++ body) (cursor s')
         = at_index body (cursor s).
Proof.
  intros h s pl body m Hp Hm Hcursor.
  destruct (addJsImports_prepends h s pl body m Hp Hm)
    as (s' & Hrun & Hp' & Hc').
  exists s'. eexists. split; [exact Hrun|]. split; [exact Hp'|].
  split; [|split; [exact Hc'|]].
  - apply Forall_app. split; apply Forall_flat_map, Forall_forall; intros u _.
    + apply getImportDeclarations_are_imports.
    + destruct (set_has _ u); [constructor|].
      apply getImportDeclarations_are_imports.
  - unfold cursor in *. rewrite Hc'. unfold at_index.
    destruct (Z.ltb_spec (currentStatementIndex (this s)) 0); [lia|].
    match goal with
    | |- context [Z.of_nat (length ?d)] => set (declarations := d)
    end.
    destruct (Z.ltb_spec
                (currentStatementIndex (this s)
                 + Z.of_nat (length declarations)) 0); [lia|].
    rewrite lookup_app_r by lia. f_equal. lia.
Qed.

Lemma imports_go_before_the_cursor_witness :
  exists s' declarations,
    addJsImports (fun u _ => u)
      (appState ∅ [mkImport "dep.html" (documentAt "dep.html")]
         [("other.js", ["x"])] [domReference])
    = (Ok tt, s')
    /\ hasBody s' None (declarations ++ [domReference])
    /\ cursor s' = 2
    /\ at_index (declarations ++ [domReference]) (cursor s')
       = Some domReference.
Proof.
  destruct (imports_go_before_the_cursor (fun u _ => u)
              (appState ∅ [mkImport "dep.html" (documentAt "dep.html")]
                 [("other.js", ["x"])] [domReference])
              None [domReference]
              {| url := "app.html"; source := ""; exports := [];
                 importedReferences := [("other.js", ["x"])] |}
              eq_refl eq_refl ltac:(done))
    as (s' & declarations & Hrun & Hp & _ & _ & Hat).
  exists s', declarations. split; [exact Hrun|]. split; [exact Hp|].
  split; [|rewrite Hat; reflexivity].
  apply (f_equal snd) in Hrun. cbn [snd] in Hrun. rewrite <- Hrun.
  vm_compute. reflexivity.
Defined.

(** ** References and their imports *)

Lemma visit_chain htmlUrlToJs w baseUrl flag st l root accesses e :
  failure st = None ->
  root <> "window" -> accesses <> [] ->
  namespacedExports (analysisConverter w) !! pathOf root accesses = Some e ->
  visitReference htmlUrlToJs w baseUrl flag st
    (memberChain (Identifier l root) accesses)
  = referTo htmlUrlToJs w baseUrl
      (memberChain (Identifier l root) accesses) e st.
Proof.
  intros Hf Hroot Hne He.
  pose proof (getMemberPath_chain l root accesses Hroot Hne) as Hpath.
  destruct accesses as [|a accesses _] using rev_ind; [done|].
  rewrite memberChain_unfold in *. cbn [visitReference].
  rewrite Hf, Hpath. fold (pathOf root (accesses ++ [a])). by rewrite He.
Qed.

Lemma mapAccum_failed htmlUrlToJs w baseUrl flag st l e :
  failure st = Some e ->
  mapAccum (visitReference htmlUrlToJs w baseUrl flag) st l = (l, st).
Proof.
  intros Hf. induction l as [|x l IH]; [done|].
  by rewrite mapAccum_cons, (visit_failed _ _ _ _ _ _ e Hf), IH.
Qed.

Lemma mapAccum_app {S} (f : S -> Node -> Node * S) s l1 l2 :
  mapAccum f s (l1 ++ l2)
  = let (l1', s1) := mapAccum f s l1 in
    let (l2', s2) := mapAccum f s1 l2 in
    ((l1' ++ l2')%list, s2).
Proof.
  revert s. induction l1 as [|x l1 IH]; intros s.
  - change (mapAccum f s ([] ++ l2)) with (mapAccum f s l2).
    change (mapAccum f s []) with (([] : list Node), s).
    cbv beta iota. destruct (mapAccum f s l2). reflexivity.
  - cbn [app]. rewrite !mapAccum_cons. destruct (f s x) as [x' s1].
    rewrite IH. destruct (mapAccum f s1 l1) as [l1' s2].
    by destruct (mapAccum f s2 l2).
Qed.

Lemma mapAccum_length {S} (f : S -> Node -> Node * S) s l :
  length (fst (mapAccum f s l)) = length l.
Proof.
  revert s. induction l as [|x l IH]; intros s; [done|].
  rewrite mapAccum_cons. destruct (f s x) as [x' s1].
  specialize (IH s1). destruct (mapAccum f s1 l). cbn in *. by rewrite IH.
Qed.

Lemma mapAccum_keeps htmlUrlToJs w baseUrl flag st l :
  keeps (imported st)
    (imported
       (snd (mapAccum (visitReference htmlUrlToJs w baseUrl flag) st l))).
Proof.
  rewrite mapAccum_state. apply fold_keeps.
  apply Forall_forall. intros c _. apply visit_keeps.
Qed.

(** The import that [addJsImports] makes for a module binds the alias of
    every name recorded for it, other than ['*']. *)
Lemma recorded_name_is_imported htmlUrlToJs s pl body m moduleUrl name :
  hasBody s pl body ->
  moduleObjects (world s) !! module (this s) = Some m ->
  records (importedReferences m) moduleUrl name ->
  name <> "*" ->
  exists s' imports,
    addJsImports htmlUrlToJs s = (Ok tt, s')
    /\ hasBody s' pl (imports ++ body)
    /\ Exists (importsUnderAlias moduleUrl name) imports.
Proof.
  intros Hp Hm (names & Hnames & Hin) Hname.
  destruct (addJsImports_prepends htmlUrlToJs s pl body m Hp Hm)
    as (s' & Hrun & Hp' & _).
  exists s'. eexists. split; [exact Hrun|]. split; [exact Hp'|].
  assert (Hbinds :
    Exists (importsUnderAlias moduleUrl name)
      (getImportDeclarations moduleUrl (Some names))).
  { unfold getImportDeclarations. cbn [default]. unfold id.
    set (others := List.filter (fun s0 => negb (String.eqb s0 "*")) names).
    assert (Hother : In name others).
    { apply filter_In. split; [by apply list_elem_of_In|].
      apply String.eqb_neq in Hname. by rewrite Hname. }
    assert (Hlen : (0 <? Z.of_nat (length
                      (map (fun s0 =>
                              jsc.importSpecifier (jsc.identifier s0)
                                (jsc.identifier (getImportAlias s0)))
                         others))) = true).
    { rewrite length_map. destruct others; [done|]. cbn [length].
      apply Z.ltb_lt. lia. }
    rewrite Hlen. cbn [orb]. apply Exists_app. right. apply Exists_cons_hd.
    eexists. split; [reflexivity|].
    by apply (in_map (fun s0 =>
                        jsc.importSpecifier (jsc.identifier s0)
                          (jsc.identifier (getImportAlias s0)))). }
  apply Exists_exists in Hbinds as (d & Hd & Hbinds).
  apply Exists_exists. exists d. split; [|exact Hbinds].
  apply list_elem_of_In. apply list_elem_of_In in Hd.
  set (urls :=
         set_of_list
           (map (fun i =>
                   htmlUrlToJs (import_url i)
                     (Some (doc_url (document (this s)))))
              (getHtmlImports s))).
  destruct (decide (moduleUrl ∈ urls)) as [Hu|Hu].
  - apply in_or_app. left. apply in_flat_map. exists moduleUrl.
    split; [by apply list_elem_of_In|]. by rewrite Hnames.
  - apply in_or_app. right. apply in_flat_map. exists moduleUrl.
    split; [by eapply map_get_key|].
    unfold set_has. rewrite bool_decide_eq_false_2 by done.
    by rewrite Hnames.
Qed.

(** When the pass ends without an error, a statement that is a member
    chain whose whole dotted path is a registered export, other than a
    whole namespace, has become the alias of the export, wherever it stands
    among the statements; and the import that [addJsImports] then makes
    for the export's module binds that alias: the reference and the import
    specifier agree on the local name. *)
Theorem rewritten_reference_is_bound_by_its_import :
  forall htmlUrlToJs (s s1 : State) pl before sl l root accesses after e m,
    hasBody s pl
      (before ++
       ExpressionStatement sl (memberChain (Identifier l root) accesses)
       :: after) ->
    root <> "window" -> accesses <> [] ->
    namespacedExports (analysisConverter (world s)) !! pathOf root accesses
    = Some e ->
    exported_as e <> "*" ->
    modules (analysisConverter (world s)) !! jsUrl (this s)
    = Some (module (this s)) ->
    moduleObjects (world s) !! module (this s) = Some m ->
    rewriteNamespacedReferences htmlUrlToJs s = (Ok tt, s1) ->
    let alias :=
      ExpressionStatement sl
        (Identifier None ("$" +:+ exported_as e)) in
    exists before' after' s2 imports,
      hasBody s1 pl (before' ++ alias :: after')
      /\ length before' = length before
      /\ length after' = length after
      /\ addJsImports htmlUrlToJs s1 = (Ok tt, s2)
      /\ hasBody s2 pl (imports ++ before' ++ alias :: after')
      /\ Exists
           (importsUnderAlias
              (htmlUrlToJs (export_url e)
                 (Some (doc_url (document (this s)))))
              (exported_as e))
           imports.
Proof.
  intros h s s1 pl before sl l root accesses after e m Hp Hroot Hne He
    Hname Hr Hm Hrun alias.
  unfold rewriteNamespacedReferences in Hrun. rewrite Hr, Hm, Hp in Hrun.
  cbn [visitReference failure mapChildrenAccum] in Hrun.
  rewrite mapAccum_app in Hrun.
  pose proof (mapAccum_length
                (visitReference h (world s) (doc_url (document (this s)))
                   false)
                {| imported := importedReferences m; failure := None |}
                before) as Hlb.
  destruct (mapAccum _ _ before) as [before' st1]. cbn [fst] in Hlb.
  rewrite mapAccum_cons in Hrun.
  destruct (failure st1) as [e1|] eqn:Hf1.
  { rewrite (visit_failed h _ _ _ _ _ e1 Hf1) in Hrun.
    rewrite (mapAccum_failed h _ _ _ _ _ e1 Hf1) in Hrun.
    rewrite Hf1 in Hrun. discriminate. }
  cbn [visitReference mapChildrenAccum] in Hrun. rewrite Hf1 in Hrun.
  rewrite (visit_chain h _ _ _ _ l root accesses e) in Hrun by done.
  unfold referTo, replacePathWithExportIdentifier in Hrun.
  rewrite (proj2 (String.eqb_neq _ _) Hname) in Hrun.
  set (st2 := {| imported :=
                   addToImportedReferences h (doc_url (document (this s)))
                     e (imported st1);
                 failure := None |}) in Hrun.
  pose proof (mapAccum_length
                (visitReference h (world s) (doc_url (document (this s)))
                   false) st2 after) as Hla.
  pose proof (mapAccum_keeps h (world s) (doc_url (document (this s)))
                false st2 after) as Hkeeps.
  destruct (mapAccum _ st2 after) as [after' st3].
  cbn [fst snd] in Hla, Hkeeps.
  destruct (failure st3); [discriminate|].
  injection Hrun as <-.
  set (s1 := with_world _ _).
  set (body1 := (before' ++ alias :: after')%list).
  assert (Hp1 : hasBody s1 pl body1) by by destruct s as [[] ?].
  assert (Hm1 : moduleObjects (world s1) !! module (this s1)
                = Some {| url := url m; source := source m;
                          exports := exports m;
                          importedReferences := imported st3 |}).
  { destruct s as [[] [? ? ?]]. cbn in *.
    by rewrite list_lookup_alter, decide_True, Hm by done. }
  assert (Hrec :
    records (imported st3)
      (h (export_url e) (Some (doc_url (document (this s)))))
      (exported_as e)).
  { destruct (record_records h (doc_url (document (this s))) e
                (imported st1)) as (names & Hnames & Hin).
    destruct (Hkeeps _ _ Hnames) as (names' & Hnames' & Hsub).
    exists names'. split; [exact Hnames'|by apply Hsub]. }
  destruct (recorded_name_is_imported h s1 pl body1 _ _ _ Hp1 Hm1 Hrec
              Hname) as (s2 & imports & Hrun2 & Hp2 & Hbinds).
  exists before', after', s2, imports.
  split; [exact Hp1|]. split; [exact Hlb|]. split; [exact Hla|].
  split; [exact Hrun2|]. split; [exact Hp2|exact Hbinds].
Qed.

Lemma rewritten_reference_is_bound_by_its_import_witness :
  exists s1 before' after' s2 imports,
    rewriteNamespacedReferences (fun u _ => u)
      (appState {[ "Polymer.Element" := elementExport ]} [] []
         [polymerFnStatement; elementReference; emptyReturn])
    = (Ok tt, s1)
    /\ hasBody s1 None
         (before' ++
          ExpressionStatement None (Identifier None "$Element") :: after')
    /\ length before' = 1%nat
    /\ addJsImports (fun u _ => u) s1 = (Ok tt, s2)
    /\ hasBody s2 None
         (imports ++ before' ++
          ExpressionStatement None (Identifier None "$Element") :: after')
    /\ Exists (importsUnderAlias "polymer-element.js" "Element") imports.
Proof.
  eexists.
  assert (Hrun :
    rewriteNamespacedReferences (fun u _ => u)
      (appState {[ "Polymer.Element" := elementExport ]} [] []
         [polymerFnStatement; elementReference; emptyReturn])
    = (Ok tt,
       snd (rewriteNamespacedReferences (fun u _ => u)
              (appState {[ "Polymer.Element" := elementExport ]} [] []
                 [polymerFnStatement; elementReference; emptyReturn]))))
    by (vm_compute; reflexivity).
  destruct (rewritten_reference_is_bound_by_its_import (fun u _ => u)
              (appState {[ "Polymer.Element" := elementExport ]} [] []
                 [polymerFnStatement; elementReference; emptyReturn])
              _ None [polymerFnStatement] None None "Polymer"
              [access "Element"] [emptyReturn] elementExport
              {| url := "app.html"; source := ""; exports := [];
                 importedReferences := [] |}
              eq_refl ltac:(discriminate) ltac:(discriminate) eq_refl
              ltac:(discriminate) eq_refl eq_refl Hrun)
    as (before' & after' & s2 & imports & Hp1 & Hlb & _ & Hrun2 & Hp2 & Hb).
  exists before', after', s2, imports.
  split; [exact Hrun|]. split; [exact Hp1|]. split; [exact Hlb|].
  split; [exact Hrun2|]. split; [exact Hp2|exact Hb].
Defined.

(** When the first statement of the program is a reference to a whole
    namespace whose module is not registered, the pass stops there: reading
    the module's URL throws. The reference has been recorded by then, the
    statement stays as it was, and the statements after it are not
    visited. *)
Theorem unregistered_module_reference_throws :
  forall htmlUrlToJs (s : State) pl sl l root accesses rest e r m,
    hasBody s pl
      (ExpressionStatement sl (memberChain (Identifier l root) accesses)
       :: rest) ->
    root <> "window" -> accesses <> [] ->
    namespacedExports (analysisConverter (world s)) !! pathOf root accesses
    = Some e ->
    exported_as e = "*" ->
    modules (analysisConverter (world s)) !! export_url e = None ->
    modules (analysisConverter (world s)) !! jsUrl (this s) = Some r ->
    moduleObjects (world s) !! r = Some m ->
    exists s' m',
      rewriteNamespacedReferences htmlUrlToJs s
      = (Throw (TypeError "jsModule.url"), s')
      /\ this s' = this s
      /\ moduleObjects (world s') !! r = Some m'
      /\ records (importedReferences m')
           (htmlUrlToJs (export_url e)
              (Some (doc_url (document (this s)))))
           "*".
Proof.
  intros h s pl sl l root accesses rest e r m Hp Hroot Hne He Hname Hnone
    Hr Hm.
  unfold rewriteNamespacedReferences. rewrite Hr, Hm, Hp.
  cbn [visitReference failure mapChildrenAccum].
  rewrite mapAccum_cons. cbn [visitReference failure mapChildrenAccum].
  rewrite (visit_chain h _ _ _ _ l root accesses e) by done.
  unfold referTo, replacePathWithExportIdentifier, moduleAt.
  rewrite Hname, Hnone. cbn [String.eqb Ascii.eqb Bool.eqb].
  rewrite (mapAccum_failed h _ _ _ _ _ (TypeError "jsModule.url"))
    by done.
  cbn [failure imported]. eexists. eexists.
  split; [reflexivity|]. split.
  - destruct s as [[] ?]. cbn in *. by rewrite Hp.
  - split.
    + cbn. by rewrite list_lookup_alter, decide_True, Hm by done.
    + cbn [importedReferences]. rewrite <- Hname. apply record_records.
Qed.

Lemma unregistered_module_reference_throws_witness :
  exists s' m',
    rewriteNamespacedReferences (fun u _ => u)
      (referringState {[ "Polymer.Element" := wholeNamespaceExport ]}
         elementReference)
    = (Throw (TypeError "jsModule.url"), s')
    /\ moduleObjects (world s') !! 0%nat = Some m'
    /\ records (importedReferences m') "polymer-element.js" "*".
Proof.
  destruct (unregistered_module_reference_throws (fun u _ => u)
              (referringState {[ "Polymer.Element" := wholeNamespaceExport ]}
                 elementReference)
              None None None "Polymer" [access "Element"] []
              wholeNamespaceExport 0%nat (newModule "app.html")
              eq_refl ltac:(discriminate) ltac:(discriminate) eq_refl
              eq_refl eq_refl eq_refl eq_refl)
    as (s' & m' & Hrun & _ & Hm' & Hrec).
  by exists s', m'.
Defined.

(** ** Retained markup *)

Lemma splice_insert {A} (l items : list A) c :
  0 <= c ->
  splice l c 0 items
  = (take (Z.to_nat c) l ++ items ++ drop (Z.to_nat c) l)%list.
Proof.
  intros Hc. unfold splice.
  destruct (Z.ltb_spec c 0); [lia|].
  replace (Z.min (Z.max 0 0) (Z.of_nat (length l) - Z.min c (Z.of_nat (length l))))
    with 0 by lia.
  rewrite Z.add_0_r.
  destruct (Z.le_gt_cases c (Z.of_nat (length l))).
  - by rewrite Z.min_l by lia.
  - rewrite Z.min_r by lia. rewrite Nat2Z.id.
    rewrite !take_ge, !drop_ge by lia. done.
Qed.

Lemma at_index_after_insert {A} (l items : list A) c :
  0 <= c ->
  at_index (take (Z.to_nat c) l ++ items ++ drop (Z.to_nat c) l)
    (c + Z.of_nat (length items))
  = at_index l c.
Proof.
  intros Hc. unfold at_index.
  destruct (Z.ltb_spec c 0); [lia|].
  destruct (Z.ltb_spec (c + Z.of_nat (length items)) 0); [lia|].
  destruct (Z.le_gt_cases (Z.of_nat (length l)) c).
  - rewrite take_ge, drop_ge, app_nil_r by lia.
    rewrite !lookup_ge_None_2; [done|lia|rewrite length_app; lia].
  - rewrite lookup_app_r by (rewrite length_take; lia).
    rewrite lookup_app_r by (rewrite length_take; lia).
    rewrite lookup_drop. f_equal. rewrite length_take. lia.
Qed.

(** The container statements are put in at the cursor: what was before the
    cursor and what was from the cursor on are kept, in their order, and
    the cursor moves with the statement it was on. The markup assigned is
    the literal of the fragment of the retained elements, without added
    line feeds. Nothing of the registry changes. *)
Theorem retained_markup_goes_in_at_the_cursor :
  forall serialize ast top generic (s : State) pl body,
    childNodes ast = Some top ->
    genericElements top = Ok generic ->
    generic <> [] ->
    hasBody s pl body ->
    0 <= cursor s ->
    let statements :=
      containerStatements
        (nodeToTemplateLiteral ASTNode serialize (fragmentOf generic) false)
    in
    let before := take (Z.to_nat (cursor s)) body in
    let after := drop (Z.to_nat (cursor s)) body in
    exists s',
      convertElements serialize ast s = (Ok tt, s')
      /\ hasBody s' pl (before ++ statements ++ after)
      /\ cursor s' = cursor s + 4
      /\ at_index (before ++ statements ++ after) (cursor s')
         = at_index body (cursor s)
      /\ world s' = world s.
Proof.
  intros serialize ast top generic s pl body Htop Hgeneric Hne Hp Hc
    statements before after.
  unfold convertElements. rewrite Htop, Hgeneric.
  destruct generic as [|g generic]; [done|].
  fold (fragmentOf (g :: generic)). fold statements.
  unfold bind at 1, get. unfold bind at 1, program_body. rewrite Hp.
  unfold bind, set_program_body. rewrite Hp. unfold modify.
  eexists. split; [reflexivity|].
  unfold cursor, hasBody in *. cbn.
  rewrite splice_insert by done. fold before after.
  repeat split; try done.
  apply (at_index_after_insert body statements _ Hc).
Qed.

Lemma retained_markup_goes_in_at_the_cursor_witness :
  exists s',
    convertElements nodeName
      (markupDocument [element "script" []] [element "my-app" []])
      markupState
    = (Ok tt, s')
    /\ cursor s' = 4
    /\ at_index
         (containerStatements
            (nodeToTemplateLiteral ASTNode nodeName
               (fragmentOf [element "my-app" []]) false)
          ++ [one])
         (cursor s')
       = Some one.
Proof.
  destruct (retained_markup_goes_in_at_the_cursor nodeName
              (markupDocument [element "script" []] [element "my-app" []])
              [element "html"
                 [element "head" [element "script" []];
                  element "body" [element "my-app" []]]]
              [element "my-app" []] markupState None [one]
              eq_refl eq_refl ltac:(discriminate) eq_refl ltac:(done))
    as (s' & Hrun & _ & Hc & Hat & _).
  exists s'. split; [exact Hrun|]. split; [exact Hc|exact Hat].
Defined.

Lemma genericOf_generic elements :
  Forall isGeneric (genericOf (elementsOf elements)).
Proof.
  apply Forall_forall. intros n Hn. apply list_elem_of_In in Hn.
  apply filter_In in Hn as [Hn Hkept]. apply filter_In in Hn as [_ Htag].
  destruct (tagName n) as [tag|] eqn:E; [|done].
  exists tag. split; [done|].
  apply negb_true_iff, bool_decide_eq_false in Hkept. done.
Qed.

Lemma genericOf_app l1 l2 :
  genericOf (l1 ++ l2) = (genericOf l1 ++ genericOf l2)%list.
Proof. apply List.filter_app. Qed.

(** What is retained are elements only, none of them a [base], [link],
    [meta], [script] or [dom-module] element: these never reach the
    document container. *)
Theorem only_generic_elements_are_retained :
  forall top generic,
    genericElements top = Ok generic -> Forall isGeneric generic.
Proof.
  intros top generic. unfold genericElements.
  destruct (findTag "html" top) as [htmlElement|]; [|done].
  destruct (childNodes htmlElement) as [inHtml|]; [|done].
  destruct (findTag "head" inHtml) as [head|]; [|done].
  destruct (childNodes head) as [inHead|]; [|done].
  destruct (findTag "body" inHtml) as [body|]; [|done].
  destruct (childNodes body) as [inBody|]; [|done].
  intros [= <-]. rewrite genericOf_app.
  apply Forall_app. split; apply genericOf_generic.
Qed.

Lemma only_generic_elements_are_retained_witness :
  Forall isGeneric [element "my-app" []].
Proof.
  exact (only_generic_elements_are_retained
           [element "html"
              [element "head" [element "script" []; textNode];
               element "body" [element "my-app" []; element "link" []]]]
           [element "my-app" []] eq_refl).
Defined.

(** A document whose head and body hold nothing but text, comments and
    elements of the blacklist gets no container: the converter is left as
    it is. *)
Theorem document_without_generic_elements_is_left_alone :
  forall serialize inHead inBody (s : State),
    Forall (fun n => forall tag, hasTag tag n -> tag ∈ elementBlacklist)
      (inHead ++ inBody) ->
    convertElements serialize (markupDocument inHead inBody) s = (Ok tt, s).
Proof.
  intros serialize inHead inBody s Hall.
  unfold convertElements, markupDocument. cbn [childNodes].
  unfold genericElements. cbn.
  assert (Hnone : forall l,
            Forall (fun n => forall tag, hasTag tag n -> tag ∈ elementBlacklist)
              l ->
            genericOf (elementsOf l) = []).
  { induction 1 as [|n l Hn _ IH]; [done|].
    unfold genericOf, elementsOf in *. cbn [List.filter].
    destruct (tagName n) as [tag|] eqn:E; [|exact IH].
    cbn [List.filter]. rewrite E.
    by rewrite bool_decide_eq_true_2 by by apply Hn. }
  apply Forall_app in Hall as [Hhead Hbody].
  by rewrite genericOf_app, !Hnone.
Qed.

Lemma document_without_generic_elements_is_left_alone_witness :
  convertElements nodeName
    (markupDocument [element "script" []; textNode] [element "dom-module" []])
    markupState
  = (Ok tt, markupState).
Proof.
  apply (document_without_generic_elements_is_left_alone nodeName
           [element "script" []; textNode] [element "dom-module" []]
           markupState).
  cbn [app].
  repeat (apply Forall_cons_2;
          [intros tag [= <-]; unfold elementBlacklist;
           repeat (first [apply list_elem_of_here
                         | apply list_elem_of_further])|]).
  apply Forall_nil_2.
Defined.

(** The converter reads the head and the body of the [html] element
    without a test: a tree with child nodes and no [html] element among
    them makes it throw, where a tree without child nodes is skipped. *)
Theorem markup_without_html_element_throws :
  forall serialize ast top (s : State),
    childNodes ast = Some top ->
    Forall (fun n => ~ hasTag "html" n) top ->
    exists message,
      convertElements serialize ast s = (Throw (TypeError message), s).
Proof.
  intros serialize ast top s Htop Hall.
  unfold convertElements. rewrite Htop.
  assert (Hfind : findTag "html" top = None).
  { clear Htop. unfold findTag. induction Hall as [|n l Hn _ IH]; [done|].
    cbn [find]. unfold hasTag in Hn.
    destruct (tagName n) as [tag|]; [|exact IH].
    destruct (String.eqb_spec tag "html") as [->|_]; [done|exact IH]. }
  unfold genericElements. rewrite Hfind. by eexists.
Qed.

Lemma markup_without_html_element_throws_witness :
  exists message,
    convertElements nodeName (fragmentOf [element "my-app" []]) markupState
    = (Throw (TypeError message), markupState).
Proof.
  apply (markup_without_html_element_throws nodeName
           (fragmentOf [element "my-app" []]) [element "my-app" []]
           markupState eq_refl).
  repeat constructor. discriminate.
Defined.

(** ** Rewriting [this] *)

Lemma mapChildren_ext f g n :
  Forall (fun c => f c = g c) (children n) ->
  mapChildren f n = mapChildren g n.
Proof.
  assert (Hmap : forall l, Forall (fun c => f c = g c) l -> map f l = map g l).
  { induction 1 as [|x l Hx _ IH]; cbn; [done|]. by rewrite Hx, IH. }
  assert (Hopt : forall o,
             Forall (fun c => f c = g c) (opt_list o) ->
             option_map f o = option_map g o).
  { intros [x|]; cbn; [|done]. intros Hx. inversion Hx. congruence. }
  destruct n; cbn [children mapChildren]; intros H;
    repeat match goal with
           | H : Forall _ (_ :: _) |- _ =>
               apply Forall_cons_1 in H; destruct H
           | H : Forall _ (_ ++ _) |- _ =>
               apply Forall_app in H; destruct H
           end;
    try (f_equal; first [by apply Hmap | by apply Hopt | done]).
  f_equal. induction properties as [|p ps IH]; [done|].
  cbn [flat_map app] in H.
  apply Forall_cons_1 in H as [Hk H]. apply Forall_cons_1 in H as [Hv H].
  cbn [map]. rewrite IH by done. by rewrite Hk, Hv.
Qed.

Lemma mapChildren_compose f g n :
  mapChildren f (mapChildren g n) = mapChildren (fun c => f (g c)) n.
Proof.
  assert (Hopt : forall o : option Node,
             option_map f (option_map g o)
             = option_map (fun c => f (g c)) o) by by intros [|].
  destruct n; cbn [mapChildren]; rewrite ?map_map, ?Hopt; reflexivity.
Qed.

(** One pass settles the scope: what it made is left as it is by a second
    pass, under whatever name. No [this] of the scope is left to rewrite,
    and the nested functions are passed over both times. *)
Theorem this_references_are_rewritten_once :
  forall (name other : string) (node : Node),
    rewriteSingleScopeThisReferences other
      (rewriteSingleScopeThisReferences name node)
    = rewriteSingleScopeThisReferences name node.
Proof.
  intros name other node.
  induction node as [n IH] using Node_children_ind.
  assert (Hc :
    mapChildren (rewriteSingleScopeThisReferences other)
      (mapChildren (rewriteSingleScopeThisReferences name) n)
    = mapChildren (rewriteSingleScopeThisReferences name) n).
  { rewrite mapChildren_compose. by apply mapChildren_ext. }
  destruct n; try exact Hc; reflexivity.
Qed.

(** ** Recognising an export *)

(** An export is an expression statement that assigns to a dotted path
    whose first segment is a known namespace, and nothing else of the
    statement is looked at: not the assignment operator, not whether an
    access is computed, not the locations. *)
Theorem getExport_reads_path_and_value_only :
  forall (statement : Node) (namespaces : gset string) (found : Export),
    getExport statement namespaces = Some found ->
    exists sl al operator target root more,
      statement
      = assignmentStatement sl al operator target (exported_value found)
      /\ getMemberPath target = Some (root :: more)
      /\ namespace found = root :: more
      /\ root ∈ namespaces
      /\ forall sl' al' operator',
           getExport
             (assignmentStatement sl' al' operator' target
                (exported_value found))
             namespaces
           = Some found.
Proof.
  intros statement namespaces found.
  destruct statement; try discriminate.
  destruct statement; try discriminate.
  destruct statement1; try discriminate.
  cbn [getExport].
  destruct (getMemberPath _) as [[|root more]|] eqn:Hpath; try discriminate.
  cbn [head]. case_bool_decide as Hroot; [|discriminate].
  intros [= <-]. cbn [namespace exported_value].
  do 6 eexists. split; [reflexivity|]. split; [exact Hpath|].
  split; [done|]. split; [done|].
  intros sl' al' operator'. unfold assignmentStatement. cbn [getExport].
  rewrite Hpath. cbn [head]. by rewrite bool_decide_eq_true_2.
Qed.

Lemma getExport_reads_path_and_value_only_witness :
  exists sl al operator target root more,
    polymerFnStatement
    = assignmentStatement sl al operator target
        (exported_value
           {| namespace := ["Polymer"; "_polymerFn"];
              exported_value := emptyFunction |})
    /\ getMemberPath target = Some (root :: more)
    /\ root ∈ ({[ "Polymer" ]} : gset string).
Proof.
  assert (Hfound :
    getExport polymerFnStatement {[ "Polymer" ]}
    = Some {| namespace := ["Polymer"; "_polymerFn"];
              exported_value := emptyFunction |}).
  { cbn. rewrite bool_decide_eq_true_2; [done|]. by apply elem_of_singleton. }
  destruct (getExport_reads_path_and_value_only polymerFnStatement
              {[ "Polymer" ]}
              {| namespace := ["Polymer"; "_polymerFn"];
                 exported_value := emptyFunction |} Hfound)
    as (sl & al & operator & target & root & more & Hs & Hp & _ & Hr & _).
  by exists sl, al, operator, target, root, more.
Defined.

(** ** Excluded imports *)

(** An excluded import is not a dependency: when every HTML import of the
    document is excluded, no document is converted, whatever converting
    one would do. *)
Theorem excluded_imports_are_not_converted :
  forall htmlUrlToJs convertDocument (s : State),
    Forall
      (fun i => import_url i ∈ _excludes (analysisConverter (world s)))
      (htmlImports (document (this s))) ->
    getHtmlImports s = []
    /\ convertDependencies htmlUrlToJs convertDocument s = (Ok tt, s).
Proof.
  intros h cd s Hall.
  assert (Hnone : getHtmlImports s = []).
  { unfold getHtmlImports.
    induction Hall as [|i l Hi _ IH]; [done|].
    cbn [List.filter]. by rewrite bool_decide_eq_true_2. }
  split; [exact Hnone|].
  unfold convertDependencies. rewrite Hnone. by destruct s.
Qed.

Lemma excluded_imports_are_not_converted_witness :
  convertDependencies (fun u _ => u)
    (fun d w => registeredBy (doc_url d) w) excludingState
  = (Ok tt, excludingState).
Proof.
  apply (excluded_imports_are_not_converted (fun u _ => u)
           (fun d w => registeredBy (doc_url d) w) excludingState).
  apply Forall_cons_2; [|apply Forall_nil_2].
  change ("legacy.html" ∈ ({[ "legacy.html" ]} : gset string)).
  by apply elem_of_singleton.
Defined.
